(** * OrpheusDL TIDAL module ([interface.py]): manifest parsing, format
    resolution and segment assembly.

    The development embeds three methods of [ModuleInterface]:
    [parse_mpd] (the MPEG-DASH manifest parser), the resolution part of
    [get_track_info] (format and session selection, manifest fetch, the
    proprietary-codec fallback) and [get_track_download] (segment download,
    concatenation, remux).  Python builtins and the collaborators that live
    outside [interface.py] (the codec table of [utils.models], the TIDAL API
    client, ffmpeg, the XML/JSON/base64 decoders) are either written out or
    taken as an interface. *)

From Stdlib Require Import ZArith QArith String Ascii DecimalString.
From Stdlib Require DecimalZ DecimalPos.
From stdpp Require Import base strings list gmap.

Set Default Proof Using "Type".


(** ** Python builtins *)

Module Py.

(** The exceptions that the embedded code can raise or catch. *)
Inductive exn : Type :=
| ValueError (msg : string)
| TypeError
| AttributeError
| KeyError (key : string)
| IndexError
| UnicodeDecodeError
| ParseError
| TidalRequestError (msg : string)
| RequestException (msg : string).

(** A computation that either raises or returns. *)
Definition result (A : Type) : Type := (exn + A)%type.

Definition ret {A} (a : A) : result A := inr a.
Definition raise {A} (e : exn) : result A := inl e.
Definition bind {A B} (m : result A) (k : A → result B) : result B :=
  match m with
  | inl e => inl e
  | inr a => k a
  end.

(** [x[key]] on something that may be absent. *)
Definition or_raise {A} (e : exn) (o : option A) : result A :=
  match o with
  | Some a => inr a
  | None => inl e
  end.

Fixpoint mapM {A B} (f : A → result B) (l : list A) : result (list B) :=
  match l with
  | [] => ret []
  | a :: l' => bind (f a) (λ b, bind (mapM f l') (λ bs, ret (b :: bs)))
  end.

(** *** [str] methods (on ASCII; bytes above 127 are left alone) *)

Definition upper_char (c : ascii) : ascii :=
  let n := nat_of_ascii c in
  if (97 <=? n)%nat && (n <=? 122)%nat then ascii_of_nat (n - 32) else c.

Definition lower_char (c : ascii) : ascii :=
  let n := nat_of_ascii c in
  if (65 <=? n)%nat && (n <=? 90)%nat then ascii_of_nat (n + 32) else c.

Fixpoint upper (s : string) : string :=
  match s with
  | EmptyString => EmptyString
  | String c s' => String (upper_char c) (upper s')
  end.

Fixpoint lower (s : string) : string :=
  match s with
  | EmptyString => EmptyString
  | String c s' => String (lower_char c) (lower s')
  end.

(** [s.startswith(p)] *)
Definition startswith (s p : string) : bool := String.prefix p s.

(** [sub in s] *)
Fixpoint contains (sub s : string) : bool :=
  String.prefix sub s ||
  match s with
  | EmptyString => false
  | String _ s' => contains sub s'
  end.

(** [s.replace(old, new)] for a non-empty [old]: scan left to right, and
    after a match skip the matched characters. *)
Fixpoint replace_go (old new : string) (skip : nat) (s : string) : string :=
  match s with
  | EmptyString => EmptyString
  | String c s' =>
      match skip with
      | S k => replace_go old new k s'
      | O =>
          if String.prefix old s
          then new +:+ replace_go old new (String.length old - 1) s'
          else String c (replace_go old new 0 s')
      end
  end.

Definition replace (s old new : string) : string := replace_go old new 0 s.

(** Whitespace as [str.strip] and [int] see it, in the ASCII range. *)
Definition isspace (c : ascii) : bool :=
  let n := nat_of_ascii c in
  ((9 <=? n)%nat && (n <=? 13)%nat) || ((28 <=? n)%nat && (n <=? 32)%nat).

Fixpoint lstrip (s : string) : string :=
  match s with
  | EmptyString => EmptyString
  | String c s' => if isspace c then lstrip s' else s
  end.

Definition strip (s : string) : string :=
  String.rev (lstrip (String.rev (lstrip s))).

(** *** [int(str)] and [str(int)], base ten *)

Definition digit (c : ascii) : option Z :=
  let n := nat_of_ascii c in
  if (48 <=? n)%nat && (n <=? 57)%nat then Some (Z.of_nat (n - 48)) else None.

(** Digits with single underscores between them; [prev] tells whether the
    previous character was a digit. *)
Fixpoint int_digits (s : string) (acc : Z) (prev : bool) : option Z :=
  match s with
  | EmptyString => if prev then Some acc else None
  | String c s' =>
      match digit c with
      | Some d => int_digits s' (10 * acc + d)%Z true
      | None =>
          if Ascii.eqb c "_"%char && prev then int_digits s' acc false else None
      end
  end.

Definition int_literal (s : string) : option Z :=
  match strip s with
  | String "-" s' => Z.opp <$> int_digits s' 0 false
  | String "+" s' => int_digits s' 0 false
  | s' => int_digits s' 0 false
  end.

(** [int(s)]: the ASCII decimal literals; anything else is a
    [ValueError]. *)
Definition int (s : string) : result Z :=
  or_raise (ValueError "invalid literal for int() with base 10") (int_literal s).

(** [int(x)] where [x] may be [None]. *)
Definition int_opt (x : option string) : result Z :=
  match x with
  | Some s => int s
  | None => raise TypeError
  end.

(** Truth value of [x] where [x] is a string or [None]. *)
Definition truthy (x : option string) : bool :=
  match x with
  | Some (String _ _) => true
  | _ => false
  end.

(** [int(x or d)] for an integer default [d]. *)
Definition int_or (x : option string) (d : Z) : result Z :=
  if truthy x then int_opt x else ret d.

(** [str(n)] *)
Definition str (n : Z) : string := NilZero.string_of_int (Z.to_int n).

(** [list(range(a, b))] *)
Definition range (a b : Z) : list Z := seqZ a (b - a).

(** [x in l] for a list of strings. *)
Definition in_list (x : string) (l : list string) : bool :=
  bool_decide (x ∈ l).

End Py.

Import Py.

Notation "'let!' x ':=' m 'in' k" := (Py.bind m (λ x, k))
  (at level 10, x pattern, m at level 100, k at level 200,
   format "'[v' 'let!'  x  ':='  m  'in' '/' k ']'").

(** ** Code that reads and writes a state and may raise *)

Module Eff.

Definition M (W A : Type) : Type := W → result A * W.

Definition retM {W A} (a : A) : M W A := λ w, (inr a, w).
Definition bindM {W A B} (m : M W A) (k : A → M W B) : M W B :=
  λ w, match m w with
       | (inl e, w') => (inl e, w')
       | (inr a, w') => k a w'
       end.
Definition lift {W A} (r : result A) : M W A := λ w, (r, w).

(** A [for] loop that collects one value per element. *)
Fixpoint forM {W A B} (l : list A) (f : A → M W B) : M W (list B) :=
  match l with
  | [] => retM []
  | a :: l' => bindM (f a) (λ b, bindM (forM l' f) (λ bs, retM (b :: bs)))
  end.

End Eff.

Notation "'let*' x ':=' m 'in' k" := (Eff.bindM m (λ x, k))
  (at level 10, x pattern, m at level 100, k at level 200,
   format "'[v' 'let*'  x  ':='  m  'in' '/' k ']'").

(** ** [xml.etree.ElementTree] *)

Module ElementTree.

(** An element: its tag, its attribute dictionary (a list of pairs without
    repeated keys) and its child elements in document order. *)
Local Unset Elimination Schemes.
Inductive Element : Type :=
| Elem (tag : string) (attrib : list (string * string)) (children : list Element).
Local Set Elimination Schemes.

Definition tag (e : Element) : string := let 'Elem t _ _ := e in t.
Definition attrib (e : Element) : list (string * string) := let 'Elem _ a _ := e in a.
Definition children (e : Element) : list Element := let 'Elem _ _ c := e in c.

Fixpoint lookup_attr (k : string) (a : list (string * string)) : option string :=
  match a with
  | [] => None
  | (k', v) :: a' => if String.eqb k k' then Some v else lookup_attr k a'
  end.

(** [e.get(k)] *)
Definition get (e : Element) (k : string) : option string := lookup_attr k (attrib e).

(** [e.findall(t)] for a plain tag name: the direct children with that tag. *)
Definition findall (e : Element) (t : string) : list Element :=
  List.filter (λ c, String.eqb (tag c) t) (children e).

(** [e.find(t)]: the first such child, or [None]. *)
Definition find (e : Element) (t : string) : option Element := head (findall e t).

End ElementTree.

Import ElementTree Eff.

(** ** Collaborators outside [interface.py] *)

(** [CodecEnum] and [codec_data] of [utils.models]: the enumeration is looked
    up by member name ([CodecEnum[name]]), and [codec_data] gives the flags
    and the container of each member. *)
Class CodecTable : Type := {
  CodecEnum : Type;
  CodecEnum_eq_dec :: EqDecision CodecEnum;
  CodecEnum_getitem : string → option CodecEnum;
  FLAC : CodecEnum;
  ALAC : CodecEnum;
  MQA : CodecEnum;
  EAC3 : CodecEnum;
  MHA1 : CodecEnum;
  AC4 : CodecEnum;
  codec_spatial : CodecEnum → bool;
  codec_proprietary : CodecEnum → bool;
  codec_container : CodecEnum → string;
}.

(** [CodecEnum[name]], a [KeyError] when there is no such member. *)
Definition CodecEnum_item `{CodecTable} (name : string) : result CodecEnum :=
  or_raise (KeyError name) (CodecEnum_getitem name).

(** ** The manifest parser *)

Module Mpd.
Section parse.
Context `{CodecTable}.

(** The [AudioTrack] dataclass.  An entry of [urls] is [None] when the
    attribute it was read from is absent. *)
Record AudioTrack : Type := mkAudioTrack {
  codec : CodecEnum;
  sample_rate : Z;
  bitrate : Z;
  urls : list (option string);
}.

(** The decoders [bytes.decode('UTF-8')] and [ElementTree.fromstring]. *)
Context (decode : string → result string) (fromstring : string → result Element).

Definition dquote : ascii := ascii_of_nat 34.

(** Length of the leading run of characters other than the double quote,
    and what follows it. *)
Fixpoint span_unquoted (s : string) : nat * string :=
  match s with
  | EmptyString => (0, EmptyString)
  | String c s' =>
      if Ascii.eqb c dquote then (0, s)
      else let '(n, r) := span_unquoted s' in (S n, r)
  end.

Fixpoint drop_prefix (p s : string) : option string :=
  match p, s with
  | EmptyString, _ => Some s
  | String a p', String b s' => if Ascii.eqb a b then drop_prefix p' s' else None
  | String _ _, EmptyString => None
  end.

(** Whether the namespace pattern (the text xmlns= followed by a double
    quote, one or more characters other than a double quote, and a double
    quote) matches at the head of [s]; if so, the text after the match. *)
Definition match_xmlns (s : string) : option string :=
  match drop_prefix ("xmlns=" +:+ String dquote EmptyString) s with
  | Some body =>
      match span_unquoted body with
      | (S _, String _ rest) => Some rest
      | _ => None
      end
  | None => None
  end.

(** The [re.sub] call with [count=1]: delete the leftmost match of the
    namespace pattern. *)
Fixpoint sub_xmlns (s : string) : string :=
  match match_xmlns s with
  | Some rest => rest
  | None =>
      match s with
      | EmptyString => EmptyString
      | String c s' => String c (sub_xmlns s')
      end
  end.

(** The inner [for i in range(...)] loop of one [S] element: [n] rounds,
    each appending the current time and then adding [int(s.get('d'))]. *)
Fixpoint segment_reference (d : option string) (n : nat) (seg_time_list : list Z)
    (cur_time : Z) : result (list Z * Z) :=
  match n with
  | O => ret (seg_time_list, cur_time)
  | S n' =>
      let seg_time_list := seg_time_list ++ [cur_time] in
      let! dv := int_opt d in
      segment_reference d n' seg_time_list (cur_time + dv)
  end.

(** The loop over [seg_timeline.findall('S')]. *)
Fixpoint timeline_loop (ss : list Element) (seg_time_list : list Z) (cur_time : Z)
    : result (list Z * Z) :=
  match ss with
  | [] => ret (seg_time_list, cur_time)
  | s :: ss' =>
      let! cur_time := (if truthy (get s "t") then int_opt (get s "t") else ret cur_time) in
      let! r := int_or (get s "r") 0 in
      let! (seg_time_list, cur_time) :=
        segment_reference (get s "d") (Z.to_nat (r + 1)) seg_time_list cur_time in
      timeline_loop ss' seg_time_list cur_time
  end.

(** [seg_template.get('media').replace('$Number$', str(n))] *)
Definition media_url (seg_template : Element) (n : Z) : result (option string) :=
  let! media := or_raise AttributeError (get seg_template "media") in
  ret (Some (replace media "$Number$" (str n))).

(** The body of the innermost loop: one [Representation] of one
    [AdaptationSet]. *)
Definition parse_representation (adaptation_set rep : Element) : result AudioTrack :=
  let content_type := get adaptation_set "contentType" in
  if negb (bool_decide (content_type = Some "audio"))
  then raise (ValueError "Only supports audio MPDs!")
  else
    let! codecs := or_raise AttributeError (get rep "codecs") in
    let codec := upper codecs in
    let codec := if startswith codec "MP4A" then "AAC" else codec in
    let! seg_template := or_raise AttributeError (find rep "SegmentTemplate") in
    let track_urls := [get seg_template "initialization"] in
    let! start_number := int_or (get seg_template "startNumber") 1 in
    let! track_urls :=
      match find seg_template "SegmentTimeline" with
      | Some seg_timeline =>
          let! (seg_time_list, _) := timeline_loop (findall seg_timeline "S") [] 0 in
          let seg_num_list :=
            range start_number (Z.of_nat (length seg_time_list) + start_number) in
          let! media_urls := mapM (media_url seg_template) seg_num_list in
          ret (track_urls ++ media_urls)
      | None => ret track_urls
      end in
    let! c := CodecEnum_item codec in
    let! sr := int_or (get rep "audioSamplingRate") 0 in
    let! br := int_or (get rep "bandwidth") 0 in
    ret {| codec := c; sample_rate := sr; bitrate := br; urls := track_urls |}.

(** The (adaptation set, representation) pairs in the order in which the
    three nested loops visit them. *)
Definition representations (root : Element) : list (Element * Element) :=
  period ← findall root "Period";
  adaptation_set ← findall period "AdaptationSet";
  rep ← findall adaptation_set "Representation";
  [(adaptation_set, rep)].

(** The loops of [parse_mpd] over a parsed document. *)
Definition parse_root (root : Element) : result (list AudioTrack) :=
  mapM (λ '(adaptation_set, rep), parse_representation adaptation_set rep)
       (representations root).

Definition parse_mpd (xml : string) : result (list AudioTrack) :=
  let! xml := decode xml in
  let xml := sub_xmlns xml in
  let! root := fromstring xml in
  parse_root root.

End parse.
End Mpd.

(** ** The format resolver: [get_track_info] from the media tags on *)

Module Resolver.

(** [QualityEnum] of [utils.models], as [quality_parse] lists it. *)
Inductive QualityEnum : Type := MINIMUM | LOW | MEDIUM | HIGH | LOSSLESS | HIFI.

(** [SessionType] of [tidal_api]. *)
Inductive SessionType : Type := TV | MOBILE_DEFAULT | MOBILE_ATMOS.

#[global] Instance QualityEnum_eq_dec : EqDecision QualityEnum.
Proof. solve_decision. Defined.
#[global] Instance SessionType_eq_dec : EqDecision SessionType.
Proof. solve_decision. Defined.

(** [session.name] *)
Definition name (s : SessionType) : string :=
  match s with
  | TV => "TV"
  | MOBILE_DEFAULT => "MOBILE_DEFAULT"
  | MOBILE_ATMOS => "MOBILE_ATMOS"
  end.

(** The values of the local variable [format] other than [None]:
    ['flac_hires'], ['360ra'], ['ac4'], ['ac3']. *)
Inductive Format : Type := fmt_flac_hires | fmt_360ra | fmt_ac4 | fmt_ac3.

#[global] Instance Format_eq_dec : EqDecision Format.
Proof. solve_decision. Defined.

(** [CodecOptions] of [utils.models], the two fields that are read. *)
Record CodecOptions : Type := mkCodecOptions {
  spatial_codecs : bool;
  proprietary_codecs : bool;
}.

(** A value of the module settings dictionary. *)
Inductive setting : Type :=
| SBool (b : bool)
| SStr (s : string)
| SInt (n : Z)
| SNone.

Definition _bool_setting (settings : gmap string setting) (key : string)
    (default : bool) : bool :=
  match settings !! key with
  | None => default
  | Some (SBool b) => b
  | Some (SStr v) => in_list (lower (strip v)) ["1"; "true"; "yes"]
  | Some (SInt n) => negb (n =? 0)%Z
  | Some SNone => false
  end.

(** The fields of the [ModuleInterface] object that resolution reads. *)
Record ModuleInterface : Type := mkModuleInterface {
  settings : gmap string setting;
  available_sessions : list string;
}.

(** [__init__], as far as [available_sessions] goes. *)
Definition init (settings : gmap string setting) : ModuleInterface :=
  let available_sessions := [name TV; name MOBILE_DEFAULT; name MOBILE_ATMOS] in
  let available_sessions :=
    if negb (_bool_setting settings "enable_mobile" true)
    then [name TV] else available_sessions in
  {| settings := settings; available_sessions := available_sessions |}.

(** [self.quality_parse] *)
Definition quality_parse (q : QualityEnum) : string :=
  match q with
  | MINIMUM => "LOW"
  | LOW => "LOW"
  | MEDIUM => "HIGH"
  | HIGH => "HIGH"
  | LOSSLESS => "LOSSLESS"
  | HIFI => "HI_RES"
  end.

(** The choice of [format] from the codec options, the tags and the tier. *)
Definition choose_format (self : ModuleInterface) (quality_tier : QualityEnum)
    (codec_options : CodecOptions) (media_tags : list string) : option Format :=
  let format := None in
  let format :=
    if spatial_codecs codec_options then
      if in_list "SONY_360RA" media_tags then Some fmt_360ra
      else if in_list "DOLBY_ATMOS" media_tags then
        if _bool_setting (settings self) "prefer_ac4" false
        then Some fmt_ac4 else Some fmt_ac3
      else format
    else format in
  if in_list "HIRES_LOSSLESS" media_tags && negb (bool_decide (is_Some format))
     && bool_decide (quality_tier = HIFI)
  then Some fmt_flac_hires else format.

(** The session dictionary indexed by [format], and the override for
    Atmos tracks without a format. *)
Definition choose_session (format : option Format) (media_tags : list string)
    : SessionType :=
  let session :=
    match format with
    | Some fmt_flac_hires => MOBILE_DEFAULT
    | Some fmt_360ra => MOBILE_DEFAULT
    | Some fmt_ac4 => MOBILE_ATMOS
    | Some fmt_ac3 => TV
    | None => TV
    end in
  if negb (bool_decide (is_Some format)) && in_list "DOLBY_ATMOS" media_tags
  then MOBILE_DEFAULT else session.

(** The quality string handed to [get_stream_url]. *)
Definition requested_quality (quality_tier : QualityEnum) (format : option Format)
    : string :=
  if negb (bool_decide (format = Some fmt_flac_hires))
  then quality_parse quality_tier else "HI_RES_LOSSLESS".

(** Format, session and quality string together: what [get_track_info]
    has decided when it calls [get_stream_url].  [default] is
    [self.session.default] on entry; the first component is its value
    afterwards. *)
Definition resolve (self : ModuleInterface) (default : SessionType)
    (quality_tier : QualityEnum) (codec_options : CodecOptions)
    (media_tags : list string) : SessionType * string * option Format :=
  let format := choose_format self quality_tier codec_options media_tags in
  let session := choose_session format media_tags in
  let '(default, format) :=
    if in_list (name session) (available_sessions self)
    then (session, format) else (default, None) in
  (default, requested_quality quality_tier format, format).

(** *** The backend and the other collaborators *)

(** The dictionary that [get_stream_url] returns, with the four keys that
    are read. *)
Record StreamData : Type := mkStreamData {
  manifestMimeType : string;
  manifest : string;
  audioQuality : string;
  audioMode : string;
}.

(** A decoded JSON manifest; a key may be missing. *)
Record JsonManifest : Type := mkJsonManifest {
  json_codecs : option string;
  json_urls : option (list string);
}.

(** The value of the local variable [manifest]: the decoded bytes on the
    DASH path, the decoded dictionary otherwise. *)
Inductive manifest_value : Type :=
| manifest_bytes (b : string)
| manifest_dict (m : JsonManifest).

(** What is read from an [MqaIdentifier]. *)
Record MqaFile : Type := mkMqaFile {
  is_mqa : bool;
  mqa_bit_depth : Z;
  mqa_original_sample_rate : Q;
}.

(** The collaborators of resolution: the decoders, the TIDAL API client
    ([self.session.get_stream_url], answering for the session that is the
    default at the time of the call) and the MQA probe. *)
Class Backend : Type := {
  utf8_decode : string → result string;
  fromstring : string → result Element;
  b64decode : string → result string;
  json_loads : string → result JsonManifest;
  session_get_stream_url : SessionType → string → string → result StreamData;
  download_temp_header : string → result string;
  MqaIdentifier : string → result MqaFile;
}.

(** What [self.print] is called with. *)
Inductive message : Type :=
| ProprietaryCodecsDisabled.

(** The mutable state around one resolution: [self.session.default], the
    calls made to [get_stream_url] so far, and the messages printed. *)
Record World : Type := mkWorld {
  default : SessionType;
  requests : list (SessionType * string * string);
  printed : list message;
}.

Definition set_default (s : SessionType) : M World unit :=
  λ w, (inr (), {| default := s; requests := requests w; printed := printed w |}).

Definition print (m : message) : M World unit :=
  λ w, (inr (), {| default := default w; requests := requests w;
                   printed := printed w ++ [m] |}).

Section get_track_info.
Context `{CodecTable} `{Backend}.

Abbreviation AudioTrack := Mpd.AudioTrack.

(** [download_extra_kwargs]: either [{'audio_track': ...}] or
    [{'file_url': ..., 'codec': ...}]. *)
Inductive DownloadArgs : Type :=
| audio_track_args (audio_track : AudioTrack)
| file_url_args (file_url : string) (codec : CodecEnum).

(** The fields of the returned [TrackInfo] that resolution computes; the
    other fields are copied from the catalogue record of the track. *)
Record TrackInfo : Type := mkTrackInfo {
  codec : CodecEnum;
  bit_depth : option Z;
  sample_rate : Q;
  bitrate : option Z;
  download_extra_kwargs : option DownloadArgs;
  error : option string;
}.

Definition parse_mpd (xml : string) : result (list AudioTrack) :=
  Mpd.parse_mpd utf8_decode fromstring xml.

(** [self.session.get_stream_url(track_id, quality)] *)
Definition get_stream_url (track_id quality : string) : M World StreamData :=
  λ w, (session_get_stream_url (default w) track_id quality,
        {| default := default w;
           requests := requests w ++ [(default w, track_id, quality)];
           printed := printed w |}).

(** The [try] around the first [get_stream_url]: a [TidalRequestError]
    becomes the pair ([None], error text); any other exception goes on. *)
Definition try_get_stream_url (track_id quality : string)
    : M World (option StreamData * option string) :=
  λ w, match get_stream_url track_id quality w with
       | (inr stream_data, w') => (inr (Some stream_data, None), w')
       | (inl (TidalRequestError e), w') =>
           let error :=
             if contains "Asset is not ready for playback" e
             then "Track [" +:+ track_id +:+ "] is not available in your region"
             else e in
           (inr (None, Some error), w')
       | (inl e, w') => (inl e, w')
       end.

(** The branch on [manifestMimeType], which appears twice in the source:
    it rebinds [manifest] and [track_codec], and [audio_track] on the
    DASH side only. *)
Definition read_manifest (stream_data : StreamData) (audio_track : option AudioTrack)
    : result (option AudioTrack * manifest_value * CodecEnum) :=
  if bool_decide (manifestMimeType stream_data = "application/dash+xml") then
    let! manifest := b64decode (manifest stream_data) in
    let! tracks := parse_mpd manifest in
    let! audio_track := or_raise IndexError (head tracks) in
    ret (Some audio_track, manifest_bytes manifest, Mpd.codec audio_track)
  else
    let! raw := b64decode (manifest stream_data) in
    let! manifest := json_loads raw in
    let! codecs := or_raise (KeyError "codecs") (json_codecs manifest) in
    let! track_codec :=
      CodecEnum_item (if contains "mp4a" codecs then "AAC" else upper codecs) in
    ret (audio_track, manifest_dict manifest, track_codec).

(** [manifest['urls'][0]] *)
Definition first_url (manifest : manifest_value) : result string :=
  match manifest with
  | manifest_bytes _ => raise TypeError
  | manifest_dict m =>
      let! urls := or_raise (KeyError "urls") (json_urls m) in
      or_raise IndexError (head urls)
  end.

(** The fallback bitrate dictionary. *)
Definition fallback_bitrate (audio_quality : string) : result (option Z) :=
  if bool_decide (audio_quality = "LOW") then ret (Some 96%Z)
  else if bool_decide (audio_quality = "HIGH") then ret (Some 320%Z)
  else if bool_decide (audio_quality = "LOSSLESS") then ret (Some 1411%Z)
  else if bool_decide (audio_quality = "HI_RES") then ret None
  else if bool_decide (audio_quality = "HI_RES_LOSSLESS") then ret None
  else raise (KeyError audio_quality).

(** From the bit depth to the construction of the [TrackInfo]. *)
Definition finish (stream_data : option StreamData) (audio_track : option AudioTrack)
    (mqa_file : option MqaFile) (track_codec : CodecEnum)
    (download_args : option DownloadArgs) (error : option string)
    : result TrackInfo :=
  let hi_res_lossless :=
    match stream_data with
    | Some sd => bool_decide (audioQuality sd = "HI_RES_LOSSLESS")
    | None => false
    end in
  let bit_depth :=
    if bool_decide (track_codec = FLAC) || bool_decide (track_codec = ALAC)
    then Some (if hi_res_lossless then 24%Z else 16%Z) else None in
  let sample_rate :=
    if bool_decide (track_codec = EAC3) || bool_decide (track_codec = MHA1)
       || bool_decide (track_codec = AC4)
    then 48%Q else (441 # 10)%Q in
  let! bitrate :=
    match stream_data with
    | Some sd =>
        let! bitrate := fallback_bitrate (audioQuality sd) in
        if bool_decide (audioMode sd = "DOLBY_ATMOS") then
          if bool_decide (track_codec = EAC3) then ret (Some 768%Z)
          else if bool_decide (track_codec = AC4) then ret (Some 256%Z)
          else ret bitrate
        else if bool_decide (audioMode sd = "SONY_360RA") then ret (Some 667%Z)
        else ret bitrate
    | None => ret None
    end in
  let! (bitrate, sample_rate) :=
    match audio_track with
    | Some t =>
        let bitrate := Some (Mpd.bitrate t / 1000)%Z in
        match stream_data with
        | Some sd =>
            if bool_decide (audioQuality sd = "HI_RES_LOSSLESS")
            then ret (bitrate, (inject_Z (Mpd.sample_rate t) / 1000)%Q)
            else ret (bitrate, sample_rate)
        | None => raise TypeError
        end
    | None => ret (bitrate, sample_rate)
    end in
  let '(bit_depth, sample_rate) :=
    match mqa_file with
    | Some f =>
        if is_mqa f then (Some (mqa_bit_depth f), mqa_original_sample_rate f)
        else (bit_depth, sample_rate)
    | None => (bit_depth, sample_rate)
    end in
  ret {| codec := track_codec; bit_depth := bit_depth; sample_rate := sample_rate;
         bitrate := bitrate; download_extra_kwargs := download_args;
         error := (λ e, "Error: " +:+ e) <$> error |}.

(** The [if audio_track: ... else: ...] block: the download arguments,
    and the MQA probe of a single-URL MQA stream when [fix_mqa] is on. *)
Definition download_arguments (self : ModuleInterface)
    (audio_track : option AudioTrack) (manifest : manifest_value)
    (track_codec : CodecEnum) : result (option MqaFile * DownloadArgs) :=
  match audio_track with
  | Some t => ret (None, audio_track_args t)
  | None =>
      let! mqa_file :=
        (if bool_decide (track_codec = MQA)
            && _bool_setting (settings self) "fix_mqa" true
         then
           let! url := first_url manifest in
           let! temp_file_path := download_temp_header url in
           let! mqa_file := MqaIdentifier temp_file_path in
           ret (Some mqa_file)
         else ret None) in
      let! url := first_url manifest in
      ret (mqa_file, file_url_args url track_codec)
  end.

(** Everything after the fallback, for a stream that was obtained. *)
Definition build (self : ModuleInterface) (stream_data : StreamData)
    (audio_track : option AudioTrack) (manifest : manifest_value)
    (track_codec : CodecEnum) (error : option string) : result TrackInfo :=
  let! (mqa_file, download_args) :=
    download_arguments self audio_track manifest track_codec in
  finish (Some stream_data) audio_track mqa_file track_codec (Some download_args) error.

(** Whether the fallback applies to the codec of the first manifest. *)
Definition withheld (codec_options : CodecOptions) (track_codec : CodecEnum) : bool :=
  negb (codec_spatial track_codec)
  && (negb (proprietary_codecs codec_options) && codec_proprietary track_codec).

(** The second half of [get_track_info]: the request for the stream,
    the reading of the manifest, the proprietary-codec fallback and the
    construction of the [TrackInfo].  [quality] is the quality string of
    the first request. *)
Definition stream_and_build (self : ModuleInterface) (track_id : string)
    (codec_options : CodecOptions) (quality : string) : M World TrackInfo :=
  let track_codec := FLAC in
  let* (stream_data, error) := try_get_stream_url track_id quality in
  match stream_data with
  | Some stream_data =>
      let* (audio_track, manifest, track_codec) :=
        lift (read_manifest stream_data None) in
      let* (stream_data, audio_track, manifest, track_codec) :=
        (if withheld codec_options track_codec then
           let* _ := print ProprietaryCodecsDisabled in
           let* stream_data := get_stream_url track_id "LOSSLESS" in
           let* (audio_track, manifest, track_codec) :=
             lift (read_manifest stream_data audio_track) in
           retM (stream_data, audio_track, manifest, track_codec)
         else retM (stream_data, audio_track, manifest, track_codec)) in
      lift (build self stream_data audio_track manifest track_codec error)
  | None => lift (finish None None None track_codec None error)
  end.

(** [get_track_info], from the line that reads the media tags: the
    choice of format and session, the switch of the default session
    when the chosen one is available, then the second half. *)
Definition get_track_info (self : ModuleInterface) (track_id : string)
    (quality_tier : QualityEnum) (codec_options : CodecOptions)
    (media_tags : list string) : M World TrackInfo :=
  let format := choose_format self quality_tier codec_options media_tags in
  let session := choose_session format media_tags in
  let* format :=
    (if in_list (name session) (available_sessions self)
     then let* _ := set_default session in retM format
     else retM None) in
  stream_and_build self track_id codec_options (requested_quality quality_tier format).

End get_track_info.

End Resolver.

(** ** The segment fetcher and assembler: [get_track_download] *)

Module Assembler.

(** [DownloadEnum] of [utils.models], the two members that are used. *)
Inductive DownloadEnum : Type := URL | TEMP_FILE_PATH.

(** A temporary file location: the number that [create_temp_filename]
    drew and the extension appended to it. *)
Abbreviation location := (nat * string)%type.

Record TrackDownloadInfo : Type := mkTrackDownloadInfo {
  download_type : DownloadEnum;
  file_url : option string;
  temp_file_path : option location;
}.

(** The temporary directory (location to content), the next number that
    [create_temp_filename] will draw, and the warnings printed. *)
Record Disk : Type := mkDisk {
  files : gmap location string;
  next_temp : nat;
  warnings : list string;
}.

(** The collaborators: the HTTP download behind [download_to_temp], and
    the ffmpeg run, which gets the content of its input and the output
    location and either raises (also when ffmpeg cannot be imported or
    started) or produces the content of the output. *)
Class Tools : Type := {
  http_get : string → result string;
  ffmpeg_run : string → location → result string;
}.

Section get_track_download.
Context `{CodecTable} `{Tools}.

Definition create_temp_filename : M Disk nat :=
  λ d, (inr (next_temp d),
        {| files := files d; next_temp := S (next_temp d); warnings := warnings d |}).

Definition write_file (l : location) (content : string) : M Disk unit :=
  λ d, (inr (), {| files := <[l := content]> (files d); next_temp := next_temp d;
                   warnings := warnings d |}).

Definition read_file (l : location) : M Disk string :=
  λ d, (or_raise (RequestException "No such file") (files d !! l), d).

(** [silentremove]: delete the file if it is there. *)
Definition silentremove (l : location) : M Disk unit :=
  λ d, (inr (), {| files := delete l (files d); next_temp := next_temp d;
                   warnings := warnings d |}).

Definition print (msg : string) : M Disk unit :=
  λ d, (inr (), {| files := files d; next_temp := next_temp d;
                   warnings := warnings d ++ [msg] |}).

(** [download_to_temp(url, extension=...)]: fetch the URL into a fresh
    temporary file and return its location. *)
Definition download_to_temp (url : option string) (extension : string)
    : M Disk location :=
  let* url := lift (or_raise TypeError url) in
  let* body := lift (http_get url) in
  let* n := create_temp_filename in
  let* _ := write_file (n, extension) body in
  retM (n, extension).

(** The [with open(merged_temp_location, 'wb')] block: the segment files
    copied one after the other. *)
Fixpoint concatenate (temp_locations : list location) : M Disk string :=
  match temp_locations with
  | [] => retM ""
  | l :: ls =>
      let* segment := read_file l in
      let* rest := concatenate ls in
      retM (segment +:+ rest)
  end.

(** The body of the [try]: the remux, then the removal of the merged
    file and of the segment files. *)
Definition remux_and_clean (merged_temp_location output_location : location)
    (temp_locations : list location) : M Disk unit :=
  let* merged := read_file merged_temp_location in
  let* output := lift (ffmpeg_run merged output_location) in
  let* _ := write_file output_location output in
  let* _ := silentremove merged_temp_location in
  let* _ := forM temp_locations silentremove in
  retM ().

(** [try: body except Exception: handler] *)
Definition try_except {A} (body handler : M Disk A) : M Disk A :=
  λ d, match body d with
       | (inr a, d') => (inr a, d')
       | (inl _, d') => handler d'
       end.

Definition get_track_download (file_url : option string)
    (audio_track : option Mpd.AudioTrack) : M Disk TrackDownloadInfo :=
  if truthy file_url then
    retM {| download_type := URL; file_url := file_url; temp_file_path := None |}
  else
    let* audio_track := lift (or_raise AttributeError audio_track) in
    let* temp_locations :=
      forM (Mpd.urls audio_track) (λ download_url, download_to_temp download_url "mp4") in
    let* n := create_temp_filename in
    let merged_temp_location := (n, "mp4") in
    let* n := create_temp_filename in
    let output_location := (n, codec_container (Mpd.codec audio_track)) in
    let* merged := concatenate temp_locations in
    let* _ := write_file merged_temp_location merged in
    try_except
      (let* _ := remux_and_clean merged_temp_location output_location temp_locations in
       retM {| download_type := TEMP_FILE_PATH; file_url := None;
               temp_file_path := Some output_location |})
      (let* _ := print "FFmpeg is not installed or working! Using fallback, may have errors" in
       retM {| download_type := TEMP_FILE_PATH; file_url := None;
               temp_file_path := Some merged_temp_location |}).

End get_track_download.

End Assembler.

(** ** The segment timeline as the specification describes it *)

Module TimelineSpec.

(** A timeline entry: an optional explicit start time, a repeat count and
    a duration. *)
Record entry : Type := mkEntry {
  start_time : option Z;
  repeat_count : Z;
  duration : Z;
}.

(** The attributes [t], [r] and [d] of an [S] element read as an entry: an
    absent or empty [t] is no explicit start time, an absent or empty [r]
    is a repeat count of zero. *)
Definition read_entry (s : Element) : result entry :=
  let! t := (if truthy (get s "t") then
               let! t := int_opt (get s "t") in ret (Some t)
             else ret None) in
  let! r := int_or (get s "r") 0 in
  let! d := int_opt (get s "d") in
  ret {| start_time := t; repeat_count := r; duration := d |}.

(** Number of segments of an entry: one more than its repeat count. *)
Definition segments_of (e : entry) : nat := Z.to_nat (repeat_count e + 1).

(** Number of media segments of a timeline, repeats expanded. *)
Definition segment_count (es : list entry) : nat := sum_list (segments_of <$> es).

(** Start times of the segments of a timeline that begins at [prev_end]:
    an entry starts at its explicit start time, or where the previous
    entry ended, and each of its segments advances the time by the
    duration. *)
Fixpoint segment_times (es : list entry) (prev_end : Z) : list Z :=
  match es with
  | [] => []
  | e :: es' =>
      let start := default prev_end (start_time e) in
      ((λ k : nat, start + Z.of_nat k * duration e)%Z <$> seq 0 (segments_of e))
        ++ segment_times es' (start + Z.of_nat (segments_of e) * duration e)%Z
  end.

(** The URL list that the specification promises for a template: the
    initialization URL, then the media template with the segment numbers
    from the start number on, one per segment. *)
Definition segment_urls (initialization media : string) (start_number : Z)
    (es : list entry) : list (option string) :=
  Some initialization ::
  ((λ n, Some (replace media "$Number$" (str n))) <$>
     seqZ start_number (Z.of_nat (segment_count es))).

End TimelineSpec.

(** ** Well-formed audio representations *)

Module ManifestSpec.
Section well_formed.
Context `{CodecTable}.
Import TimelineSpec.

(** What a representation declares: codec, rates, the two URL templates,
    the start number and the timeline. *)
Record declaration : Type := mkDeclaration {
  d_codec : CodecEnum;
  d_sample_rate : Z;
  d_bitrate : Z;
  d_initialization : string;
  d_media : string;
  d_start_number : Z;
  d_entries : list entry;
}.

(** The codec name under which a DASH [codecs] attribute is looked up. *)
Definition dash_codec_name (codecs : string) : string :=
  if startswith (upper codecs) "MP4A" then "AAC" else upper codecs.

(** The codec name under which the [codecs] of a JSON manifest is looked
    up. *)
Definition json_codec_name (codecs : string) : string :=
  if contains "mp4a" codecs then "AAC" else upper codecs.

(** A representation of an audio adaptation set is well formed when it
    names a known codec, its rates (if given) are numbers, and it has a
    segment template with both URL templates, a numeric start number (if
    given) and either no timeline, which declares no entries, or a timeline
    whose entries have numeric attributes and repeat counts from zero up. *)
Record well_formed (adaptation_set rep : Element) (x : declaration) : Prop := {
  wf_audio : get adaptation_set "contentType" = Some "audio";
  wf_codec : ∃ codecs,
    get rep "codecs" = Some codecs ∧
    CodecEnum_getitem (dash_codec_name codecs) = Some (d_codec x);
  wf_sample_rate : int_or (get rep "audioSamplingRate") 0 = inr (d_sample_rate x);
  wf_bitrate : int_or (get rep "bandwidth") 0 = inr (d_bitrate x);
  wf_template : ∃ seg_template,
    find rep "SegmentTemplate" = Some seg_template ∧
    get seg_template "initialization" = Some (d_initialization x) ∧
    get seg_template "media" = Some (d_media x) ∧
    int_or (get seg_template "startNumber") 1 = inr (d_start_number x) ∧
    match find seg_template "SegmentTimeline" with
    | Some seg_timeline =>
        Forall2 (λ s e, read_entry s = inr e ∧ (0 ≤ repeat_count e)%Z)
                (findall seg_timeline "S") (d_entries x)
    | None => d_entries x = []
    end;
}.

(** The adaptation sets of a document, and those declared as audio. *)
Definition adaptation_sets (root : Element) : list Element :=
  period ← findall root "Period";
  findall period "AdaptationSet".

Definition is_audio (adaptation_set : Element) : bool :=
  bool_decide (get adaptation_set "contentType" = Some "audio").

Definition audio_adaptation_sets (root : Element) : list Element :=
  List.filter is_audio (adaptation_sets root).

(** The rendition that the specification promises for a declaration. *)
Definition rendition (x : declaration) : Mpd.AudioTrack :=
  {| Mpd.codec := d_codec x;
     Mpd.sample_rate := d_sample_rate x;
     Mpd.bitrate := d_bitrate x;
     Mpd.urls := segment_urls (d_initialization x) (d_media x) (d_start_number x)
                              (d_entries x) |}.

End well_formed.
End ManifestSpec.

(** ** A concrete deployment, to run the code on examples *)

Module Example.
Import Resolver Assembler.

(** The codecs that [interface.py] names, with MQA as the proprietary
    stereo codec and the Dolby and MPEG-H codecs as the spatial ones. *)
Inductive codec : Type := cFLAC | cALAC | cMQA | cAAC | cEAC3 | cMHA1 | cAC4.

#[global] Instance codec_eq_dec : EqDecision codec.
Proof. solve_decision. Defined.

Definition codec_names : list (string * codec) :=
  [("FLAC", cFLAC); ("ALAC", cALAC); ("MQA", cMQA); ("AAC", cAAC);
   ("EAC3", cEAC3); ("MHA1", cMHA1); ("AC4", cAC4)].

#[global] Instance codecs : CodecTable := {|
  CodecEnum := codec;
  CodecEnum_getitem n := snd <$> List.find (λ p, String.eqb n p.1) codec_names;
  FLAC := cFLAC; ALAC := cALAC; MQA := cMQA; EAC3 := cEAC3; MHA1 := cMHA1; AC4 := cAC4;
  codec_spatial c := match c with cEAC3 | cMHA1 | cAC4 => true | _ => false end;
  codec_proprietary c := match c with cMQA | cEAC3 | cAC4 => true | _ => false end;
  codec_container c := match c with cFLAC | cMQA => "flac" | _ => "m4a" end;
|}.

(** Scenario D: one representation whose template starts at 1 and whose
    timeline is the single entry t=0, d=1000, r=2. *)
Definition scenario_d_template : Element :=
  Elem "SegmentTemplate"
    [("initialization", "https://x/init.mp4"); ("media", "https://x/$Number$.mp4");
     ("startNumber", "1")]
    [Elem "SegmentTimeline" [] [Elem "S" [("t", "0"); ("d", "1000"); ("r", "2")] []]].

Definition scenario_d_representation : Element :=
  Elem "Representation"
    [("id", "0"); ("codecs", "flac"); ("bandwidth", "1411000");
     ("audioSamplingRate", "44100")]
    [scenario_d_template].

Definition scenario_d_adaptation_set : Element :=
  Elem "AdaptationSet" [("contentType", "audio")] [scenario_d_representation].

Definition scenario_d_root : Element :=
  Elem "MPD" [] [Elem "Period" [] [scenario_d_adaptation_set]].

Definition scenario_d_declaration : ManifestSpec.declaration :=
  {| ManifestSpec.d_codec := cFLAC;
     ManifestSpec.d_sample_rate := 44100;
     ManifestSpec.d_bitrate := 1411000;
     ManifestSpec.d_initialization := "https://x/init.mp4";
     ManifestSpec.d_media := "https://x/$Number$.mp4";
     ManifestSpec.d_start_number := 1;
     ManifestSpec.d_entries :=
       [{| TimelineSpec.start_time := Some 0%Z; TimelineSpec.repeat_count := 2;
           TimelineSpec.duration := 1000 |}] |}.

(** A document whose only period has no adaptation set at all. *)
Definition empty_period_root : Element := Elem "MPD" [] [Elem "Period" [] []].

(** A document whose only adaptation set is a video one without any
    representation. *)
Definition video_without_representation_root : Element :=
  Elem "MPD" [] [Elem "Period" [] [Elem "AdaptationSet" [("contentType", "video")] []]].

(** A document whose only adaptation set is a video one with a
    representation. *)
Definition video_root : Element :=
  Elem "MPD" []
    [Elem "Period" []
       [Elem "AdaptationSet" [("contentType", "video")]
          [Elem "Representation" [("codecs", "avc1")] []]]].

(** An XML parser that knows the example documents by name. *)
Definition documents : list (string * Element) :=
  [("scenario-d", scenario_d_root);
   ("empty-period", empty_period_root);
   ("video-without-representation", video_without_representation_root);
   ("video", video_root)].

Definition parse_document (text : string) : result Element :=
  or_raise ParseError (snd <$> List.find (λ p, String.eqb text p.1) documents).

(** The JSON manifests of the examples, by payload name: the manifest of
    scenario C and a single-URL lossless one. *)
Definition json_documents : list (string * JsonManifest) :=
  [("scenario-c", {| json_codecs := Some "mp4a.40.2";
                     json_urls := Some ["http://x/a.m4a"] |});
   ("json-flac", {| json_codecs := Some "flac";
                    json_urls := Some ["http://x/a.flac"] |})].

(** A segmented manifest whose representation declares the MQA codec. *)
Definition dash_mqa_root : Element :=
  Elem "MPD" []
    [Elem "Period" []
       [Elem "AdaptationSet" [("contentType", "audio")]
          [Elem "Representation" [("codecs", "mqa"); ("bandwidth", "2000000")]
             [Elem "SegmentTemplate"
                [("initialization", "https://x/mqa/init.mp4");
                 ("media", "https://x/mqa/$Number$.mp4")]
                [Elem "SegmentTimeline" [] [Elem "S" [("d", "4000"); ("r", "1")] []]]]]]].

(** A backend given by its answers to [get_stream_url]; payloads are
    names of example documents, so the base64 and UTF-8 decoders have
    nothing to do. *)
Definition backend_of (answer : SessionType → string → string → result StreamData)
    : Backend :=
  {| utf8_decode := inr;
     fromstring text :=
       or_raise ParseError
         (snd <$> List.find (λ p, String.eqb text p.1)
                    (("dash-mqa", dash_mqa_root) :: documents));
     b64decode := inr;
     json_loads text :=
       or_raise (ValueError "Expecting value")
         (snd <$> List.find (λ p, String.eqb text p.1) json_documents);
     session_get_stream_url := answer;
     download_temp_header _ := inr "header.flac";
     MqaIdentifier _ :=
       inr {| is_mqa := false; mqa_bit_depth := 16; mqa_original_sample_rate := 44100 |} |}.

(** Every request is answered with the JSON manifest of scenario C. *)
Definition scenario_c_backend : Backend :=
  backend_of (λ _ _ quality,
    inr {| manifestMimeType := "application/vnd.tidal.bts"; manifest := "scenario-c";
           audioQuality := quality; audioMode := "STEREO" |}).

(** Every request is refused as region locked. *)
Definition region_locked_backend : Backend :=
  backend_of (λ _ _ _, inl (TidalRequestError "Asset is not ready for playback")).

(** The MQA stream comes segmented, the lossless stream as a single URL. *)
Definition mixed_backend : Backend :=
  backend_of (λ _ _ quality,
    if String.eqb quality "HI_RES" then
      inr {| manifestMimeType := "application/dash+xml"; manifest := "dash-mqa";
             audioQuality := "HI_RES"; audioMode := "STEREO" |}
    else
      inr {| manifestMimeType := "application/vnd.tidal.bts"; manifest := "json-flac";
             audioQuality := "LOSSLESS"; audioMode := "STEREO" |}).

(** Settings: the defaults, and a deployment without mobile sessions, with
    and without the preference for AC-4. *)
Definition default_settings : gmap string setting := ∅.
Definition tv_only_settings : gmap string setting := {["enable_mobile" := SBool false]}.
Definition tv_only_ac4_settings : gmap string setting :=
  <["prefer_ac4" := SBool true]> tv_only_settings.

(** Codec options: everything allowed, and neither spatial nor
    proprietary codecs allowed. *)
Definition all_codecs : CodecOptions :=
  {| spatial_codecs := true; proprietary_codecs := true |}.
Definition open_codecs_only : CodecOptions :=
  {| spatial_codecs := false; proprietary_codecs := false |}.

Definition fresh_world : World := {| default := TV; requests := []; printed := [] |}.

(** Downloads always succeed; ffmpeg either copies its input or is not
    installed. *)
Definition working_tools : Tools :=
  {| http_get url := inr ("<" +:+ url +:+ ">");
     ffmpeg_run merged _ := inr merged |}.
Definition broken_tools : Tools :=
  {| http_get url := inr ("<" +:+ url +:+ ">");
     ffmpeg_run _ _ := inl (RequestException "ffmpeg not found") |}.

Definition empty_disk : Disk := {| files := ∅; next_temp := 0; warnings := [] |}.

End Example.

(** ** Further definitions *)

(** The exceptions that reading a number can raise. *)
Definition number_error (e : exn) : Prop :=
  e = ValueError "invalid literal for int() with base 10" ∨ e = TypeError.

(** ** Pre- and postconditions of stateful code *)

Module Hoare.

(** Run from a state that satisfies [P], the code ends, with a value or
    an exception, in a state that satisfies [Q]. *)
Definition triple {W A} (P : W → Prop) (m : M W A) (Q : result A → W → Prop) : Prop :=
  ∀ w, P w → Q (m w).1 (m w).2.

End Hoare.

(** ** The temporary directory around a call *)

Module DiskSpec.
Import Assembler.


End DiskSpec.

(** ** Further deployments and inputs for the examples *)

Module Cases.
Import Resolver Assembler.

(** Every request is answered with the JSON manifest of scenario C, under
    an audio quality that the bitrate table does not know. *)
Definition unlisted_quality_backend : Backend :=
  Example.backend_of (λ _ _ _,
    inr {| manifestMimeType := "application/vnd.tidal.bts"; manifest := "scenario-c";
           audioQuality := "HI_RES_MAX"; audioMode := "STEREO" |}).



End Cases.

(** ** Cover artwork: [_generate_artwork_url] and its callers *)

Module Artwork.

(** [min(l, key=key)] after its first element: the first element whose
    key is least wins. *)
Fixpoint min_from {A} (key : A → Z) (best : A) (l : list A) : A :=
  match l with
  | [] => best
  | x :: l' => min_from key (if (key x <? key best)%Z then x else best) l'
  end.

Definition min_key {A} (l : list A) (key : A → Z) : result A :=
  match l with
  | [] => raise (ValueError "min() arg is an empty sequence")
  | x :: l' => ret (min_from key x l')
  end.

Definition supported_sizes : list Z := [80; 160; 320; 480; 640; 1080; 1280; 1281]%Z.

Definition _generate_artwork_url (cover_id : string) (size max_size : Z) : result string :=
  let! best_size := min_key supported_sizes (λ x, Z.abs (x - size)) in
  let image_name :=
    if (best_size <=? max_size)%Z
    then str best_size +:+ "x" +:+ str best_size +:+ ".jpg"
    else "origin.jpg" in
  ret ("https://resources.tidal.com/images/" +:+ replace cover_id "-" "/" +:+ "/"
       +:+ image_name).

Definition _generate_animated_artwork_url (cover_id : string) (size : Z) : string :=
  "https://resources.tidal.com/videos/" +:+ replace cover_id "-" "/" +:+ "/"
  +:+ str size +:+ "x" +:+ str size +:+ ".mp4".

(** [ImageFileTypeEnum] and [CoverInfo] of [utils.models]. *)
Inductive ImageFileTypeEnum : Type := jpg | png.

Record CoverInfo : Type := mkCoverInfo {
  url : string;
  file_type : ImageFileTypeEnum;
}.

(** A track record of the API, as far as the cover goes: the key [album]
    may be missing, and so may the key [cover] of the album. *)
Record AlbumData : Type := mkAlbumData {
  cover : option string;
}.

Record TrackData : Type := mkTrackData {
  album : option AlbumData;
}.

Section get_track_cover.
(** [self.session.get_track] *)
Variable get_track : string → result TrackData.

(** [resolution] is [cover_options.resolution]. *)
Definition get_track_cover (track_id : string) (resolution : Z)
    (data : gmap string TrackData) : result CoverInfo :=
  let! track_data :=
    match data !! track_id with
    | Some track_data => ret track_data
    | None => get_track track_id
    end in
  let! album := or_raise (KeyError "album") (album track_data) in
  let cover_id := cover album in
  if truthy cover_id then
    let! url := _generate_artwork_url (default "" cover_id) resolution 1280 in
    ret {| url := url; file_type := jpg |}
  else
    ret {| url := "https://tidal.com/browse/assets/images/defaultImages/defaultTrackImage.png";
           file_type := png |}.

End get_track_cover.

End Artwork.

(** ** Cover sizes as a table *)

Module ArtworkSpec.

(** The supported size that a requested size is served with. *)
Definition served_size (size : Z) : Z :=
  if (size <=? 120)%Z then 80
  else if (size <=? 240)%Z then 160
  else if (size <=? 400)%Z then 320
  else if (size <=? 560)%Z then 480
  else if (size <=? 860)%Z then 640
  else if (size <=? 1180)%Z then 1080
  else if (size <=? 1280)%Z then 1280
  else 1281.

(** A cover id with every dash turned into a slash. *)
Fixpoint slashes (cover_id : string) : string :=
  match cover_id with
  | EmptyString => EmptyString
  | String c s => String (if Ascii.eqb c "-" then "/"%char else c) (slashes s)
  end.

End ArtworkSpec.

(** ** The preview: [get_preview_stream_url] *)

Module Preview.
Import Resolver Assembler.

(** A file that the preview code writes, returns or removes: a temporary
    file of [download_to_temp], or the preview file of a track, whose name
    in the temporary directory is built from the track id. *)
Inductive path : Type :=
| temp_file (l : location)
| preview_file (track_id : string).

(** The API session, the temporary files, and the preview files by track
    id. *)
Record Env : Type := mkEnv {
  world : World;
  disk : Disk;
  previews : gmap string string;
}.

Definition on_world {A} (m : M World A) : M Env A :=
  λ s, let '(r, w) := m (world s) in
       (r, {| world := w; disk := disk s; previews := previews s |}).

Definition on_disk {A} (m : M Disk A) : M Env A :=
  λ s, let '(r, d) := m (disk s) in
       (r, {| world := world s; disk := d; previews := previews s |}).

(** The content of a file, if it exists. *)
Definition content (p : path) (s : Env) : option string :=
  match p with
  | temp_file l => files (disk s) !! l
  | preview_file track_id => previews s !! track_id
  end.

(** [os.path.exists(p) and os.path.getsize(p) > 0] *)
Definition exists_and_not_empty (p : path) : M Env bool :=
  λ s, (inr match content p s with
            | Some c => negb (String.eqb c "")
            | None => false
            end, s).

(** [silentremove(p)] *)
Definition remove (p : path) : M Env unit :=
  match p with
  | temp_file l => on_disk (silentremove l)
  | preview_file track_id =>
      λ s, (inr (), {| world := world s; disk := disk s;
                       previews := delete track_id (previews s) |})
  end.

(** [open(preview_path, 'wb')]: the file is created or emptied. *)
Definition open_preview (track_id : string) : M Env unit :=
  λ s, (inr (), {| world := world s; disk := disk s;
                   previews := <[track_id := ""]> (previews s) |}).

(** [out.write(data)] *)
Definition write_preview (track_id data : string) : M Env unit :=
  λ s, (inr (), {| world := world s; disk := disk s;
                   previews := <[track_id := option.default "" (previews s !! track_id) +:+ data]>
                                 (previews s) |}).

(** [try: body except Exception: return None] *)
Definition or_none {A} (body : M Env (option A)) : M Env (option A) :=
  λ s, match body s with
       | (inl _, s') => (inr None, s')
       | (inr a, s') => (inr a, s')
       end.

Section get_preview_stream_url.
Context `{CodecTable} `{Backend} `{Tools}.

(** The [for i in range(1 + num_media)] loop of the inner [try].
    [segment_paths] is the list built so far; the loop hands it back beside
    its outcome, because the [finally] block reads it after a failed
    download as well. *)
Fixpoint download_segments (urls : list (option string)) (indices : list Z)
    (segment_paths : list location) : Env → (result unit * list location) * Env :=
  match indices with
  | [] => λ s, ((inr (), segment_paths), s)
  | i :: indices' =>
      λ s, match (let* url := lift (or_raise IndexError (urls !! Z.to_nat i)) in
                  on_disk (download_to_temp url "mp4")) s with
           | (inl e, s') => ((inl e, segment_paths), s')
           | (inr seg_path, s') =>
               download_segments urls indices' (segment_paths ++ [seg_path]) s'
           end
  end.

(** The inner [try ... finally]: the downloads, then the preview file
    written from the segment files; in every case the segment files are
    removed afterwards. *)
Definition build_preview (track_id : string) (urls : list (option string))
    (num_media : Z) : M Env path :=
  λ s,
    let '((outcome, segment_paths), s) :=
      download_segments urls (range 0 (1 + num_media)) [] s in
    let '(outcome, s) :=
      match outcome with
      | inl e => (inl e, s)
      | inr _ =>
          (let* _ := open_preview track_id in
           let* _ := forM segment_paths (λ p,
                       let* data := on_disk (read_file p) in
                       write_preview track_id data) in
           retM (preview_file track_id)) s
      end in
    match on_disk (forM segment_paths silentremove) s with
    | (inl e, s) => (inl e, s)
    | (inr _, s) => (outcome, s)
    end.

(** The tail that both branches share: return the path if the file is
    there and not empty, otherwise remove it and return [None]. *)
Definition return_if_usable (preview_path : path) : M Env (option path) :=
  let* ok := exists_and_not_empty preview_path in
  if ok : bool then retM (Some preview_path)
  else
    let* _ := remove preview_path in
    retM None.

Definition dash_preview (track_id : string) (stream_data : StreamData)
    : M Env (option path) :=
  let* manifest := lift (b64decode (manifest stream_data)) in
  let* audio_tracks := lift (parse_mpd manifest) in
  match audio_tracks with
  | [] => retM None
  | audio_track :: _ =>
      let urls := Mpd.urls audio_track in
      if bool_decide (urls = []) then retM None
      else
        let num_media := Z.min 10 (Z.max 0 (Z.of_nat (length urls) - 1)) in
        if (num_media =? 0)%Z then retM None
        else
          let* preview_path := build_preview track_id urls num_media in
          return_if_usable preview_path
  end.

Definition json_preview (stream_data : StreamData) : M Env (option path) :=
  let* raw := lift (b64decode (manifest stream_data)) in
  let* manifest := lift (json_loads raw) in
  let urls := option.default [] (json_urls manifest) in
  match urls with
  | [] => retM None
  | url :: _ =>
      let* l := on_disk (download_to_temp (Some url) "m4a") in
      return_if_usable (temp_file l)
  end.

Definition get_preview_stream_url (track_id : string) : M Env (option path) :=
  or_none
    (let* stream_data := on_world (get_stream_url track_id "LOW") in
     if bool_decide (manifestMimeType stream_data = "application/dash+xml")
     then or_none (dash_preview track_id stream_data)
     else or_none (json_preview stream_data)).

End get_preview_stream_url.

End Preview.

Module PreviewSpec.
Import Resolver Assembler Preview.

(** No file carries a number that [create_temp_filename] has yet to
    draw. *)
Definition fresh (d : Disk) : Prop :=
  ∀ l : location, (next_temp d ≤ l.1)%nat → files d !! l = None.

(** What a preview attempt for [track_id] that started in [s] may have
    done when it ends in [s'] with [result]. *)
Definition attempt (track_id : string) (s : Env) (result : option path) (s' : Env)
    : Prop :=
  world s' = world s ∧
  warnings (disk s') = warnings (disk s) ∧
  (next_temp (disk s) ≤ next_temp (disk s') ≤ next_temp (disk s) + 11)%nat ∧
  (∀ t, t ≠ track_id → previews s' !! t = previews s !! t) ∧
  (∀ p, result = Some p →
     (∃ c, content p s' = Some c ∧ c ≠ "") ∧
     (p = preview_file track_id ∨
      ∃ n, p = temp_file (n, "m4a") ∧ (next_temp (disk s) ≤ n)%nat)) ∧
  (fresh (disk s) →
   ∀ l, result ≠ Some (temp_file l) → files (disk s') !! l = files (disk s) !! l).

End PreviewSpec.
(** Inputs for the preview examples. *)
Module PreviewCases.
Import Resolver Assembler Preview.


Definition start : Env :=
  {| world := Example.fresh_world; disk := Example.empty_disk; previews := ∅ |}.

End PreviewCases.

(** ** Credits: [get_track_credits] *)

Module Credits.

(** A Python [dict] where the order of the keys matters: the pairs in
    insertion order, without repeated keys. *)
Section dict.
Context {K V : Type} `{EqDecision K}.

(** [d.get(k)] *)
Fixpoint dict_get (d : list (K * V)) (k : K) : option V :=
  match d with
  | [] => None
  | (k', v) :: d' => if decide (k = k') then Some v else dict_get d' k
  end.

(** [d[k] = v]: a key that is there keeps its place, a new key goes to
    the end. *)
Fixpoint dict_set (d : list (K * V)) (k : K) (v : V) : list (K * V) :=
  match d with
  | [] => [(k, v)]
  | (k', v') :: d' =>
      if decide (k = k') then (k, v) :: d' else (k', v') :: dict_set d' k v
  end.

End dict.

(** A [for] loop that updates one variable. *)
Fixpoint foldM {A B} (f : B → A → result B) (b : B) (l : list A) : result B :=
  match l with
  | [] => ret b
  | a :: l' => let! b' := f b a in foldM f b' l'
  end.

(** An item of the contributors answer of the API: [role] and [name]. *)
Record Contributor : Type := mkContributor {
  role : option string;
  name : option string;
}.

(** The answer of [get_track_contributors]; the key [items] may be
    missing. *)
Record ContributorsPage : Type := mkContributorsPage {
  items : option (list Contributor);
}.

(** An entry of the cached credits of a track: [type], and under
    [contributors] the list whose names are read. *)
Record CreditGroup : Type := mkCreditGroup {
  type : option string;
  contributors : option (list (option string));
}.

(** [CreditsInfo] of [utils.models]. *)
Record CreditsInfo : Type := mkCreditsInfo {
  sanitised_type : string;
  names : list (option string);
}.

Section get_track_credits.
(** [sanitise_name] of [utils.utils] and [self.session.get_track_contributors]. *)
Variable sanitise_name : option string → result string.
Variable get_track_contributors : string → result ContributorsPage.

(** The body of the loop over the cached entries. *)
Definition add_group (credits_dict : list (option string * list (option string)))
    (contributor : CreditGroup) : result (list (option string * list (option string))) :=
  let! names := or_raise TypeError (contributors contributor) in
  ret (dict_set credits_dict (type contributor) names).

(** The body of the loop over the items of the API answer. *)
Definition add_contributor (credits_dict : list (option string * list (option string)))
    (contributor : Contributor) : result (list (option string * list (option string))) :=
  let credits_dict :=
    if dict_get credits_dict (role contributor) is None
    then dict_set credits_dict (role contributor) []
    else credits_dict in
  let! names := or_raise (KeyError "role") (dict_get credits_dict (role contributor)) in
  ret (dict_set credits_dict (role contributor) (names ++ [name contributor])).

Definition get_track_credits (track_id : string) (data : gmap string (list CreditGroup))
    : result (option (list CreditsInfo)) :=
  let! credits_dict :=
    match data !! track_id with
    | Some track_contributors => foldM add_group [] track_contributors
    | None =>
        let! page := get_track_contributors track_id in
        let! track_contributors := or_raise TypeError (items page) in
        if (0 <? length track_contributors)%nat
        then foldM add_contributor [] track_contributors
        else ret []
    end in
  if (0 <? length credits_dict)%nat then
    let! credits :=
      mapM (λ kv, let! k := sanitise_name kv.1 in
                  ret {| sanitised_type := k; names := kv.2 |}) credits_dict in
    ret (Some credits)
  else ret None.

End get_track_credits.

End Credits.

(** ** Credits grouped by role *)

Module CreditsSpec.
Import Credits.

(** The keys of a list of entries in the order in which they first
    appear. *)
Fixpoint first_keys {A} (key : A → option string) (l : list A) : list (option string) :=
  match l with
  | [] => []
  | a :: rest => key a :: filter (λ k, k ≠ key a) (first_keys key rest)
  end.

(** The roles in the order in which they first appear. *)
Definition roles_in_order (items : list Contributor) : list (option string) :=
  first_keys role items.

(** The names credited with a role, in the order of the items. *)
Definition names_of (k : option string) (items : list Contributor) : list (option string) :=
  name <$> filter (λ c, role c = k) items.

(** The types of the cached entries in the order in which they first
    appear, and the names of the last entry of a type. *)
Definition types_in_order (groups : list CreditGroup) : list (option string) :=
  first_keys type groups.

Definition last_names_of (k : option string) (groups : list CreditGroup)
    : list (option string) :=
  match last (filter (λ g, type g = k) groups) with
  | Some g => option.default [] (contributors g)
  | None => []
  end.

End CreditsSpec.
(** Inputs for the credits examples. *)
Module CreditsCases.
Import Credits.

Definition three_credits : list Contributor :=
  [{| role := Some "Producer"; name := Some "Ann" |};
   {| role := Some "Mixer"; name := Some "Bob" |};
   {| role := Some "Producer"; name := Some "Cy" |}].

Definition three_groups : list CreditGroup :=
  [{| type := Some "Producer"; contributors := Some [Some "Ann"] |};
   {| type := Some "Mixer"; contributors := Some [Some "Bob"] |};
   {| type := Some "Producer"; contributors := Some [Some "Cy"] |}].

(** A stand-in for [sanitise_name] that leaves the text alone. *)
Definition plain (k : option string) : string := option.default "" k.

End CreditsCases.

(** ** Regular expressions, as far as [interface.py] writes them *)

Module Re.

(** The pattern syntax in use: literal text, a character class, sequence,
    alternation, the optional [r?], the repetition [[class]+] and named
    groups. *)
Inductive regex : Type :=
| Lit (s : string)
| Cls (f : ascii → bool)
| Seq (r1 r2 : regex)
| Alt (r1 r2 : regex)
| Opt (r : regex)
| Plus (f : ascii → bool)
| Group (name : string) (r : regex).

(** The groups matched so far, the latest first. *)
Abbreviation groups := (list (string * string)).

(** [[class]*] in front of a continuation, the way a backtracking matcher
    runs it: take as many characters as possible, and give characters back
    one by one while the continuation fails.  The continuation gets the
    text that was matched and the text that is left. *)
Fixpoint star {X} (f : ascii → bool) (s : string) (k : string → string → option X)
    : option X :=
  match s with
  | String c s' =>
      if f c then
        match star f s' (λ m rest, k (String c m) rest) with
        | Some x => Some x
        | None => k "" s
        end
      else k "" s
  | EmptyString => k "" s
  end.

(** A pattern in front of a continuation: alternatives are tried from
    left to right, an optional part is tried before it is left out. *)
Fixpoint run {X} (r : regex) (s : string) (g : groups)
    (k : string → string → groups → option X) : option X :=
  match r with
  | Lit p =>
      match Mpd.drop_prefix p s with
      | Some rest => k p rest g
      | None => None
      end
  | Cls f =>
      match s with
      | String c rest => if f c then k (String c "") rest g else None
      | EmptyString => None
      end
  | Seq r1 r2 =>
      run r1 s g (λ m1 s1 g1, run r2 s1 g1 (λ m2 s2 g2, k (m1 +:+ m2) s2 g2))
  | Alt r1 r2 =>
      match run r1 s g k with
      | Some x => Some x
      | None => run r2 s g k
      end
  | Opt r' =>
      match run r' s g k with
      | Some x => Some x
      | None => k "" s g
      end
  | Plus f =>
      match s with
      | String c s' =>
          if f c then star f s' (λ m rest, k (String c m) rest g) else None
      | EmptyString => None
      end
  | Group name r' => run r' s g (λ m rest g', k m rest ((name, m) :: g'))
  end.

(** [re.search(r, s)]: the match that starts leftmost; the result is the
    groups of the match. *)
Fixpoint search (r : regex) (s : string) : option groups :=
  match run r s [] (λ _ _ g, Some g) with
  | Some g => Some g
  | None =>
      match s with
      | String _ s' => search r s'
      | EmptyString => None
      end
  end.

(** [match.group(name)] for a group that took part in the match. *)
Fixpoint group (g : groups) (name : string) : option string :=
  match g with
  | [] => None
  | (n, m) :: g' => if String.eqb n name then Some m else group g' name
  end.

End Re.

(** ** What a pattern matches *)

Module ReSpec.
Import Re.

(** A text made of characters of a class only. *)
Fixpoint every (f : ascii → bool) (s : string) : bool :=
  match s with
  | EmptyString => true
  | String c s' => f c && every f s'
  end.

(** A text that does not go on with a character of the class. *)
Definition stops (f : ascii → bool) (rest : string) : bool :=
  match rest with
  | EmptyString => true
  | String c _ => negb (f c)
  end.

(** [matches r m g g']: the pattern [r] matches exactly the text [m], and
    takes the groups [g] to [g']. *)
Inductive matches : regex → string → groups → groups → Prop :=
| matches_lit p g : matches (Lit p) p g g
| matches_cls f c g : f c = true → matches (Cls f) (String c "") g g
| matches_seq r1 r2 m1 m2 g g1 g2 :
    matches r1 m1 g g1 → matches r2 m2 g1 g2 → matches (Seq r1 r2) (m1 +:+ m2) g g2
| matches_alt_l r1 r2 m g g' : matches r1 m g g' → matches (Alt r1 r2) m g g'
| matches_alt_r r1 r2 m g g' : matches r2 m g g' → matches (Alt r1 r2) m g g'
| matches_opt r m g g' : matches r m g g' → matches (Opt r) m g g'
| matches_opt_none r g : matches (Opt r) "" g g
| matches_plus f c m g :
    f c = true → every f m = true → matches (Plus f) (String c m) g g
| matches_group name r m g g' :
    matches r m g g' → matches (Group name r) m g ((name, m) :: g').

End ReSpec.

(** ** Links: [custom_url_parse] *)

Module Url.
Import Re.

(** [DownloadTypeEnum] and [MediaIdentification] of [utils.models]. *)
Inductive DownloadTypeEnum : Type := track | album | playlist | artist.

Record MediaIdentification : Type := mkMediaIdentification {
  media_type : DownloadTypeEnum;
  media_id : string;
}.

(** What [custom_url_parse] can raise: [InvalidInput] of
    [utils.exceptions], or a builtin exception. *)
Inductive error : Type :=
| InvalidInput (msg : string)
| Builtin (e : exn).

(** The class [[A-Za-z0-9-]]. *)
Definition id_char (c : ascii) : bool :=
  let n := nat_of_ascii c in
  ((65 <=? n)%nat && (n <=? 90)%nat) || ((97 <=? n)%nat && (n <=? 122)%nat)
  || ((48 <=? n)%nat && (n <=? 57)%nat) || Ascii.eqb c "-".

(** The pattern of the [re.search] call. *)
Definition link_pattern : regex :=
  Seq (Lit "http") (Seq (Opt (Lit "s")) (Seq (Lit "://")
  (Seq (Opt (Alt (Lit "www.") (Lit "listen.")))
  (Seq (Lit "tidal.com/")
  (Seq (Opt (Lit "browse/"))
  (Seq (Group "media_type"
          (Alt (Lit "track") (Alt (Lit "album") (Alt (Lit "playlist") (Lit "artist")))))
  (Seq (Lit "/")
       (Group "media_id" (Plus id_char))))))))).

(** The dictionary [media_types]. *)
Definition media_types : list (string * DownloadTypeEnum) :=
  [("track", track); ("album", album); ("playlist", playlist); ("artist", artist)].

Fixpoint getitem {V} (d : list (string * V)) (key : string) : option V :=
  match d with
  | [] => None
  | (k, v) :: d' => if String.eqb k key then Some v else getitem d' key
  end.

Definition custom_url_parse (link : string) : error + MediaIdentification :=
  match search link_pattern link with
  | None => inl (InvalidInput ("Unsupported URL: " +:+ link))
  | Some m =>
      match group m "media_type" with
      | None => inl (Builtin IndexError)
      | Some type_name =>
          match getitem media_types type_name with
          | None => inl (Builtin (KeyError type_name))
          | Some t =>
              match group m "media_id" with
              | None => inl (Builtin IndexError)
              | Some id => inr {| media_type := t; media_id := id |}
              end
          end
      end
  end.

End Url.

(** ** Links as the pattern describes them *)

Module UrlSpec.
Import Url.

(** The name of a media type in a link. *)
Definition type_name (t : DownloadTypeEnum) : string :=
  match t with
  | track => "track"
  | album => "album"
  | playlist => "playlist"
  | artist => "artist"
  end.

End UrlSpec.

(** ** Albums: [get_album_info] *)

Module Album.
Import Credits.

(** [range(a, b, step)] for a positive [step]. *)
Definition range_step (a b step : Z) : list Z :=
  (λ k, a + k * step)%Z <$> seqZ 0 ((b - a + step - 1) / step).

(** [s[:n]] *)
Fixpoint slice_to (n : nat) (s : string) : string :=
  match n, s with
  | S n', String c s' => String c (slice_to n' s')
  | _, _ => EmptyString
  end.

(** [s.split()]: the maximal runs of characters that are not whitespace.
    [word] is the run being read, in reverse. *)
Fixpoint split_go (s : string) (word : string) : list string :=
  match s with
  | EmptyString => if word is EmptyString then [] else [String.rev word]
  | String c s' =>
      if isspace c
      then (if word is EmptyString then [] else [String.rev word]) ++ split_go s' EmptyString
      else split_go s' (String c word)
  end.

Definition split (s : string) : list string := split_go s EmptyString.

(** [s.isdigit()], on ASCII. *)
Fixpoint all_digits (s : string) : bool :=
  match s with
  | EmptyString => true
  | String c s' => bool_decide (is_Some (digit c)) && all_digits s'
  end.

Definition isdigit (s : string) : bool :=
  if s is EmptyString then false else all_digits s.

(** [str(x)] for an integer or [None]. *)
Definition str_opt (x : option Z) : string :=
  match x with
  | Some n => str n
  | None => "None"
  end.

(** The item of an entry of the album contributors answer: its [id], and
    the [credits] that [get_album_info] stores in it. *)
Record Item : Type := mkItem {
  id : option Z;
  item_credits : option (list CreditGroup);
}.

(** An entry of the answer: [type], [item], [credits]. *)
Record Entry : Type := mkEntry {
  entry_type : option string;
  item : option Item;
  credits : option (list CreditGroup);
}.

(** The answer of [get_album_contributors]. *)
Record Page : Type := mkPage {
  totalNumberOfItems : option Z;
  items : option (list Entry);
}.

(** The artist of an album record. *)
Record ArtistRef : Type := mkArtistRef {
  artist_name : option string;
  artist_ref_id : option Z;
}.

(** The album record of the API, with the keys that are read; each may
    be missing. *)
Record AlbumData : Type := mkAlbumData {
  title : option string;
  explicit : option bool;
  upc : option string;
  duration : option Z;
  audioModes : option (list string);
  audioQuality : option string;
  releaseDate : option string;
  streamStartDate : option string;
  copyright : option string;
  cover : option string;
  videoCover : option string;
  artist : option ArtistRef;
}.

(** The values that [release_year] can have. *)
Inductive year : Type :=
| year_text (s : string)
| year_number (n : Z)
| year_list (l : list Z).

(** [AlbumInfo] of [utils.models]; [cache] is the dictionary under
    [track_extra_kwargs['data']]. *)
Record AlbumInfo : Type := mkAlbumInfo {
  name : option string;
  release_year : option year;
  info_explicit : option bool;
  quality : option string;
  info_upc : option string;
  info_duration : option Z;
  cover_url : string;
  cover_type : Artwork.ImageFileTypeEnum;
  animated_cover_url : option string;
  info_artist : option string;
  artist_id : option Z;
  tracks : list string;
  cache : list (string * Item);
}.

(** The quality label. *)
Definition quality_label (album_data : AlbumData) : result (option string) :=
  match audioModes album_data with
  | Some modes =>
      if bool_decide (modes = ["DOLBY_ATMOS"]) then ret (Some "Dolby Atmos")
      else if bool_decide (modes = ["SONY_360RA"]) then ret (Some "360")
      else
        let! audio_quality := or_raise (KeyError "audioQuality") (audioQuality album_data) in
        if bool_decide (audio_quality = "HI_RES") then ret (Some "M") else ret None
  | None => ret None
  end.

(** The release year: from the release date, else from the stream start
    date, else from the copyright notice. *)
Definition find_release_year (album_data : AlbumData) : result (option year) :=
  if truthy (releaseDate album_data) then
    ret (Some (year_text (slice_to 4 (default "" (releaseDate album_data)))))
  else if truthy (streamStartDate album_data) then
    ret (Some (year_text (slice_to 4 (default "" (streamStartDate album_data)))))
  else if truthy (copyright album_data) then
    let! release_year :=
      mapM int (List.filter isdigit (split (default "" (copyright album_data)))) in
    match release_year with
    | n :: _ => ret (Some (year_number n))
    | [] => ret (Some (year_list release_year))
    end
  else ret None.

Section get_album_info.
(** [self.session.get_album], [self.session.get_album_contributors] with
    its optional [offset], and which exceptions are a [TidalError]. *)
Variable get_album : string → result AlbumData.
Variable get_album_contributors : string → option Z → Z → result Page.
Variable is_TidalError : exn → bool.

(** The first request and the loop over the offsets: the answer of the
    first request with the items of the later ones added to its list. *)
Definition fetch_tracks_data (album_id : string) (limit : Z) : result Page :=
  let! tracks_data := get_album_contributors album_id None limit in
  let! total_tracks := or_raise TypeError (totalNumberOfItems tracks_data) in
  foldM (λ tracks_data offset,
           let! track_items := get_album_contributors album_id (Some offset) limit in
           let! old := or_raise (KeyError "items") (items tracks_data) in
           let! new := or_raise TypeError (items track_items) in
           ret {| totalNumberOfItems := totalNumberOfItems tracks_data;
                  items := Some (old ++ new) |})
        tracks_data
        (range_step limit ((total_tracks / limit + 1) * limit) limit).

(** The loop that stores the credits in every item and fills the cache;
    it hands back the cache beside its outcome, and the entries with
    their items updated. *)
Fixpoint fill_cache (entries : list Entry) (cache : list (string * Item))
    : result (list Entry) * list (string * Item) :=
  match entries with
  | [] => (ret [], cache)
  | track :: rest =>
      match item track with
      | None => (raise AttributeError, cache)
      | Some i =>
          let i := {| id := id i; item_credits := credits track |} in
          let track := {| entry_type := entry_type track; item := Some i;
                          credits := credits track |} in
          let '(r, cache) := fill_cache rest (dict_set cache (str_opt (id i)) i) in
          (let! rest := r in ret (track :: rest), cache)
      end
  end.

(** The list comprehension that filters out the video clips. *)
Definition track_ids (entries : list Entry) : result (list string) :=
  mapM (λ track,
          let! i := or_raise (KeyError "item") (item track) in
          let! n := or_raise (KeyError "id") (id i) in
          ret (str n))
       (List.filter (λ track, bool_decide (entry_type track = Some "track")) entries).

(** The [try] block with its handler: the track ids and the cache. *)
Definition album_tracks (album_id : string)
    : result (list string * list (string * Item)) :=
  let limit := 100%Z in
  let cache := [] in
  let handle (e : exn) (cache : list (string * Item)) :=
    if is_TidalError e then ret ([], cache) else raise e in
  match fetch_tracks_data album_id limit with
  | inl e => handle e cache
  | inr tracks_data =>
      let cache := [] in
      match items tracks_data with
      | None => handle TypeError cache
      | Some entries =>
          match fill_cache entries cache with
          | (inl e, cache) => handle e cache
          | (inr entries, cache) =>
              match track_ids entries with
              | inl e => handle e cache
              | inr tracks => ret (tracks, cache)
              end
          end
      end
  end.

Definition get_album_info (album_cache : gmap string AlbumData) (cover_size : Z)
    (album_id : string) (data : gmap string AlbumData) : result AlbumInfo :=
  let! album_data :=
    match data !! album_id with
    | Some album_data => ret album_data
    | None =>
        match album_cache !! album_id with
        | Some album_data => ret album_data
        | None => get_album album_id
        end
    end in
  let! (tracks, cache) := album_tracks album_id in
  let! quality := quality_label album_data in
  let! release_year := find_release_year album_data in
  let! (cover_url, cover_type) :=
    (if truthy (cover album_data) then
       let! url := Artwork._generate_artwork_url (default "" (cover album_data))
                     cover_size 1280 in
       ret (url, Artwork.jpg)
     else
       ret ("https://tidal.com/browse/assets/images/defaultImages/defaultAlbumImage.png",
            Artwork.png)) in
  let animated_cover_url :=
    if truthy (videoCover album_data)
    then Some (Artwork._generate_animated_artwork_url
                 (default "" (videoCover album_data)) 1280)
    else None in
  let! artist := or_raise AttributeError (artist album_data) in
  ret {| name := title album_data;
         release_year := release_year;
         info_explicit := explicit album_data;
         quality := quality;
         info_upc := upc album_data;
         info_duration := duration album_data;
         cover_url := cover_url;
         cover_type := cover_type;
         animated_cover_url := animated_cover_url;
         info_artist := artist_name artist;
         artist_id := artist_ref_id artist;
         tracks := tracks;
         cache := cache |}.

End get_album_info.

End Album.
(** ** Albums served in pages *)

Module AlbumSpec.
Import Credits Album.

(** A backend that serves the entries [all] of every album in pages. *)
Definition serve (all : list Entry) : string → option Z → Z → result Page :=
  λ _ offset limit,
    inr {| totalNumberOfItems := Some (Z.of_nat (length all));
           items := Some (take (Z.to_nat limit)
                            (drop (Z.to_nat (default 0%Z offset)) all)) |}.

(** An entry after the cache loop: its item carries the credits. *)
Definition with_credits (e : Entry) : Entry :=
  {| entry_type := entry_type e;
     item := (λ i, {| id := id i; item_credits := credits e |}) <$> item e;
     credits := credits e |}.

(** The ids of the entries of type track, as text. *)
Definition listed (entries : list Entry) : list string :=
  omap (λ e, if bool_decide (entry_type e = Some "track")
             then str <$> (item e ≫= id) else None) entries.

(** Three entries: two tracks around a video clip. *)
Definition three_entries : list Entry :=
  [{| entry_type := Some "track"; item := Some {| id := Some 11%Z; item_credits := None |};
      credits := None |};
   {| entry_type := Some "video"; item := Some {| id := Some 12%Z; item_credits := None |};
      credits := None |};
   {| entry_type := Some "track"; item := Some {| id := Some 13%Z; item_credits := None |};
      credits := None |}].

End AlbumSpec.

(* MORE-DEFINITIONS *)

(** * Properties *)

(** ** Manifest parser *)

Section parser_facts.
Context `{CodecTable}.
Import TimelineSpec.

Lemma mapM_Forall2 {A B} (f : A → result B) l bs :
  Forall2 (λ a b, f a = inr b) l bs → mapM f l = inr bs.
Proof.
  induction 1 as [|a b l bs Hab _ IH]; [done|].
  cbn. by rewrite Hab; cbn; rewrite IH.
Qed.

Lemma mapM_fmap {A B} (f : A → result B) (g : A → B) l :
  (∀ a, f a = inr (g a)) → mapM f l = inr (g <$> l).
Proof.
  intros Hf. induction l as [|a l IH]; [done|].
  cbn. by rewrite Hf; cbn; rewrite IH.
Qed.

(** One [S] element: [n] rounds starting at [cur_time] append the times
    [cur_time + k * d] and leave the clock at [cur_time + n * d]. *)
Lemma segment_reference_ok d dv n seg_time_list cur_time :
  int_opt d = inr dv →
  Mpd.segment_reference d n seg_time_list cur_time =
    inr (seg_time_list ++ ((λ k : nat, cur_time + Z.of_nat k * dv)%Z <$> seq 0 n),
         (cur_time + Z.of_nat n * dv)%Z).
Proof.
  intros Hd. revert seg_time_list cur_time.
  induction n as [|n IH]; intros l cur.
  - cbn. rewrite app_nil_r. do 2 f_equal. lia.
  - cbn [Mpd.segment_reference]. rewrite Hd. cbn [Py.bind]. rewrite IH.
    do 2 f_equal.
    + rewrite <- app_assoc. f_equal. cbn [seq fmap list_fmap app].
      f_equal; [lia|]. rewrite <- seq_shift, <- list_fmap_compose.
      apply list_fmap_ext. intros _ k _. cbn. lia.
    + lia.
Qed.

Lemma read_entry_inv s e :
  read_entry s = inr e →
  (∀ cur, (if truthy (get s "t") then int_opt (get s "t") else ret cur)
          = inr (default cur (start_time e))) ∧
  int_or (get s "r") 0 = inr (repeat_count e) ∧
  int_opt (get s "d") = inr (duration e).
Proof.
  unfold read_entry. intros Hs.
  destruct (truthy (get s "t")).
  - destruct (int_opt (get s "t")) as [?|t]; [done|]. cbn in Hs.
    destruct (int_or (get s "r") 0) as [?|r]; [done|]. cbn in Hs.
    destruct (int_opt (get s "d")) as [?|d]; [done|]. cbn in Hs.
    injection Hs as <-. done.
  - cbn in Hs.
    destruct (int_or (get s "r") 0) as [?|r]; [done|]. cbn in Hs.
    destruct (int_opt (get s "d")) as [?|d]; [done|]. cbn in Hs.
    injection Hs as <-. done.
Qed.

(** The timeline loop computes the start times of the specification. *)
Lemma timeline_loop_ok ss es seg_time_list cur_time :
  Forall2 (λ s e, read_entry s = inr e) ss es →
  ∃ end_time,
    Mpd.timeline_loop ss seg_time_list cur_time =
      inr (seg_time_list ++ segment_times es cur_time, end_time).
Proof.
  intros Hall. revert seg_time_list cur_time.
  induction Hall as [|s e ss es Hs _ IH]; intros l cur.
  - exists cur. cbn. by rewrite app_nil_r.
  - apply read_entry_inv in Hs as (Ht & Hr & Hd).
    cbn [Mpd.timeline_loop]. rewrite Ht. cbn [Py.bind]. rewrite Hr. cbn [Py.bind].
    rewrite (segment_reference_ok _ _ _ _ _ Hd). cbn [Py.bind].
    edestruct IH as [end_time ->]. exists end_time.
    cbn [segment_times]. by rewrite app_assoc.
Qed.

Lemma segment_times_length es cur_time :
  length (segment_times es cur_time) = segment_count es.
Proof.
  revert cur_time. induction es as [|e es IH]; intros cur; [done|].
  cbn [segment_times]. rewrite length_app, length_fmap, length_seq, IH. done.
Qed.

(** With repeat counts from zero up, the number of segments is the sum of
    the repeat counts plus one each. *)
Lemma segment_count_repeats es :
  Forall (λ e, (0 ≤ repeat_count e)%Z) es →
  Z.of_nat (segment_count es) = foldr (λ e n, (repeat_count e + 1 + n)%Z) 0%Z es.
Proof.
  induction 1 as [|e es He _ IH]; [done|].
  unfold segment_count in *. cbn. unfold segments_of at 1. lia.
Qed.

End parser_facts.

Section parser_results.
Context `{CodecTable}.
Import TimelineSpec ManifestSpec.

Lemma media_urls_ok seg_template media ns :
  get seg_template "media" = Some media →
  mapM (Mpd.media_url seg_template) ns =
    inr ((λ n, Some (replace media "$Number$" (str n))) <$> ns).
Proof.
  intros Hm. apply mapM_fmap. intros n. unfold Mpd.media_url. by rewrite Hm.
Qed.

(** A well-formed representation parses to the promised rendition. *)
Lemma parse_representation_ok adaptation_set rep x :
  well_formed adaptation_set rep x →
  Mpd.parse_representation adaptation_set rep = inr (rendition x).
Proof.
  intros [Ha (codecs & Hc & Hn) Hsr Hbr (st & Hst & Hinit & Hmedia & Hstart & Hss)].
  unfold Mpd.parse_representation.
  rewrite Ha, bool_decide_eq_true_2 by done. cbn [negb].
  rewrite Hc. cbn [or_raise Py.bind].
  rewrite Hst. cbn [or_raise Py.bind].
  rewrite Hstart. cbn [Py.bind].
  destruct (find st "SegmentTimeline") as [tl|].
  - destruct (timeline_loop_ok (findall tl "S") (d_entries x) [] 0) as [end_time Hloop].
    { eapply Forall2_impl; [exact Hss|]. by intros s e [? _]. }
    rewrite Hloop. cbn [Py.bind app].
    rewrite (media_urls_ok _ _ _ Hmedia). cbn [Py.bind Py.ret].
    unfold CodecEnum_item. fold (dash_codec_name codecs). rewrite Hn.
    cbn [or_raise Py.bind]. rewrite Hsr, Hbr. cbn [Py.bind Py.ret].
    unfold rendition, segment_urls. do 2 f_equal. rewrite Hinit. cbn [app]. do 2 f_equal.
    unfold range. rewrite segment_times_length. f_equal. lia.
  - cbn [Py.bind Py.ret].
    unfold CodecEnum_item. fold (dash_codec_name codecs). rewrite Hn.
    cbn [or_raise Py.bind]. rewrite Hsr, Hbr. cbn [Py.bind Py.ret].
    unfold rendition, segment_urls. by rewrite Hinit, Hss.
Qed.

End parser_results.

Section parser_claims.
Context `{CodecTable}.
Import TimelineSpec ManifestSpec.

Lemma parse_root_ok root xs :
  Forall2 (λ ar x, well_formed ar.1 ar.2 x) (Mpd.representations root) xs →
  Mpd.parse_root root = inr (rendition <$> xs).
Proof.
  intros Hall. unfold Mpd.parse_root. apply mapM_Forall2.
  apply Forall2_fmap_r. eapply Forall2_impl; [exact Hall|].
  intros [a r] x Hwf. by apply parse_representation_ok.
Qed.

Lemma parse_mpd_root decode fromstring xml text root :
  decode xml = inr text →
  fromstring (Mpd.sub_xmlns text) = inr root →
  Mpd.parse_mpd decode fromstring xml = Mpd.parse_root root.
Proof. intros Hd Hf. unfold Mpd.parse_mpd. by rewrite Hd; cbn; rewrite Hf. Qed.

(** The shape of the promised URL list. *)
Lemma segment_urls_shape initialization media start_number es :
  let urls := segment_urls initialization media start_number es in
  urls !! 0%nat = Some (Some initialization) ∧
  length urls = S (segment_count es) ∧
  ∀ k : nat, (k < segment_count es)%nat →
    urls !! S k = Some (Some (replace media "$Number$" (str (start_number + Z.of_nat k)))).
Proof.
  intros urls. subst urls. unfold segment_urls. split; [done|]. split.
  - cbn [length]. by rewrite length_fmap, length_seqZ, Nat2Z.id.
  - intros k Hk. rewrite lookup_cons, list_lookup_fmap, lookup_seqZ_lt by lia. done.
Qed.

(** C1: for a well-formed audio manifest, [parse_mpd] returns one
    rendition per representation, in document order, whose URL list has
    the initialization URL at index 0 followed by one media URL per
    timeline segment: an entry with repeat count R stands for R+1
    segments, the segment numbers start at the declared start number
    (1 when none is declared) and go up by one per segment, and the
    timeline replay gives an entry without explicit start time the end
    of the previous entry as its start.  With start number 1 and the
    single entry t=0, d=1000, r=2 the list is the initialization URL and
    the media URLs numbered 1, 2 and 3: four URLs. *)
Theorem parse_mpd_segment_urls :
  (∀ decode fromstring xml text root xs,
     decode xml = inr text →
     fromstring (Mpd.sub_xmlns text) = inr root →
     Forall2 (λ ar x, well_formed ar.1 ar.2 x) (Mpd.representations root) xs →
     ∃ tracks,
       Mpd.parse_mpd decode fromstring xml = inr tracks ∧
       Forall2 (λ t x,
         Mpd.urls t !! 0%nat = Some (Some (d_initialization x)) ∧
         length (Mpd.urls t) = S (segment_count (d_entries x)) ∧
         Z.of_nat (segment_count (d_entries x)) =
           foldr (λ e n, (repeat_count e + 1 + n)%Z) 0%Z (d_entries x) ∧
         ∀ k : nat, (k < segment_count (d_entries x))%nat →
           Mpd.urls t !! S k =
             Some (Some (replace (d_media x) "$Number$"
                                 (str (d_start_number x + Z.of_nat k))))) tracks xs) ∧
  (∀ seg_template, get seg_template "startNumber" = None →
     int_or (get seg_template "startNumber") 1 = inr 1%Z) ∧
  (∀ ss es, Forall2 (λ s e, read_entry s = inr e) ss es →
     ∃ end_time, Mpd.timeline_loop ss [] 0 = inr (segment_times es 0, end_time)) ∧
  (∀ e es prev_end, start_time e = None →
     segment_times (e :: es) prev_end =
       ((λ k : nat, prev_end + Z.of_nat k * duration e)%Z <$> seq 0 (segments_of e))
         ++ segment_times es (prev_end + Z.of_nat (segments_of e) * duration e)%Z) ∧
  (∀ adaptation_set rep x,
     well_formed adaptation_set rep x →
     d_start_number x = 1%Z →
     d_entries x = [{| start_time := Some 0%Z; repeat_count := 2; duration := 1000 |}] →
     ∃ t, Mpd.parse_representation adaptation_set rep = inr t ∧
          Mpd.urls t = [Some (d_initialization x);
                        Some (replace (d_media x) "$Number$" "1");
                        Some (replace (d_media x) "$Number$" "2");
                        Some (replace (d_media x) "$Number$" "3")]).
Proof.
  split; [|split; [|split; [|split]]].
  - intros decode fromstring xml text root xs Hd Hf Hall.
    exists (rendition <$> xs). split.
    { rewrite (parse_mpd_root _ _ _ _ _ Hd Hf). by apply parse_root_ok. }
    apply Forall2_fmap_l, Forall2_same_length_lookup_2; [done|].
    intros i t x Ht Hx. assert (t = x) as -> by congruence.
    destruct (segment_urls_shape (d_initialization x) (d_media x) (d_start_number x)
                (d_entries x)) as (H0 & Hlen & Hk).
    split; [exact H0|]. split; [exact Hlen|]. split; [|exact Hk].
    apply segment_count_repeats.
    pose proof (Forall2_lookup_r _ _ _ _ _ Hall Hx) as ([a r] & _ & Hwf).
    destruct Hwf as [_ _ _ _ (st & _ & _ & _ & _ & Hss)].
    destruct (find st "SegmentTimeline") as [tl|]; [|by rewrite Hss].
    clear -Hss. induction Hss as [|s e ss es [_ He] _ IH]; constructor; done.
  - intros st Hn. unfold int_or. by rewrite Hn.
  - intros ss es Hall. by apply (timeline_loop_ok ss es [] 0).
  - intros e es prev_end He. cbn [segment_times]. by rewrite He.
  - intros a rep x Hwf Hstart Hes. exists (rendition x). split.
    { by apply parse_representation_ok. }
    unfold rendition, segment_urls. cbn [Mpd.urls]. by rewrite Hstart, Hes.
Qed.

End parser_claims.

Lemma parse_mpd_segment_urls_witness :
  (∃ tracks,
     Mpd.parse_mpd inr Example.parse_document "scenario-d" = inr tracks ∧
     Forall2 (λ t x,
       Mpd.urls t !! 0%nat = Some (Some (ManifestSpec.d_initialization x)) ∧
       length (Mpd.urls t) = S (TimelineSpec.segment_count (ManifestSpec.d_entries x)) ∧
       Z.of_nat (TimelineSpec.segment_count (ManifestSpec.d_entries x)) =
         foldr (λ e n, (TimelineSpec.repeat_count e + 1 + n)%Z) 0%Z (ManifestSpec.d_entries x) ∧
       ∀ k : nat, (k < TimelineSpec.segment_count (ManifestSpec.d_entries x))%nat →
         Mpd.urls t !! S k =
           Some (Some (replace (ManifestSpec.d_media x) "$Number$"
                               (str (ManifestSpec.d_start_number x + Z.of_nat k)))))
       tracks [Example.scenario_d_declaration]) ∧
  (∃ t, Mpd.parse_representation Example.scenario_d_adaptation_set
          Example.scenario_d_representation = inr t ∧
        Mpd.urls t = [Some "https://x/init.mp4"; Some "https://x/1.mp4";
                      Some "https://x/2.mp4"; Some "https://x/3.mp4"]).
Proof.
  assert (ManifestSpec.well_formed Example.scenario_d_adaptation_set
            Example.scenario_d_representation Example.scenario_d_declaration) as Hwf.
  { split; [reflexivity | by exists "flac" | reflexivity | reflexivity |].
    eexists. repeat split; [reflexivity..|].
    constructor; [|constructor]. split; [reflexivity | done]. }
  destruct (parse_mpd_segment_urls (H:=Example.codecs)) as (Hall & _ & _ & _ & Hd).
  split.
  - apply (Hall inr Example.parse_document "scenario-d" "scenario-d"
             Example.scenario_d_root [Example.scenario_d_declaration]);
      [reflexivity | reflexivity |].
    constructor; [exact Hwf | constructor].
  - apply (Hd _ _ Example.scenario_d_declaration Hwf); reflexivity.
Defined.

Section parser_errors.
Context `{CodecTable}.
Import ManifestSpec.

Lemma mapM_app_fail {A B} (f : A → result B) pre a post e :
  Forall (λ x, ∃ b, f x = inr b) pre →
  f a = inl e →
  mapM f (pre ++ a :: post) = inl e.
Proof.
  intros Hpre Ha. induction Hpre as [|x pre [b Hx] _ IH]; cbn.
  - by rewrite Ha.
  - by rewrite Hx; cbn; rewrite IH.
Qed.

Lemma mapM_inr_Forall {A B} (f : A → result B) l :
  (∃ bs, mapM f l = inr bs) ↔ Forall (λ x, ∃ b, f x = inr b) l.
Proof.
  split.
  - intros [bs Hbs]. revert bs Hbs. induction l as [|a l IH]; intros bs; cbn; [done|].
    destruct (f a) as [e|b] eqn:Ha; [done|]. cbn.
    destruct (mapM f l) as [e|bs'] eqn:Hl; [done|]. cbn. intros _.
    constructor; eauto.
  - induction 1 as [|a l [b Ha] _ [bs IH]]; cbn; [by eexists|].
    rewrite Ha; cbn. rewrite IH; cbn. by eexists.
Qed.

Lemma parse_representation_not_audio adaptation_set rep :
  get adaptation_set "contentType" ≠ Some "audio" →
  Mpd.parse_representation adaptation_set rep = inl (ValueError "Only supports audio MPDs!").
Proof.
  intros Hna. unfold Mpd.parse_representation.
  by rewrite bool_decide_eq_false_2.
Qed.

(** C6, as the code has it: [parse_mpd] fails when the bytes cannot be
    decoded or are not well-formed XML, and when it reaches a
    representation of an adaptation set that is not declared as audio;
    that failure is the [ValueError] of the parser when every earlier
    representation parsed.  A failure returns no rendition list.  A
    document without representations, in particular one without any audio
    adaptation set, is not a failure: the result is the empty list.
    Overall the parse of a decoded document succeeds exactly when every
    representation parses. *)
Theorem parse_mpd_failures :
  (∀ decode fromstring xml e,
     decode xml = inl e → Mpd.parse_mpd decode fromstring xml = inl e) ∧
  (∀ decode fromstring xml text e,
     decode xml = inr text → fromstring (Mpd.sub_xmlns text) = inl e →
     Mpd.parse_mpd decode fromstring xml = inl e) ∧
  (∀ root pre adaptation_set rep post,
     Mpd.representations root = pre ++ (adaptation_set, rep) :: post →
     Forall (λ ar, ∃ t, Mpd.parse_representation ar.1 ar.2 = inr t) pre →
     get adaptation_set "contentType" ≠ Some "audio" →
     Mpd.parse_root root = inl (ValueError "Only supports audio MPDs!")) ∧
  (∀ root, Mpd.representations root = [] → Mpd.parse_root root = inr []) ∧
  (∀ root,
     (∃ tracks, Mpd.parse_root root = inr tracks) ↔
     Forall (λ ar, ∃ t, Mpd.parse_representation ar.1 ar.2 = inr t)
            (Mpd.representations root)).
Proof.
  split; [|split; [|split; [|split]]].
  - intros decode fromstring xml e Hd. unfold Mpd.parse_mpd. by rewrite Hd.
  - intros decode fromstring xml text e Hd Hf. unfold Mpd.parse_mpd.
    by rewrite Hd; cbn; rewrite Hf.
  - intros root pre a r post Hreps Hpre Hna. unfold Mpd.parse_root. rewrite Hreps.
    apply mapM_app_fail.
    + eapply Forall_impl; [exact Hpre|]. by intros [a' r'].
    + by apply parse_representation_not_audio.
  - intros root Hreps. unfold Mpd.parse_root. by rewrite Hreps.
  - intros root. unfold Mpd.parse_root. rewrite mapM_inr_Forall.
    apply Forall_iff. by intros [a r].
Qed.

End parser_errors.

Lemma parse_mpd_failures_witness :
  Mpd.parse_mpd (H:=Example.codecs) inr Example.parse_document "no such document"
    = inl ParseError ∧
  Mpd.parse_root (H:=Example.codecs) Example.video_root
    = inl (ValueError "Only supports audio MPDs!") ∧
  Mpd.parse_root (H:=Example.codecs) Example.video_without_representation_root = inr [].
Proof.
  destruct (parse_mpd_failures (H:=Example.codecs)) as (_ & Hxml & Hvideo & Hempty & _).
  split; [|split].
  - apply (Hxml inr Example.parse_document "no such document" "no such document");
      reflexivity.
  - apply (Hvideo Example.video_root []
             (Elem "AdaptationSet" [("contentType", "video")]
                [Elem "Representation" [("codecs", "avc1")] []])
             (Elem "Representation" [("codecs", "avc1")] []) []);
      [reflexivity | constructor | discriminate].
  - apply Hempty. reflexivity.
Defined.

(** C6 as stated fails: a document without any audio adaptation set is
    parsed without error, and the empty rendition list is returned. *)
Lemma parse_mpd_without_audio_returns_empty :
  ManifestSpec.audio_adaptation_sets Example.empty_period_root = [] ∧
  Mpd.parse_mpd (H:=Example.codecs) inr Example.parse_document "empty-period" = inr [] ∧
  ManifestSpec.audio_adaptation_sets Example.video_without_representation_root = [] ∧
  Mpd.parse_mpd (H:=Example.codecs) inr Example.parse_document
    "video-without-representation" = inr [].
Proof. repeat split. Qed.

(** ** Codec names *)

Section codec_names.
Import ManifestSpec.

Lemma prefix_cons_inv a p c s :
  String.prefix (String a p) (String c s) = true → a = c ∧ String.prefix p s = true.
Proof. cbn. by destruct (ascii_dec a c). Qed.

Lemma prefix_cons a p s :
  String.prefix p s = true → String.prefix (String a p) (String a s) = true.
Proof. intros Hp. cbn. by destruct (ascii_dec a a). Qed.

Lemma prefix_upper p s :
  String.prefix p s = true → String.prefix (upper p) (upper s) = true.
Proof.
  revert s. induction p as [|a p IH]; intros s; [by destruct s|].
  destruct s as [|c s]; [done|]. intros [-> Hp]%prefix_cons_inv.
  cbn [upper]. by apply prefix_cons, IH.
Qed.

Lemma prefix_contains p s : String.prefix p s = true → contains p s = true.
Proof. intros Hp. destruct s; cbn [contains]; by rewrite Hp. Qed.

Lemma contains_upper p s :
  contains p s = true → contains (upper p) (upper s) = true.
Proof.
  induction s as [|c s IH]; cbn [contains upper].
  - rewrite orb_false_r. intros Hp.
    pose proof (prefix_upper _ _ Hp) as Hu. cbn [upper] in Hu. by rewrite Hu.
  - intros [Hp|Hs]%orb_true_iff.
    + pose proof (prefix_upper _ _ Hp) as Hu. cbn [upper] in Hu. by rewrite Hu.
    + rewrite (IH Hs). apply orb_true_r.
Qed.

(** An identifier that begins with the MP4 audio tag is looked up as AAC
    on both manifest paths. *)
Lemma mp4a_codec_name codecs :
  startswith codecs "mp4a" = true →
  dash_codec_name codecs = "AAC" ∧ json_codec_name codecs = "AAC".
Proof.
  unfold dash_codec_name, json_codec_name, startswith. intros Hp. split.
  - pose proof (prefix_upper _ _ Hp) as Hu.
    change (upper "mp4a") with "MP4A" in Hu. by rewrite Hu.
  - by rewrite (prefix_contains _ _ Hp).
Qed.

(** An identifier that does not mention the tag in any letter case is
    looked up under its upper-case form on both paths. *)
Lemma other_codec_name codecs :
  contains "MP4A" (upper codecs) = false →
  dash_codec_name codecs = upper codecs ∧ json_codec_name codecs = upper codecs.
Proof.
  unfold dash_codec_name, json_codec_name, startswith. intros Hn. split.
  - destruct (String.prefix "MP4A" (upper codecs)) eqn:Hp; [|done].
    apply prefix_contains in Hp. congruence.
  - destruct (contains "mp4a" codecs) eqn:Hc; [|done].
    apply contains_upper in Hc. change (upper "mp4a") with "MP4A" in Hc. congruence.
Qed.

End codec_names.

(** ** Format resolver *)

Section resolver_facts.
Context `{CodecTable} `{Resolver.Backend}.
Import Resolver.

Lemma in_list_true x l : x ∈ l → in_list x l = true.
Proof. intros Hx. unfold in_list. by rewrite bool_decide_eq_true_2. Qed.

Lemma in_list_false x l : x ∉ l → in_list x l = false.
Proof. intros Hx. unfold in_list. by rewrite bool_decide_eq_false_2. Qed.

(** The first half of [get_track_info] is [resolve]: the second half runs
    with the resolved session as default and the resolved quality string. *)
Lemma get_track_info_resolve self track_id quality_tier codec_options media_tags w :
  get_track_info self track_id quality_tier codec_options media_tags w =
    let '(session, quality, _) :=
      resolve self (default w) quality_tier codec_options media_tags in
    stream_and_build self track_id codec_options quality
      {| default := session; requests := requests w; printed := printed w |}.
Proof.
  unfold get_track_info, resolve, bindM.
  destruct (in_list _ (available_sessions self)); cbn; [done|].
  by destruct w.
Qed.

(** The second half keeps the default session, and its first request is
    the one for the given quality string. *)
Lemma stream_and_build_requests self track_id codec_options quality w :
  let w' := (stream_and_build self track_id codec_options quality w).2 in
  default w' = default w ∧
  ∃ rest, requests w' = requests w ++ (default w, track_id, quality) :: rest.
Proof.
  unfold stream_and_build, try_get_stream_url, get_stream_url, bindM, lift, retM, print.
  destruct (session_get_stream_url (default w) track_id quality) as [e|sd]; cbn.
  - destruct e; cbn; eauto.
  - destruct (read_manifest sd None) as [e|[[at1 m1] c1]]; cbn; [eauto|].
    destruct (withheld codec_options c1); cbn; [|eauto].
    destruct (session_get_stream_url (default w) track_id "LOSSLESS") as [e|sd2];
      cbn; [rewrite <- app_assoc; eauto|].
    destruct (read_manifest sd2 at1) as [e|[[at2 m2] c2]]; cbn;
      rewrite <- app_assoc; eauto.
Qed.

(** The request that [get_track_info] makes first goes to the resolved
    session with the resolved quality string. *)
Lemma get_track_info_first_request self track_id quality_tier codec_options media_tags w :
  let '(session, quality, _) :=
    resolve self (default w) quality_tier codec_options media_tags in
  let w' := (get_track_info self track_id quality_tier codec_options media_tags w).2 in
  default w' = session ∧
  ∃ rest, requests w' = requests w ++ (session, track_id, quality) :: rest.
Proof.
  rewrite get_track_info_resolve.
  destruct (resolve _ _ _ _ _) as [[session quality] format].
  apply (stream_and_build_requests self track_id codec_options quality
           {| default := session; requests := requests w; printed := printed w |}).
Qed.

(** The choice among the spatial formats. *)
Lemma choose_format_spatial self quality_tier codec_options media_tags :
  spatial_codecs codec_options = true →
  ("SONY_360RA" ∈ media_tags →
     choose_format self quality_tier codec_options media_tags = Some fmt_360ra) ∧
  ("SONY_360RA" ∉ media_tags → "DOLBY_ATMOS" ∈ media_tags →
     choose_format self quality_tier codec_options media_tags =
       Some (if _bool_setting (settings self) "prefer_ac4" false
             then fmt_ac4 else fmt_ac3)).
Proof.
  intros Hs. unfold choose_format. rewrite Hs. split.
  - intros H360. rewrite (in_list_true _ _ H360).
    rewrite (bool_decide_eq_true_2 (is_Some (Some fmt_360ra))) by eauto.
    by rewrite andb_false_r.
  - intros H360 Hatmos. rewrite (in_list_false _ _ H360), (in_list_true _ _ Hatmos).
    destruct (_bool_setting _ _ _).
    + rewrite (bool_decide_eq_true_2 (is_Some (Some fmt_ac4))) by eauto.
      by rewrite andb_false_r.
    + rewrite (bool_decide_eq_true_2 (is_Some (Some fmt_ac3))) by eauto.
      by rewrite andb_false_r.
Qed.

Lemma choose_format_not_spatial self quality_tier codec_options media_tags :
  (if spatial_codecs codec_options
   then ("SONY_360RA" ∉ media_tags) ∧ ("DOLBY_ATMOS" ∉ media_tags) else True) →
  choose_format self quality_tier codec_options media_tags =
    if in_list "HIRES_LOSSLESS" media_tags && bool_decide (quality_tier = HIFI)
    then Some fmt_flac_hires else None.
Proof.
  unfold choose_format. destruct (spatial_codecs codec_options).
  - intros [H360 Hatmos].
    rewrite (in_list_false _ _ H360), (in_list_false _ _ Hatmos).
    rewrite (bool_decide_eq_false_2 (is_Some None)) by (by intros [? ?]).
    by rewrite andb_true_r.
  - intros _. rewrite (bool_decide_eq_false_2 (is_Some None)) by (by intros [? ?]).
    by rewrite andb_true_r.
Qed.

Lemma resolve_available self default quality_tier codec_options media_tags :
  let format := choose_format self quality_tier codec_options media_tags in
  let session := choose_session format media_tags in
  name session ∈ available_sessions self →
  resolve self default quality_tier codec_options media_tags =
    (session, requested_quality quality_tier format, format).
Proof.
  intros format session Ha. subst format session. unfold resolve. cbv zeta.
  by rewrite (in_list_true _ _ Ha).
Qed.

Lemma resolve_unavailable self default quality_tier codec_options media_tags :
  let format := choose_format self quality_tier codec_options media_tags in
  let session := choose_session format media_tags in
  name session ∉ available_sessions self →
  resolve self default quality_tier codec_options media_tags =
    (default, quality_parse quality_tier, None).
Proof.
  intros format session Ha. subst format session. unfold resolve. cbv zeta.
  by rewrite (in_list_false _ _ Ha).
Qed.

(** What [__init__] leaves in [available_sessions]: all three sessions,
    or the TV session alone. *)
Lemma init_available_sessions settings :
  available_sessions (init settings) =
    if _bool_setting settings "enable_mobile" true
    then ["TV"; "MOBILE_DEFAULT"; "MOBILE_ATMOS"] else ["TV"].
Proof. unfold init. by destruct (_bool_setting _ _ _). Qed.

(** In a deployment set up by [__init__], a default session that is
    available is the TV session as soon as any session is unavailable. *)
Lemma init_unavailable_default settings default session :
  name default ∈ available_sessions (init settings) →
  name session ∉ available_sessions (init settings) →
  default = TV.
Proof.
  rewrite init_available_sessions. destruct (_bool_setting _ _ _).
  - intros _ Hs. exfalso. apply Hs. destruct session; cbn; repeat constructor.
  - destruct default; cbn; [done|by intros ?%list_elem_of_singleton..].
Qed.

End resolver_facts.

Section resolver_claims.
Import Resolver.

(** C2, as the code has it: with spatial codecs allowed the resolver looks
    for the SONY_360RA tag first and, if the track has it, chooses the
    360 Reality Audio rendition; only without that tag does it look for
    the DOLBY_ATMOS tag and choose AC-4 or E-AC-3 by the [prefer_ac4]
    setting.  A track with both tags gets the 360 Reality Audio
    rendition. *)
Theorem spatial_tag_order self default quality_tier codec_options media_tags :
  spatial_codecs codec_options = true →
  ("SONY_360RA" ∈ media_tags →
     choose_format self quality_tier codec_options media_tags = Some fmt_360ra) ∧
  ("SONY_360RA" ∉ media_tags → "DOLBY_ATMOS" ∈ media_tags →
     choose_format self quality_tier codec_options media_tags =
       Some (if _bool_setting (settings self) "prefer_ac4" false
             then fmt_ac4 else fmt_ac3)) ∧
  ("SONY_360RA" ∈ media_tags → "DOLBY_ATMOS" ∈ media_tags →
     name MOBILE_DEFAULT ∈ available_sessions self →
     resolve self default quality_tier codec_options media_tags =
       (MOBILE_DEFAULT, quality_parse quality_tier, Some fmt_360ra)).
Proof.
  intros Hs.
  destruct (choose_format_spatial self quality_tier codec_options media_tags Hs)
    as [H360 Hatmos].
  split; [exact H360|]. split; [exact Hatmos|].
  intros Hin _ Ha.
  pose proof (resolve_available self default quality_tier codec_options media_tags) as Hr.
  cbv zeta in Hr. rewrite (H360 Hin) in Hr. by apply Hr.
Qed.

(** C3: for a track with the DOLBY_ATMOS tag and spatial codecs allowed,
    the format chosen is one of the spatial formats, never none and never
    the hi-res lossless one; it is the resolved format as long as its
    session is available.  When the session of the chosen format is not
    available, the format becomes none, the quality string is the one of
    the tier table, and the default session stays as it was, which in a
    deployment set up by [__init__] is the TV session, the session of a
    track without format. *)
Theorem atmos_resolves_spatial_or_degrades self default quality_tier codec_options
    media_tags :
  "DOLBY_ATMOS" ∈ media_tags →
  spatial_codecs codec_options = true →
  let format := choose_format self quality_tier codec_options media_tags in
  let session := choose_session format media_tags in
  format ∈ [Some fmt_360ra; Some fmt_ac4; Some fmt_ac3] ∧
  (name session ∈ available_sessions self →
     resolve self default quality_tier codec_options media_tags =
       (session, quality_parse quality_tier, format)) ∧
  (name session ∉ available_sessions self →
     resolve self default quality_tier codec_options media_tags =
       (default, quality_parse quality_tier, None) ∧
     (∀ settings, self = init settings → name default ∈ available_sessions self →
        default = TV ∧ choose_session None [] = TV)).
Proof.
  intros Hatmos Hs format session.
  assert (format ∈ [Some fmt_360ra; Some fmt_ac4; Some fmt_ac3]) as Hf.
  { subst format.
    destruct (choose_format_spatial self quality_tier codec_options media_tags Hs)
      as [H360 Hno360].
    destruct (decide ("SONY_360RA" ∈ media_tags)) as [Hin|Hnin].
    - rewrite (H360 Hin). repeat constructor.
    - rewrite (Hno360 Hnin Hatmos). destruct (_bool_setting _ _ _); repeat constructor. }
  split; [exact Hf|]. split.
  - intros Ha.
    rewrite (resolve_available self default quality_tier codec_options media_tags Ha).
    fold format. do 2 f_equal. unfold requested_quality.
    rewrite bool_decide_eq_false_2; [done|].
    intros Heq. rewrite Heq in Hf.
    apply elem_of_cons in Hf as [?|Hf]; [done|].
    apply elem_of_cons in Hf as [?|Hf]; [done|].
    by apply list_elem_of_singleton in Hf.
  - intros Hna. split.
    + by apply resolve_unavailable.
    + intros settings -> Hd. split; [|done].
      by apply (init_unavailable_default settings default session).
Qed.

(** C4, as the code has it: the quality string requested is the entry of
    the tier table (Minimum and Low give LOW, Medium and High give HIGH,
    Lossless gives LOSSLESS, HiFi gives HI_RES) unless the resolved format
    is the hi-res lossless one, in which case it is HI_RES_LOSSLESS.  A
    HiFi request for a track with the HIRES_LOSSLESS tag and spatial
    codecs disallowed resolves to the hi-res lossless format with
    HI_RES_LOSSLESS when the MOBILE_DEFAULT session is available; when it
    is not, the format is none and the string is HI_RES. *)
Theorem quality_string_table :
  (quality_parse MINIMUM = "LOW" ∧ quality_parse LOW = "LOW" ∧
   quality_parse MEDIUM = "HIGH" ∧ quality_parse HIGH = "HIGH" ∧
   quality_parse LOSSLESS = "LOSSLESS" ∧ quality_parse HIFI = "HI_RES") ∧
  (∀ self default quality_tier codec_options media_tags,
     let '(_, quality, format) :=
       resolve self default quality_tier codec_options media_tags in
     quality = if bool_decide (format = Some fmt_flac_hires)
               then "HI_RES_LOSSLESS" else quality_parse quality_tier) ∧
  (∀ self default codec_options media_tags,
     spatial_codecs codec_options = false →
     "HIRES_LOSSLESS" ∈ media_tags →
     (name MOBILE_DEFAULT ∈ available_sessions self →
        resolve self default HIFI codec_options media_tags =
          (MOBILE_DEFAULT, "HI_RES_LOSSLESS", Some fmt_flac_hires)) ∧
     (name MOBILE_DEFAULT ∉ available_sessions self →
        resolve self default HIFI codec_options media_tags = (default, "HI_RES", None))).
Proof.
  split; [done|]. split.
  - intros self default tier opts tags. unfold resolve. cbv zeta.
    destruct (in_list _ (available_sessions self)); unfold requested_quality;
      by case_bool_decide.
  - intros self default opts tags Hs Hhires.
    pose proof (choose_format_not_spatial self HIFI opts tags) as Hf.
    rewrite Hs, (in_list_true _ _ Hhires) in Hf. cbn in Hf. specialize (Hf I).
    split; intros Ha.
    + pose proof (resolve_available self default HIFI opts tags) as Hr.
      cbv zeta in Hr. rewrite Hf in Hr. by apply Hr.
    + pose proof (resolve_unavailable self default HIFI opts tags) as Hr.
      cbv zeta in Hr. rewrite Hf in Hr. by apply Hr.
Qed.

End resolver_claims.

Lemma spatial_tag_order_witness :
  Resolver.choose_format (Resolver.init Example.default_settings) Resolver.LOSSLESS
    Example.all_codecs ["DOLBY_ATMOS"; "SONY_360RA"] = Some Resolver.fmt_360ra ∧
  Resolver.choose_format (Resolver.init Example.default_settings) Resolver.LOSSLESS
    Example.all_codecs ["DOLBY_ATMOS"] = Some Resolver.fmt_ac3.
Proof.
  split.
  - apply (spatial_tag_order (Resolver.init Example.default_settings) Resolver.TV
             Resolver.LOSSLESS Example.all_codecs ["DOLBY_ATMOS"; "SONY_360RA"]); [reflexivity|].
    repeat constructor.
  - apply (spatial_tag_order (Resolver.init Example.default_settings) Resolver.TV
             Resolver.LOSSLESS Example.all_codecs ["DOLBY_ATMOS"]); [reflexivity| |].
    + by intros ?%list_elem_of_singleton.
    + repeat constructor.
Defined.

(** C2 as stated fails: for a track with both spatial tags and spatial
    codecs allowed, the format chosen and resolved is the 360 Reality Audio
    rendition, not an Atmos variant. *)
Lemma both_spatial_tags_resolve_to_360ra :
  "DOLBY_ATMOS" ∈ ["DOLBY_ATMOS"; "SONY_360RA"] ∧
  Resolver.spatial_codecs Example.all_codecs = true ∧
  Resolver.resolve (Resolver.init Example.default_settings) Resolver.TV Resolver.LOSSLESS
    Example.all_codecs ["DOLBY_ATMOS"; "SONY_360RA"]
    = (Resolver.MOBILE_DEFAULT, "LOSSLESS", Some Resolver.fmt_360ra) ∧
  Resolver.resolve (Resolver.init Example.default_settings) Resolver.TV Resolver.LOSSLESS
    Example.all_codecs ["SONY_360RA"; "DOLBY_ATMOS"]
    = (Resolver.MOBILE_DEFAULT, "LOSSLESS", Some Resolver.fmt_360ra).
Proof. split; [repeat constructor|]. repeat split. Qed.

Lemma atmos_resolves_spatial_or_degrades_witness :
  Resolver.resolve (Resolver.init Example.default_settings) Resolver.TV Resolver.HIFI
    Example.all_codecs ["HIRES_LOSSLESS"; "DOLBY_ATMOS"]
    = (Resolver.TV, "HI_RES", Some Resolver.fmt_ac3) ∧
  Resolver.resolve (Resolver.init Example.tv_only_ac4_settings) Resolver.TV Resolver.LOSSLESS
    Example.all_codecs ["DOLBY_ATMOS"]
    = (Resolver.TV, "LOSSLESS", None).
Proof.
  split.
  - apply (atmos_resolves_spatial_or_degrades (Resolver.init Example.default_settings)
             Resolver.TV Resolver.HIFI Example.all_codecs ["HIRES_LOSSLESS"; "DOLBY_ATMOS"]);
      [repeat constructor | reflexivity | repeat constructor].
  - apply (atmos_resolves_spatial_or_degrades (Resolver.init Example.tv_only_ac4_settings)
             Resolver.TV Resolver.LOSSLESS Example.all_codecs ["DOLBY_ATMOS"]);
      [repeat constructor | reflexivity |].
    by intros ?%list_elem_of_singleton.
Defined.

Lemma quality_string_table_witness :
  Resolver.resolve (Resolver.init Example.default_settings) Resolver.TV Resolver.HIFI
    Example.open_codecs_only ["HIRES_LOSSLESS"]
    = (Resolver.MOBILE_DEFAULT, "HI_RES_LOSSLESS", Some Resolver.fmt_flac_hires) ∧
  Resolver.resolve (Resolver.init Example.tv_only_settings) Resolver.TV Resolver.HIFI
    Example.open_codecs_only ["HIRES_LOSSLESS"]
    = (Resolver.TV, "HI_RES", None).
Proof.
  destruct quality_string_table as (_ & _ & Hscenario).
  split.
  - apply (Hscenario (Resolver.init Example.default_settings) Resolver.TV Example.open_codecs_only
             ["HIRES_LOSSLESS"]); [reflexivity | repeat constructor | repeat constructor].
  - apply (Hscenario (Resolver.init Example.tv_only_settings) Resolver.TV Example.open_codecs_only
             ["HIRES_LOSSLESS"]); [reflexivity | repeat constructor |].
    by intros ?%list_elem_of_singleton.
Defined.

(** C4 as stated fails: without mobile sessions, a HiFi request for a
    track with the HIRES_LOSSLESS tag and spatial codecs disallowed resolves
    to no format and the quality string HI_RES. *)
Lemma hires_without_mobile_session :
  Resolver.spatial_codecs Example.open_codecs_only = false ∧
  Resolver.available_sessions (Resolver.init Example.tv_only_settings) = ["TV"] ∧
  Resolver.choose_format (Resolver.init Example.tv_only_settings) Resolver.HIFI
    Example.open_codecs_only ["HIRES_LOSSLESS"] = Some Resolver.fmt_flac_hires ∧
  Resolver.resolve (Resolver.init Example.tv_only_settings) Resolver.TV Resolver.HIFI
    Example.open_codecs_only ["HIRES_LOSSLESS"] = (Resolver.TV, "HI_RES", None).
Proof. repeat split. Qed.

Section session_claims.
Context `{CodecTable} `{Resolver.Backend}.
Import Resolver.

(** C10, as the code has it: for a track with the DOLBY_ATMOS tag and
    spatial codecs disallowed, the session chosen is the default mobile
    session, not the TV session; when that session is available it
    becomes the default session and the first request for the stream goes
    to it.  When the chosen session is not available, for this or any
    other track, the default session is left as it was and the format is
    none: there is no switch to the mobile session. *)
Theorem atmos_without_spatial_uses_mobile :
  (∀ self default quality_tier codec_options media_tags,
     "DOLBY_ATMOS" ∈ media_tags →
     spatial_codecs codec_options = false →
     let format := choose_format self quality_tier codec_options media_tags in
     format ∈ [None; Some fmt_flac_hires] ∧
     choose_session format media_tags = MOBILE_DEFAULT ∧
     (name MOBILE_DEFAULT ∈ available_sessions self →
        resolve self default quality_tier codec_options media_tags =
          (MOBILE_DEFAULT, requested_quality quality_tier format, format) ∧
        ∀ track_id w, ∃ rest,
          requests (get_track_info self track_id quality_tier codec_options
                      media_tags w).2 =
            requests w ++
              (MOBILE_DEFAULT, track_id, requested_quality quality_tier format) :: rest)) ∧
  (∀ self default quality_tier codec_options media_tags,
     name (choose_session (choose_format self quality_tier codec_options media_tags)
             media_tags) ∉ available_sessions self →
     resolve self default quality_tier codec_options media_tags =
       (default, quality_parse quality_tier, None) ∧
     ∀ track_id w, default = Resolver.default w → ∃ rest,
       requests (get_track_info self track_id quality_tier codec_options media_tags w).2 =
         requests w ++ (default, track_id, quality_parse quality_tier) :: rest).
Proof.
  split.
  - intros self default tier opts tags Hatmos Hs format.
    assert (format = if in_list "HIRES_LOSSLESS" tags && bool_decide (tier = HIFI)
                     then Some fmt_flac_hires else None) as Hf.
    { subst format. apply choose_format_not_spatial. by rewrite Hs. }
    assert (choose_session format tags = MOBILE_DEFAULT) as Hsession.
    { rewrite Hf. unfold choose_session. rewrite (in_list_true _ _ Hatmos).
      by destruct (_ && _). }
    split; [|split; [exact Hsession|]].
    { rewrite Hf. destruct (_ && _); repeat constructor. }
    intros Ha.
    pose proof (resolve_available self default tier opts tags) as Hr.
    cbv zeta in Hr. fold format in Hr. rewrite Hsession in Hr. specialize (Hr Ha).
    split; [exact Hr|]. intros track_id w.
    pose proof (get_track_info_first_request self track_id tier opts tags w) as Hfirst.
    pose proof (resolve_available self (Resolver.default w) tier opts tags) as Hrw.
    cbv zeta in Hrw. fold format in Hrw. rewrite Hsession in Hrw.
    rewrite (Hrw Ha) in Hfirst. by destruct Hfirst as [_ Hfirst].
  - intros self default tier opts tags Hna.
    split; [by apply resolve_unavailable|].
    intros track_id w ->.
    pose proof (get_track_info_first_request self track_id tier opts tags w) as Hfirst.
    rewrite (resolve_unavailable self (Resolver.default w) tier opts tags Hna) in Hfirst.
    by destruct Hfirst as [_ Hfirst].
Qed.

End session_claims.

Lemma atmos_without_spatial_uses_mobile_witness :
  Resolver.resolve (Resolver.init Example.default_settings) Resolver.TV Resolver.HIFI
    Example.open_codecs_only ["DOLBY_ATMOS"]
    = (Resolver.MOBILE_DEFAULT, "HI_RES", None) ∧
  Resolver.resolve (Resolver.init Example.tv_only_settings) Resolver.TV Resolver.HIFI
    Example.open_codecs_only ["DOLBY_ATMOS"]
    = (Resolver.TV, "HI_RES", None).
Proof.
  destruct (atmos_without_spatial_uses_mobile (H:=Example.codecs)
              (H0:=Example.scenario_c_backend)) as [Hmobile Hkept].
  split.
  - apply (Hmobile (Resolver.init Example.default_settings) Resolver.TV Resolver.HIFI
             Example.open_codecs_only ["DOLBY_ATMOS"]);
      [repeat constructor | reflexivity | repeat constructor].
  - apply (Hkept (Resolver.init Example.tv_only_settings) Resolver.TV Resolver.HIFI
             Example.open_codecs_only ["DOLBY_ATMOS"]).
    by intros ?%list_elem_of_singleton.
Defined.

(** C10 as stated fails: without mobile sessions, an Atmos track keeps the
    TV session, both when its spatial format is dropped because the session
    of that format is not available and when spatial codecs are disallowed;
    the request for the stream goes to the TV session. *)
Lemma atmos_keeps_tv_session_without_mobile :
  Resolver.choose_format (Resolver.init Example.tv_only_ac4_settings) Resolver.LOSSLESS
    Example.all_codecs ["DOLBY_ATMOS"] = Some Resolver.fmt_ac4 ∧
  Resolver.resolve (Resolver.init Example.tv_only_ac4_settings) Resolver.TV Resolver.LOSSLESS
    Example.all_codecs ["DOLBY_ATMOS"] = (Resolver.TV, "LOSSLESS", None) ∧
  Resolver.requests
    (Resolver.get_track_info (H:=Example.codecs) (H0:=Example.scenario_c_backend)
       (Resolver.init Example.tv_only_ac4_settings) "42" Resolver.LOSSLESS
       Example.all_codecs ["DOLBY_ATMOS"] Example.fresh_world).2
    = [(Resolver.TV, "42", "LOSSLESS")] ∧
  Resolver.requests
    (Resolver.get_track_info (H:=Example.codecs) (H0:=Example.scenario_c_backend)
       (Resolver.init Example.tv_only_settings) "42" Resolver.LOSSLESS
       Example.open_codecs_only ["DOLBY_ATMOS"] Example.fresh_world).2
    = [(Resolver.TV, "42", "LOSSLESS")].
Proof. repeat split. Qed.

(** ** Resolution: the stream request, the manifest and the fallback *)

Section resolution_facts.
Context `{CodecTable} `{Resolver.Backend}.
Import Resolver ManifestSpec.

Lemma mapM_inv {A B} (f : A → result B) l bs :
  mapM f l = inr bs → Forall2 (λ a b, f a = inr b) l bs.
Proof.
  revert bs. induction l as [|a l IH]; intros bs; cbn.
  - intros [= <-]. constructor.
  - destruct (f a) as [e|b] eqn:Ha; [done|]. cbn.
    destruct (mapM f l) as [e|bs'] eqn:Hl; [done|]. cbn.
    intros [= <-]. constructor; [done|]. by apply IH.
Qed.

(** A parsed rendition carries the codec that the name of its [codecs]
    attribute selects. *)
Lemma parse_representation_codec adaptation_set rep t :
  Mpd.parse_representation adaptation_set rep = inr t →
  ∃ codecs, get rep "codecs" = Some codecs ∧
            CodecEnum_getitem (dash_codec_name codecs) = Some (Mpd.codec t).
Proof.
  unfold Mpd.parse_representation.
  destruct (negb _); [done|].
  destruct (get rep "codecs") as [codecs|]; [|done]. cbn [or_raise Py.bind].
  fold (dash_codec_name codecs).
  destruct (find rep "SegmentTemplate") as [st|]; [|done]. cbn [or_raise Py.bind].
  destruct (int_or (get st "startNumber") 1) as [?|start]; [done|]. cbn [Py.bind].
  destruct (match find st "SegmentTimeline" with Some _ => _ | None => _ end)
    as [?|track_urls]; [done|]. cbn [Py.bind].
  unfold CodecEnum_item.
  destruct (CodecEnum_getitem (dash_codec_name codecs)) as [c|] eqn:Hc; [|done].
  cbn [or_raise Py.bind].
  destruct (int_or (get rep "audioSamplingRate") 0) as [?|sr]; [done|]. cbn [Py.bind].
  destruct (int_or (get rep "bandwidth") 0) as [?|br]; [done|]. cbn [Py.bind Py.ret].
  intros [= <-]. by exists codecs.
Qed.

(** The JSON side of [read_manifest]. *)
Lemma read_manifest_json stream_data audio_track audio_track' manifest track_codec :
  manifestMimeType stream_data ≠ "application/dash+xml" →
  read_manifest stream_data audio_track = inr (audio_track', manifest, track_codec) →
  audio_track' = audio_track ∧
  ∃ raw m codecs,
    b64decode (Resolver.manifest stream_data) = inr raw ∧
    json_loads raw = inr m ∧
    manifest = manifest_dict m ∧
    json_codecs m = Some codecs ∧
    CodecEnum_getitem (json_codec_name codecs) = Some track_codec.
Proof.
  intros Hmime. unfold read_manifest. rewrite bool_decide_eq_false_2 by done.
  destruct (b64decode _) as [?|raw] eqn:Hraw; [done|]. cbn [Py.bind].
  destruct (json_loads raw) as [?|m] eqn:Hjson; [done|]. cbn [Py.bind].
  destruct (json_codecs m) as [codecs|] eqn:Hcodecs; [|done]. cbn [or_raise Py.bind].
  fold (json_codec_name codecs). unfold CodecEnum_item.
  destruct (CodecEnum_getitem (json_codec_name codecs)) as [c|] eqn:Hc; [|done].
  cbn. intros [= <- <- <-]. split; [done|]. by exists raw, m, codecs.
Qed.

(** [finish] for a stream without segments: it returns as soon as the
    audio quality of the stream is one the bitrate table knows. *)
Lemma finish_single_url stream_data mqa_file track_codec download_args error b :
  fallback_bitrate (audioQuality stream_data) = inr b →
  ∃ track_info,
    finish (Some stream_data) None mqa_file track_codec download_args error
      = inr track_info ∧
    codec track_info = track_codec ∧
    download_extra_kwargs track_info = download_args ∧
    Resolver.error track_info = (λ e, "Error: " +:+ e) <$> error.
Proof.
  intros Hb. unfold finish. rewrite Hb. cbn [Py.bind].
  repeat case_bool_decide; cbn [Py.bind Py.ret]; destruct mqa_file as [f|];
    try destruct (is_mqa f); eexists; (split; [reflexivity|]); done.
Qed.

(** The stream request refused by the backend: one request, no stream,
    and the defaults in the result. *)
Lemma stream_and_build_refused self track_id codec_options quality w e :
  session_get_stream_url (default w) track_id quality = inl (TidalRequestError e) →
  ∃ track_info,
    stream_and_build self track_id codec_options quality w =
      (inr track_info,
       {| default := default w;
          requests := requests w ++ [(default w, track_id, quality)];
          printed := printed w |}) ∧
    codec track_info = FLAC ∧
    bitrate track_info = None ∧
    download_extra_kwargs track_info = None ∧
    Resolver.error track_info =
      Some ("Error: " +:+
            (if contains "Asset is not ready for playback" e
             then "Track [" +:+ track_id +:+ "] is not available in your region"
             else e)).
Proof.
  intros He. unfold stream_and_build, try_get_stream_url, get_stream_url, bindM.
  rewrite He. cbn [lift]. unfold finish. cbn [Py.bind Py.ret fmap option_fmap option_map].
  eexists. split; [reflexivity|]. done.
Qed.

(** The fallback: when the codec of the first manifest is withheld, the
    stream is requested once more, at LOSSLESS, from the same session, and
    the result is built from the second stream; of the first manifest
    only the audio track is passed on, for [read_manifest] to replace. *)
Lemma fallback_refetch self track_id codec_options quality w sd1 at1 m1 c1 :
  session_get_stream_url (default w) track_id quality = inr sd1 →
  read_manifest sd1 None = inr (at1, m1, c1) →
  withheld codec_options c1 = true →
  stream_and_build self track_id codec_options quality w =
    let w2 := {| default := default w;
                 requests := requests w ++ [(default w, track_id, quality);
                                             (default w, track_id, "LOSSLESS")];
                 printed := printed w ++ [ProprietaryCodecsDisabled] |} in
    match session_get_stream_url (default w) track_id "LOSSLESS" with
    | inl e => (inl e, w2)
    | inr sd2 =>
        match read_manifest sd2 at1 with
        | inl e => (inl e, w2)
        | inr (at2, m2, c2) => (build self sd2 at2 m2 c2 None, w2)
        end
    end.
Proof.
  intros H1 Hm Hw. unfold stream_and_build, try_get_stream_url, get_stream_url, bindM.
  rewrite H1. cbn [lift]. rewrite Hm, Hw. cbn [print default requests printed].
  rewrite <- app_assoc. cbn [app].
  destruct (session_get_stream_url (default w) track_id "LOSSLESS") as [e|sd2]; [done|].
  by destruct (read_manifest sd2 at1) as [e|[[at2 m2] c2]].
Qed.

(** Without the fallback there is exactly one request. *)
Lemma no_fallback_single_request self track_id codec_options quality w sd1 at1 m1 c1 :
  session_get_stream_url (default w) track_id quality = inr sd1 →
  read_manifest sd1 None = inr (at1, m1, c1) →
  withheld codec_options c1 = false →
  stream_and_build self track_id codec_options quality w =
    (build self sd1 at1 m1 c1 None,
     {| default := default w;
        requests := requests w ++ [(default w, track_id, quality)];
        printed := printed w |}).
Proof.
  intros H1 Hm Hw. unfold stream_and_build, try_get_stream_url, get_stream_url, bindM.
  rewrite H1. cbn [lift]. by rewrite Hm, Hw.
Qed.

End resolution_facts.

Section resolution_claims.
Context `{CodecTable} `{Resolver.Backend} `{Assembler.Tools}.
Import Resolver ManifestSpec.

(** C9: when the backend refuses the stream request with the message of
    a region lock, [get_track_info] does not raise: it returns a track
    info whose error field carries the annotation, with no download
    arguments, no bitrate and the default codec, after that one request. *)
Theorem region_lock_is_annotated self track_id quality_tier codec_options media_tags w
    session quality format e :
  resolve self (default w) quality_tier codec_options media_tags
    = (session, quality, format) →
  session_get_stream_url session track_id quality = inl (TidalRequestError e) →
  contains "Asset is not ready for playback" e = true →
  ∃ track_info,
    get_track_info self track_id quality_tier codec_options media_tags w =
      (inr track_info,
       {| default := session;
          requests := requests w ++ [(session, track_id, quality)];
          printed := printed w |}) ∧
    Resolver.error track_info =
      Some ("Error: Track [" +:+ track_id +:+ "] is not available in your region") ∧
    download_extra_kwargs track_info = None ∧
    bitrate track_info = None ∧
    codec track_info = FLAC.
Proof.
  intros Hres He Hlock. rewrite get_track_info_resolve, Hres.
  destruct (stream_and_build_refused self track_id codec_options quality
              {| default := session; requests := requests w; printed := printed w |} e He)
    as (track_info & Hrun & Hcodec & Hbitrate & Hargs & Herror).
  exists track_info. rewrite Hlock in Herror. done.
Qed.

(** C7: the codec of every rendition that [parse_mpd] returns is the
    member of the codec enumeration named AAC when the upper-cased
    [codecs] attribute begins with MP4A, and the member named by the
    upper-cased attribute otherwise; a JSON manifest has the member named
    AAC when its [codecs] mentions mp4a, and the member named by the
    upper-cased value otherwise.  So on both paths an identifier that
    begins with mp4a is AAC and an identifier without the tag keeps its
    upper-cased name.  For the JSON manifest with codecs mp4a.40.2 and
    the single URL http://x/a.m4a, in a codec table where AAC is a member
    that is not withheld, the track info has codec AAC and that URL as its
    download argument after the one request, and [get_track_download]
    returns the URL itself, touching no file. *)
Theorem codec_normalization :
  (∀ root tracks,
     Mpd.parse_root root = inr tracks →
     Forall2 (λ ar t, ∃ codecs,
                get ar.2 "codecs" = Some codecs ∧
                CodecEnum_getitem (if startswith (upper codecs) "MP4A"
                                   then "AAC" else upper codecs) = Some (Mpd.codec t))
             (Mpd.representations root) tracks) ∧
  (∀ stream_data audio_track audio_track' manifest track_codec,
     manifestMimeType stream_data ≠ "application/dash+xml" →
     read_manifest stream_data audio_track = inr (audio_track', manifest, track_codec) →
     ∃ raw m codecs,
       b64decode (Resolver.manifest stream_data) = inr raw ∧
       json_loads raw = inr m ∧
       json_codecs m = Some codecs ∧
       CodecEnum_getitem (if contains "mp4a" codecs then "AAC" else upper codecs)
         = Some track_codec) ∧
  (∀ codecs, startswith codecs "mp4a" = true →
     dash_codec_name codecs = "AAC" ∧ json_codec_name codecs = "AAC") ∧
  (∀ codecs, contains "MP4A" (upper codecs) = false →
     dash_codec_name codecs = upper codecs ∧ json_codec_name codecs = upper codecs) ∧
  (∀ self track_id codec_options quality w stream_data raw aac b,
     session_get_stream_url (default w) track_id quality = inr stream_data →
     manifestMimeType stream_data ≠ "application/dash+xml" →
     b64decode (Resolver.manifest stream_data) = inr raw →
     json_loads raw = inr {| json_codecs := Some "mp4a.40.2";
                             json_urls := Some ["http://x/a.m4a"] |} →
     CodecEnum_getitem "AAC" = Some aac →
     withheld codec_options aac = false →
     aac ≠ MQA →
     fallback_bitrate (audioQuality stream_data) = inr b →
     (∃ track_info,
        stream_and_build self track_id codec_options quality w =
          (inr track_info,
           {| default := default w;
              requests := requests w ++ [(default w, track_id, quality)];
              printed := printed w |}) ∧
        codec track_info = aac ∧
        download_extra_kwargs track_info = Some (file_url_args "http://x/a.m4a" aac)) ∧
     ∀ disk,
       Assembler.get_track_download (Some "http://x/a.m4a") None disk =
         (inr {| Assembler.download_type := Assembler.URL;
                 Assembler.file_url := Some "http://x/a.m4a";
                 Assembler.temp_file_path := None |}, disk)).
Proof.
  split; [|split; [|split; [|split]]].
  - intros root tracks Hroot. unfold Mpd.parse_root in Hroot.
    apply mapM_inv in Hroot. eapply Forall2_impl; [exact Hroot|].
    intros [a r] t Ht. by apply (parse_representation_codec a r t).
  - intros sd at0 at1 m c Hmime Hread.
    destruct (read_manifest_json sd at0 at1 m c Hmime Hread)
      as (_ & raw & jm & codecs & Hraw & Hjson & _ & Hcodecs & Hc).
    by exists raw, jm, codecs.
  - apply mp4a_codec_name.
  - apply other_codec_name.
  - intros self track_id opts quality w sd raw aac b Hsd Hmime Hraw Hjson Haac Hprop
      Hmqa Hb.
    split; [|done].
    assert (read_manifest sd None =
              inr (None, manifest_dict {| json_codecs := Some "mp4a.40.2";
                                          json_urls := Some ["http://x/a.m4a"] |}, aac))
      as Hread.
    { unfold read_manifest. rewrite bool_decide_eq_false_2 by done.
      rewrite Hraw. cbn [Py.bind]. rewrite Hjson. cbn [Py.bind json_codecs or_raise].
      change (contains "mp4a" "mp4a.40.2") with true. cbv iota.
      unfold CodecEnum_item. by rewrite Haac. }
    rewrite (no_fallback_single_request self track_id opts quality w sd _ _ _ Hsd Hread).
    2: { exact Hprop. }
    unfold build, download_arguments.
    rewrite (bool_decide_eq_false_2 (aac = MQA)) by done.
    cbn [andb Py.bind Py.ret first_url json_urls or_raise head].
    destruct (finish_single_url sd None aac
                (Some (file_url_args "http://x/a.m4a" aac)) None b Hb)
      as (track_info & -> & Hcodec & Hargs & _).
    by exists track_info.
Qed.

End resolution_claims.

Lemma region_lock_is_annotated_witness :
  ∃ track_info,
    Resolver.get_track_info (H:=Example.codecs) (H0:=Example.region_locked_backend)
      (Resolver.init Example.default_settings) "42" Resolver.HIGH Example.all_codecs []
      Example.fresh_world =
      (inr track_info,
       {| Resolver.default := Resolver.TV;
          Resolver.requests := [(Resolver.TV, "42", "HIGH")];
          Resolver.printed := [] |}) ∧
    Resolver.error track_info = Some "Error: Track [42] is not available in your region" ∧
    Resolver.download_extra_kwargs track_info = None ∧
    Resolver.bitrate track_info = None ∧
    Resolver.codec track_info = Example.cFLAC.
Proof.
  apply (region_lock_is_annotated (H:=Example.codecs) (H0:=Example.region_locked_backend)
           (Resolver.init Example.default_settings) "42" Resolver.HIGH Example.all_codecs []
           Example.fresh_world Resolver.TV "HIGH" None "Asset is not ready for playback");
    reflexivity.
Defined.

Lemma codec_normalization_witness :
  (∃ track_info,
     Resolver.stream_and_build (H:=Example.codecs) (H0:=Example.scenario_c_backend)
       (Resolver.init Example.default_settings) "42" Example.open_codecs_only "HIGH"
       Example.fresh_world =
       (inr track_info,
        {| Resolver.default := Resolver.TV;
           Resolver.requests := [(Resolver.TV, "42", "HIGH")];
           Resolver.printed := [] |}) ∧
     Resolver.codec track_info = Example.cAAC ∧
     Resolver.download_extra_kwargs track_info =
       Some (Resolver.file_url_args "http://x/a.m4a" Example.cAAC)) ∧
  ManifestSpec.dash_codec_name "mp4a.40.2" = "AAC" ∧
  ManifestSpec.json_codec_name "flac" = "FLAC".
Proof.
  destruct (codec_normalization (H:=Example.codecs) (H0:=Example.scenario_c_backend)
              (H1:=Example.working_tools)) as (_ & _ & Hmp4a & Hother & Hscenario).
  split; [|split].
  - apply (Hscenario (Resolver.init Example.default_settings) "42" Example.open_codecs_only
             "HIGH" Example.fresh_world
             {| Resolver.manifestMimeType := "application/vnd.tidal.bts";
                Resolver.manifest := "scenario-c";
                Resolver.audioQuality := "HIGH"; Resolver.audioMode := "STEREO" |}
             "scenario-c" Example.cAAC (Some 320%Z)); try reflexivity; discriminate.
  - apply (Hmp4a "mp4a.40.2"). reflexivity.
  - apply (Hother "flac"). reflexivity.
Defined.

(** C5: on this input the first manifest is not discarded.  The HiFi
    request is answered with a segmented manifest whose codec is MQA, which
    is withheld; the second request, at LOSSLESS and to the same session,
    is answered with a single-URL FLAC manifest.  There are exactly these
    two requests and the codec of the result is FLAC, but the download
    arguments are the audio track of the first manifest, with its MQA codec
    and its segment URLs, although the second manifest read on its own
    gives no audio track at all. *)
Theorem fallback_keeps_first_rendition :
  ∃ track_info audio_track second_manifest,
    Resolver.get_track_info (H:=Example.codecs) (H0:=Example.mixed_backend)
      (Resolver.init Example.default_settings) "42" Resolver.HIFI
      Example.open_codecs_only [] Example.fresh_world =
      (inr track_info,
       {| Resolver.default := Resolver.TV;
          Resolver.requests := [(Resolver.TV, "42", "HI_RES");
                                (Resolver.TV, "42", "LOSSLESS")];
          Resolver.printed := [Resolver.ProprietaryCodecsDisabled] |}) ∧
    Resolver.codec track_info = Example.cFLAC ∧
    Resolver.download_extra_kwargs track_info =
      Some (Resolver.audio_track_args audio_track) ∧
    Mpd.codec audio_track = Example.cMQA ∧
    Mpd.urls audio_track = [Some "https://x/mqa/init.mp4"; Some "https://x/mqa/1.mp4";
                            Some "https://x/mqa/2.mp4"] ∧
    Resolver.read_manifest (H:=Example.codecs) (H0:=Example.mixed_backend)
      {| Resolver.manifestMimeType := "application/vnd.tidal.bts";
         Resolver.manifest := "json-flac";
         Resolver.audioQuality := "LOSSLESS"; Resolver.audioMode := "STEREO" |} None
      = inr (None, second_manifest, Example.cFLAC) ∧
    Resolver.first_url second_manifest = inr "http://x/a.flac".
Proof. do 3 eexists. repeat split. Qed.

(** ** Segment assembly *)

Section assembler_facts.
Context `{CodecTable} `{Assembler.Tools}.
Import Assembler.

Lemma download_to_temp_ok url b extension d :
  http_get url = inr b →
  download_to_temp (Some url) extension d =
    (inr (next_temp d, extension),
     {| files := <[(next_temp d, extension) := b]> (files d);
        next_temp := S (next_temp d); warnings := warnings d |}).
Proof.
  intros Hget. unfold download_to_temp, bindM, lift, create_temp_filename, write_file, retM.
  cbn [or_raise]. by rewrite Hget.
Qed.

Lemma download_all urls bodies d :
  Forall2 (λ u b, ∃ url, u = Some url ∧ http_get url = inr b) urls bodies →
  ∃ d',
    forM urls (λ download_url, download_to_temp download_url "mp4") d =
      (inr ((λ i, (i, "mp4")) <$> seq (next_temp d) (length urls)), d') ∧
    next_temp d' = (next_temp d + length urls)%nat ∧
    warnings d' = warnings d ∧
    Forall2 (λ i b, files d' !! (i, "mp4") = Some b)
            (seq (next_temp d) (length urls)) bodies ∧
    ∀ l : location, (l.1 < next_temp d)%nat → files d' !! l = files d !! l.
Proof.
  intros Hall. revert d.
  induction Hall as [|u b urls bodies (url & -> & Hget) _ IH]; intros d.
  - exists d. cbn. rewrite Nat.add_0_r. repeat split. constructor.
  - destruct (IH {| files := <[(next_temp d, "mp4") := b]> (files d);
                    next_temp := S (next_temp d); warnings := warnings d |})
      as (d' & Hrun & Hnext & Hwarn & Hfiles & Hlow).
    cbn [next_temp warnings files] in *.
    exists d'. cbn [forM]. unfold bindM at 1.
    rewrite (download_to_temp_ok url b "mp4" d Hget).
    unfold bindM at 1. rewrite Hrun. unfold retM.
    cbn [length seq fmap list_fmap]. split; [done|].
    split; [rewrite Hnext; lia|]. split; [done|]. split.
    + constructor; [|exact Hfiles].
      rewrite Hlow by (cbn; lia). apply lookup_insert_eq.
    + intros l Hl. rewrite Hlow by (cbn; lia).
      apply lookup_insert_ne. intros <-. cbn in Hl. lia.
Qed.

Lemma concatenate_ok locations bodies d :
  Forall2 (λ l b, files d !! l = Some b) locations bodies →
  concatenate locations d = (inr (foldr String.append "" bodies), d).
Proof.
  induction 1 as [|l b locations bodies Hl _ IH]; [done|].
  cbn [concatenate foldr]. unfold bindM at 1. unfold read_file. rewrite Hl. cbn [or_raise].
  unfold bindM at 1. by rewrite IH.
Qed.

Lemma remux_failure_keeps_every_segment audio_track bodies d e :
  Forall2 (λ u b, ∃ url, u = Some url ∧ http_get url = inr b)
          (Mpd.urls audio_track) bodies →
  let n := length (Mpd.urls audio_track) in
  let merged_temp_location := ((next_temp d + n)%nat, "mp4") in
  let output_location :=
    (S (next_temp d + n), codec_container (Mpd.codec audio_track)) in
  ffmpeg_run (foldr String.append "" bodies) output_location = inl e →
  ∃ d',
    get_track_download None (Some audio_track) d =
      (inr {| download_type := TEMP_FILE_PATH; file_url := None;
              temp_file_path := Some merged_temp_location |}, d') ∧
    warnings d' =
      warnings d ++ ["FFmpeg is not installed or working! Using fallback, may have errors"] ∧
    files d' !! merged_temp_location = Some (foldr String.append "" bodies) ∧
    Forall2 (λ i b, files d' !! (i, "mp4") = Some b) (seq (next_temp d) n) bodies.
Proof.
  intros Hall n merged output Hffmpeg.
  destruct (download_all _ _ d Hall) as (d1 & Hrun & Hnext & Hwarn & Hfiles & _).
  fold n in Hrun, Hnext, Hfiles.
  assert (concatenate ((λ i, (i, "mp4")) <$> seq (next_temp d) n)
            {| files := files d1; next_temp := S (S (next_temp d1));
               warnings := warnings d1 |}
          = (inr (foldr String.append "" bodies),
             {| files := files d1; next_temp := S (S (next_temp d1));
                warnings := warnings d1 |})) as Hcat.
  { apply concatenate_ok. by apply Forall2_fmap_l. }
  eexists. split.
  - unfold get_track_download. cbn [truthy]. unfold bindM at 1. cbn [lift or_raise].
    unfold bindM at 1. rewrite Hrun.
    unfold bindM at 1. unfold create_temp_filename at 1.
    unfold bindM at 1. unfold create_temp_filename at 1. cbn [next_temp files warnings].
    unfold bindM at 1. rewrite Hcat.
    unfold bindM at 1. unfold write_file at 1. cbn [next_temp files warnings].
    unfold try_except, remux_and_clean.
    unfold bindM at 1. unfold bindM at 1. unfold bindM at 1. unfold read_file at 1.
    cbn [files]. rewrite Hnext, lookup_insert_eq. cbn [or_raise lift].
    fold output. rewrite Hffmpeg. unfold print, bindM, retM. cbn [files next_temp warnings].
    reflexivity.
  - cbn [warnings files]. split; [by rewrite Hwarn|]. split.
    + subst merged. by rewrite lookup_insert_eq.
    + apply Forall2_same_length_lookup_2.
      { by apply Forall2_length in Hfiles. }
      intros k i b Hi Hb.
      rewrite lookup_insert_ne.
      * by apply (Forall2_lookup_lr _ _ _ _ _ _ Hfiles Hi Hb).
      * apply lookup_seq in Hi as [-> Hk]. intros [= Heq]. lia.
Qed.

Lemma remove_all locations d :
  ∃ d',
    forM locations silentremove d = (inr ((λ _, ()) <$> locations), d') ∧
    next_temp d' = next_temp d ∧
    warnings d' = warnings d ∧
    (∀ l, l ∈ locations → files d' !! l = None) ∧
    (∀ l, l ∉ locations → files d' !! l = files d !! l).
Proof.
  revert d. induction locations as [|l0 locations IH]; intros d.
  - exists d. split; [done|]. split; [done|]. split; [done|].
    split; [by intros l ?%elem_of_nil | done].
  - destruct (IH {| files := delete l0 (files d); next_temp := next_temp d;
                    warnings := warnings d |})
      as (d' & Hrun & Hnext & Hwarn & Hin & Hout).
    cbn [next_temp warnings files] in *.
    exists d'. cbn [forM]. unfold bindM at 1. unfold silentremove at 1.
    unfold bindM at 1. rewrite Hrun. unfold retM.
    split; [done|]. split; [done|]. split; [done|]. split.
    + intros l [->|Hl]%elem_of_cons; [|by apply Hin].
      destruct (decide (l0 ∈ locations)) as [Hl|Hl]; [by apply Hin|].
      rewrite (Hout _ Hl). apply lookup_delete_eq.
    + intros l [Hne Hl]%not_elem_of_cons. rewrite (Hout _ Hl).
      by apply lookup_delete_ne.
Qed.

(** On the success path the merged file and every segment file are
    removed, and the output of the remux is returned. *)
Lemma remux_success_removes_every_segment audio_track bodies d output :
  Forall2 (λ u b, ∃ url, u = Some url ∧ http_get url = inr b)
          (Mpd.urls audio_track) bodies →
  let n := length (Mpd.urls audio_track) in
  let merged_temp_location := ((next_temp d + n)%nat, "mp4") in
  let output_location :=
    (S (next_temp d + n), codec_container (Mpd.codec audio_track)) in
  ffmpeg_run (foldr String.append "" bodies) output_location = inr output →
  ∃ d',
    get_track_download None (Some audio_track) d =
      (inr {| download_type := TEMP_FILE_PATH; file_url := None;
              temp_file_path := Some output_location |}, d') ∧
    warnings d' = warnings d ∧
    files d' !! output_location = Some output ∧
    files d' !! merged_temp_location = None ∧
    Forall (λ i, files d' !! (i, "mp4") = None) (seq (next_temp d) n).
Proof.
  intros Hall n merged output_location Hffmpeg.
  destruct (download_all _ _ d Hall) as (d1 & Hrun & Hnext & Hwarn & Hfiles & _).
  fold n in Hrun, Hnext, Hfiles.
  assert (concatenate ((λ i, (i, "mp4")) <$> seq (next_temp d) n)
            {| files := files d1; next_temp := S (S (next_temp d1));
               warnings := warnings d1 |}
          = (inr (foldr String.append "" bodies),
             {| files := files d1; next_temp := S (S (next_temp d1));
                warnings := warnings d1 |})) as Hcat.
  { apply concatenate_ok. by apply Forall2_fmap_l. }
  assert (output_location ∉ (λ i, (i, "mp4")) <$> seq (next_temp d) n) as Hfresh.
  { intros (i & Heq & Hi)%list_elem_of_fmap. apply elem_of_seq in Hi.
    subst output_location. injection Heq as Heq _. lia. }
  destruct (get_track_download None (Some audio_track) d) as [r d2] eqn:Hrun2.
  unfold get_track_download in Hrun2. cbn [truthy] in Hrun2.
  unfold bindM at 1 in Hrun2. cbn [lift or_raise] in Hrun2.
  unfold bindM at 1 in Hrun2. rewrite Hrun in Hrun2.
  unfold bindM at 1 in Hrun2. unfold create_temp_filename at 1 in Hrun2.
  unfold bindM at 1 in Hrun2. unfold create_temp_filename at 1 in Hrun2.
  cbn [next_temp files warnings] in Hrun2.
  unfold bindM at 1 in Hrun2. rewrite Hcat in Hrun2.
  unfold bindM at 1 in Hrun2. unfold write_file at 1 in Hrun2.
  cbn [next_temp files warnings] in Hrun2.
  unfold try_except, remux_and_clean in Hrun2.
  unfold bindM at 1 in Hrun2. unfold bindM at 1 in Hrun2. unfold bindM at 1 in Hrun2.
  unfold read_file at 1 in Hrun2.
  cbn [files] in Hrun2. rewrite Hnext, lookup_insert_eq in Hrun2.
  cbn [or_raise lift] in Hrun2. fold output_location in Hrun2. rewrite Hffmpeg in Hrun2.
  unfold bindM at 1 in Hrun2. unfold write_file at 1 in Hrun2.
  cbn [next_temp files warnings] in Hrun2.
  unfold bindM at 1 in Hrun2. unfold silentremove at 1 in Hrun2.
  cbn [next_temp files warnings] in Hrun2.
  unfold bindM at 1 in Hrun2.
  match type of Hrun2 with
  | context [forM ?locations silentremove ?disk] =>
      destruct (remove_all locations disk) as (d3 & Hremove & _ & Hwarn3 & Hgone & Hkept)
  end.
  rewrite Hremove in Hrun2. injection Hrun2 as <- <-.
  cbn [files warnings] in Hwarn3, Hkept. fold merged in Hkept.
  exists d3. split; [done|].
  split; [by rewrite Hwarn3|]. split; [|split].
  - rewrite (Hkept _ Hfresh). rewrite lookup_delete_ne, lookup_insert_eq; [done|].
    subst merged output_location. intros [= Heq]. lia.
  - destruct (decide (merged ∈ (λ i, (i, "mp4")) <$> seq (next_temp d) n)) as [Hm|Hm].
    + by apply Hgone.
    + rewrite (Hkept _ Hm). apply lookup_delete_eq.
  - apply Forall_forall. intros i Hi. apply Hgone. apply list_elem_of_fmap. eauto.
Qed.

End assembler_facts.

(** C8: on this input the segment files are not deleted.  Both segments of
    the rendition download, ffmpeg is not installed; [get_track_download]
    prints the warning and returns the merged file, which is kept, and the
    two temporary segment files are still there.  With ffmpeg working, the
    same rendition leaves the output file alone: the merged file and the
    segment files are deleted. *)
Theorem remux_failure_keeps_segment_files :
  let audio_track :=
    {| Mpd.codec := Example.cFLAC; Mpd.sample_rate := 44100; Mpd.bitrate := 1411000;
       Mpd.urls := [Some "https://x/init.mp4"; Some "https://x/1.mp4"] |} in
  (∃ disk,
     Assembler.get_track_download (H:=Example.codecs) (H0:=Example.broken_tools)
       None (Some audio_track) Example.empty_disk =
       (inr {| Assembler.download_type := Assembler.TEMP_FILE_PATH;
               Assembler.file_url := None;
               Assembler.temp_file_path := Some (2%nat, "mp4") |}, disk) ∧
     Assembler.warnings disk =
       ["FFmpeg is not installed or working! Using fallback, may have errors"] ∧
     Assembler.files disk !! (2%nat, "mp4") =
       Some "<https://x/init.mp4><https://x/1.mp4>" ∧
     Assembler.files disk !! (0%nat, "mp4") = Some "<https://x/init.mp4>" ∧
     Assembler.files disk !! (1%nat, "mp4") = Some "<https://x/1.mp4>") ∧
  (∃ disk,
     Assembler.get_track_download (H:=Example.codecs) (H0:=Example.working_tools)
       None (Some audio_track) Example.empty_disk =
       (inr {| Assembler.download_type := Assembler.TEMP_FILE_PATH;
               Assembler.file_url := None;
               Assembler.temp_file_path := Some (3%nat, "flac") |}, disk) ∧
     Assembler.warnings disk = [] ∧
     Assembler.files disk = {[ (3%nat, "flac") := "<https://x/init.mp4><https://x/1.mp4>" ]}).
Proof.
  intros audio_track. split.
  - exists (Assembler.get_track_download (H:=Example.codecs) (H0:=Example.broken_tools)
              None (Some audio_track) Example.empty_disk).2.
    repeat split; vm_compute; reflexivity.
  - exists (Assembler.get_track_download (H:=Example.codecs) (H0:=Example.working_tools)
              None (Some audio_track) Example.empty_disk).2.
    repeat split; vm_compute; reflexivity.
Qed.

(** * Further properties of the code *)

(** ** [get_track_info]: sessions and requests *)

Section resolution_invariants.
Context `{CodecTable} `{Resolver.Backend}.
Import Resolver.

Lemma quality_parse_not_hires_lossless quality_tier :
  quality_parse quality_tier ≠ "HI_RES_LOSSLESS".
Proof. by destruct quality_tier. Qed.

Lemma fallback_bitrate_unknown audio_quality :
  audio_quality ∉ ["LOW"; "HIGH"; "LOSSLESS"; "HI_RES"; "HI_RES_LOSSLESS"] →
  fallback_bitrate audio_quality = inl (KeyError audio_quality).
Proof.
  intros Hq. unfold fallback_bitrate.
  repeat (case_bool_decide; [exfalso; apply Hq; subst; repeat constructor|]).
  done.
Qed.

(** X1: [get_track_info] never makes an unavailable session the default:
    if [self.session.default] names an available session before the call,
    it does so afterwards, whatever the backend answers. *)
Theorem default_session_stays_available self track_id quality_tier codec_options
    media_tags w :
  name (default w) ∈ available_sessions self →
  name (default (get_track_info self track_id quality_tier codec_options media_tags w).2)
    ∈ available_sessions self.
Proof.
  intros Hdefault.
  pose proof (get_track_info_first_request self track_id quality_tier codec_options
                media_tags w) as Hfirst.
  unfold resolve in Hfirst. cbv zeta in Hfirst.
  destruct (in_list (name (choose_session _ media_tags)) (available_sessions self)) eqn:Ha.
  - destruct Hfirst as [-> _]. unfold in_list in Ha. by apply bool_decide_eq_true in Ha.
  - by destruct Hfirst as [-> _].
Qed.


(** X3: the hi-res lossless stream is requested exactly when the tier is
    HiFi, the track has the HIRES_LOSSLESS tag, no spatial format was
    chosen for it, and the default mobile session is available. *)
Theorem hires_lossless_requested_iff self default quality_tier codec_options media_tags :
  (resolve self default quality_tier codec_options media_tags).1.2 = "HI_RES_LOSSLESS" ↔
  quality_tier = HIFI ∧
  "HIRES_LOSSLESS" ∈ media_tags ∧
  (spatial_codecs codec_options = true →
     ("SONY_360RA" ∉ media_tags) ∧ ("DOLBY_ATMOS" ∉ media_tags)) ∧
  name MOBILE_DEFAULT ∈ available_sessions self.
Proof.
  unfold resolve. cbv zeta.
  set (format := choose_format self quality_tier codec_options media_tags).
  assert (format = Some fmt_flac_hires ↔
          quality_tier = HIFI ∧ "HIRES_LOSSLESS" ∈ media_tags ∧
          (spatial_codecs codec_options = true →
             ("SONY_360RA" ∉ media_tags) ∧ ("DOLBY_ATMOS" ∉ media_tags))) as Hformat.
  { subst format. unfold choose_format, in_list.
    destruct (spatial_codecs codec_options); repeat case_bool_decide; cbn;
      try destruct (_bool_setting _ _ _); cbn; split;
      try (intros [= ?]); try (intros (? & ? & ?)); try done;
      try (repeat split; done); try (by intros [? ?]);
      try match goal with
          | Hs : true = true → _ |- _ => destruct (Hs eq_refl); done
          | Hn : ¬ is_Some (Some _) |- _ => exfalso; apply Hn; eauto
          end. }
  destruct (in_list (name (choose_session format media_tags)) (available_sessions self))
    eqn:Ha; cbn [fst snd]; unfold requested_quality.
  - case_bool_decide as Hf; cbn [negb].
    + split; [intros _|done]. apply Hformat in Hf as Hconds.
      destruct Hconds as (? & ? & ?). repeat split; try done; try tauto.
      rewrite Hf in Ha. unfold in_list in Ha. by apply bool_decide_eq_true in Ha.
    + split; [by intros ?%quality_parse_not_hires_lossless|].
      intros (? & ? & ? & ?). exfalso. apply Hf. apply Hformat. tauto.
  - rewrite bool_decide_eq_false_2 by done. cbn [negb].
    split; [by intros ?%quality_parse_not_hires_lossless|].
    intros (Ht & Hh & Hs & Hm). exfalso.
    assert (format = Some fmt_flac_hires) as Hf by (apply Hformat; tauto).
    rewrite Hf in Ha. unfold in_list in Ha. apply bool_decide_eq_false in Ha. by apply Ha.
Qed.

(** X4: an audio quality that the bitrate table does not list makes the
    resolution raise a [KeyError] with that string, after the stream was
    requested and its manifest read without fault. *)
Theorem unknown_audio_quality_raises self track_id codec_options quality w stream_data
    audio_track manifest track_codec arguments :
  session_get_stream_url (default w) track_id quality = inr stream_data →
  read_manifest stream_data None = inr (audio_track, manifest, track_codec) →
  withheld codec_options track_codec = false →
  download_arguments self audio_track manifest track_codec = inr arguments →
  audioQuality stream_data ∉ ["LOW"; "HIGH"; "LOSSLESS"; "HI_RES"; "HI_RES_LOSSLESS"] →
  stream_and_build self track_id codec_options quality w =
    (inl (KeyError (audioQuality stream_data)),
     {| default := default w;
        requests := requests w ++ [(default w, track_id, quality)];
        printed := printed w |}).
Proof.
  intros Hsd Hread Hw Hargs Hq.
  rewrite (no_fallback_single_request self track_id codec_options quality w
             stream_data _ _ _ Hsd Hread Hw).
  unfold build. rewrite Hargs. destruct arguments as [mqa_file download_args].
  cbn [Py.bind]. unfold finish. by rewrite (fallback_bitrate_unknown _ Hq).
Qed.

End resolution_invariants.

(** ** [parse_mpd]: errors and the shape of every result *)

Section parser_edges.
Context `{CodecTable}.

Lemma mapM_inl {A B} (f : A → result B) l e :
  mapM f l = inl e → ∃ a, a ∈ l ∧ f a = inl e.
Proof.
  induction l as [|a l IH]; cbn; [done|].
  destruct (f a) as [e'|b] eqn:Ha; cbn.
  - intros [= <-]. exists a. split; [constructor | done].
  - destruct (mapM f l) as [e'|bs]; cbn; [|done].
    intros [= <-]. destruct IH as (a' & Hin & Ha'); [done|].
    exists a'. split; [by constructor | done].
Qed.

Lemma int_opt_error x e : int_opt x = inl e → number_error e.
Proof.
  destruct x as [s|]; cbn; [|intros [= <-]; by right].
  unfold int. destruct (int_literal s); cbn; [done|]. intros [= <-]. by left.
Qed.

Lemma int_or_error x d e : int_or x d = inl e → number_error e.
Proof. unfold int_or. destruct (truthy x); [apply int_opt_error | done]. Qed.

Lemma segment_reference_error d n seg_time_list cur_time e :
  Mpd.segment_reference d n seg_time_list cur_time = inl e → number_error e.
Proof.
  revert seg_time_list cur_time. induction n as [|n IH]; intros l cur; cbn; [done|].
  destruct (int_opt d) as [e'|dv] eqn:Hd; cbn.
  - intros [= <-]. by apply (int_opt_error d).
  - apply IH.
Qed.

Lemma timeline_loop_error ss seg_time_list cur_time e :
  Mpd.timeline_loop ss seg_time_list cur_time = inl e → number_error e.
Proof.
  revert seg_time_list cur_time. induction ss as [|s ss IH]; intros l cur; cbn; [done|].
  destruct (if truthy (get s "t") then int_opt (get s "t") else ret cur)
    as [e'|cur'] eqn:Ht; cbn.
  { intros [= <-]. destruct (truthy (get s "t")); [by apply (int_opt_error (get s "t"))|done]. }
  destruct (int_or (get s "r") 0) as [e'|r] eqn:Hr; cbn.
  { intros [= <-]. by apply (int_or_error (get s "r") 0). }
  destruct (Mpd.segment_reference (get s "d") (Z.to_nat (r + 1)) l cur')
    as [e'|[l' cur'']] eqn:Hseg; cbn.
  { intros [= <-]. by apply (segment_reference_error _ _ _ _ _ Hseg). }
  apply IH.
Qed.

Lemma media_urls_result seg_template ns :
  (∃ media, get seg_template "media" = Some media ∧
     mapM (Mpd.media_url seg_template) ns =
       inr ((λ n, Some (replace media "$Number$" (str n))) <$> ns)) ∨
  (get seg_template "media" = None ∧
     mapM (Mpd.media_url seg_template) ns = if ns is [] then inr [] else inl AttributeError).
Proof.
  destruct (get seg_template "media") as [media|] eqn:Hm.
  - left. exists media. split; [done|]. by apply media_urls_ok.
  - right. split; [done|]. destruct ns as [|n ns]; [done|].
    cbn. unfold Mpd.media_url. by rewrite Hm.
Qed.

(** What a failing or succeeding representation looks like. *)
Lemma parse_representation_cases adaptation_set rep :
  match Mpd.parse_representation adaptation_set rep with
  | inl e =>
      e = ValueError "Only supports audio MPDs!" ∨ number_error e ∨
      e = AttributeError ∨
      ∃ codecs, get rep "codecs" = Some codecs ∧
                CodecEnum_getitem (ManifestSpec.dash_codec_name codecs) = None ∧
                e = KeyError (ManifestSpec.dash_codec_name codecs)
  | inr t =>
      ∃ seg_template media_urls,
        find rep "SegmentTemplate" = Some seg_template ∧
        Mpd.urls t = get seg_template "initialization" :: (Some <$> media_urls) ∧
        (find seg_template "SegmentTimeline" = None → media_urls = [])
  end.
Proof.
  unfold Mpd.parse_representation.
  destruct (negb _); [by left|].
  destruct (get rep "codecs") as [codecs|] eqn:Hcodecs; [|by right; right; left].
  cbn [or_raise Py.bind]. fold (ManifestSpec.dash_codec_name codecs).
  destruct (find rep "SegmentTemplate") as [st|]; [|by right; right; left].
  cbn [or_raise Py.bind].
  destruct (int_or (get st "startNumber") 1) as [e|start] eqn:Hstart; cbn [Py.bind].
  { right; left. by apply (int_or_error _ _ _ Hstart). }
  assert (∀ track_urls : result (list (option string)),
            (match track_urls with
             | inl e => number_error e ∨ e = AttributeError
             | inr us => ∃ media_urls,
                 us = get st "initialization" :: (Some <$> media_urls) ∧
                 (find st "SegmentTimeline" = None → media_urls = [])
             end) →
            match
              (let! track_urls := track_urls in
               let! c := CodecEnum_item (ManifestSpec.dash_codec_name codecs) in
               let! sr := int_or (get rep "audioSamplingRate") 0 in
               let! br := int_or (get rep "bandwidth") 0 in
               ret {| Mpd.codec := c; Mpd.sample_rate := sr; Mpd.bitrate := br;
                      Mpd.urls := track_urls |})
            with
            | inl e =>
                e = ValueError "Only supports audio MPDs!" ∨ number_error e ∨
                e = AttributeError ∨
                ∃ codecs0, Some codecs = Some codecs0 ∧
                  CodecEnum_getitem (ManifestSpec.dash_codec_name codecs0) = None ∧
                  e = KeyError (ManifestSpec.dash_codec_name codecs0)
            | inr t =>
                ∃ seg_template media_urls,
                  Some st = Some seg_template ∧
                  Mpd.urls t = get seg_template "initialization" :: (Some <$> media_urls) ∧
                  (find seg_template "SegmentTimeline" = None → media_urls = [])
            end) as Hrest.
  { intros [e|us] Hus; cbn [Py.bind].
    { destruct Hus as [?|?]; tauto. }
    unfold CodecEnum_item.
    destruct (CodecEnum_getitem (ManifestSpec.dash_codec_name codecs)) as [c|] eqn:Hc;
      cbn [or_raise Py.bind].
    2: { right; right; right. by exists codecs. }
    destruct (int_or (get rep "audioSamplingRate") 0) as [e|sr] eqn:Hsr; cbn [Py.bind].
    { right; left. by apply (int_or_error _ _ _ Hsr). }
    destruct (int_or (get rep "bandwidth") 0) as [e|br] eqn:Hbr; cbn [Py.bind Py.ret].
    { right; left. by apply (int_or_error _ _ _ Hbr). }
    destruct Hus as (media_urls & -> & Hnone). by exists st, media_urls. }
  apply Hrest. clear Hrest.
  destruct (find st "SegmentTimeline") as [tl|].
  - destruct (Mpd.timeline_loop (findall tl "S") [] 0) as [e|[times end_time]] eqn:Hloop;
      cbn [Py.bind].
    { left. by apply (timeline_loop_error _ _ _ _ Hloop). }
    destruct (media_urls_result st
                (range start (Z.of_nat (length times) + start)))
      as [(media & _ & ->)|[_ ->]]; cbn [Py.bind Py.ret app].
    + exists ((λ n, replace media "$Number$" (str n)) <$>
                range start (Z.of_nat (length times) + start)).
      split; [|done]. by rewrite <- list_fmap_compose.
    + destruct (range start _); cbn [Py.bind Py.ret app]; [|by right].
      by exists [].
  - cbn [Py.ret]. by exists [].
Qed.

(** X5: [parse_mpd] on a parsed document can only fail with the
    [ValueError] for a non-audio adaptation set, a [ValueError] or
    [TypeError] from reading a number, an [AttributeError] for a missing
    attribute or element, or a [KeyError] that carries the name under which
    an unknown codec was looked up. *)
Theorem parse_root_errors root e :
  Mpd.parse_root root = inl e →
  e = ValueError "Only supports audio MPDs!" ∨
  e = ValueError "invalid literal for int() with base 10" ∨
  e = TypeError ∨
  e = AttributeError ∨
  ∃ adaptation_set rep codecs,
    (adaptation_set, rep) ∈ Mpd.representations root ∧
    get rep "codecs" = Some codecs ∧
    CodecEnum_getitem (ManifestSpec.dash_codec_name codecs) = None ∧
    e = KeyError (ManifestSpec.dash_codec_name codecs).
Proof.
  unfold Mpd.parse_root. intros ([a r] & Hin & Hfail)%mapM_inl.
  pose proof (parse_representation_cases a r) as Hcases. rewrite Hfail in Hcases.
  destruct Hcases as [?|[[?|?]|[?|(codecs & ? & ? & ?)]]]; try tauto.
  right; right; right; right. by exists a, r, codecs.
Qed.

(** X6: when [parse_mpd] succeeds on a parsed document it returns exactly
    one rendition per representation, and every rendition has a URL list
    that starts with the [initialization] attribute of its segment
    template (absent or not) and goes on with media URLs that are strings;
    without a segment timeline there is no media URL. *)
Theorem parse_root_renditions root tracks :
  Mpd.parse_root root = inr tracks →
  Forall2 (λ ar t,
    ∃ seg_template media_urls,
      find ar.2 "SegmentTemplate" = Some seg_template ∧
      Mpd.urls t = get seg_template "initialization" :: (Some <$> media_urls) ∧
      (find seg_template "SegmentTimeline" = None → media_urls = []))
    (Mpd.representations root) tracks.
Proof.
  unfold Mpd.parse_root. intros Hall%mapM_inv.
  eapply Forall2_impl; [exact Hall|]. intros [a r] t Ht.
  pose proof (parse_representation_cases a r) as Hcases. by rewrite Ht in Hcases.
Qed.

End parser_edges.

(** ** [parse_mpd]: the namespace declaration and the media template *)

Section parser_strings.
Context `{CodecTable}.

Lemma contains_cons sub c s :
  contains sub (String c s) = false →
  String.prefix sub (String c s) = false ∧ contains sub s = false.
Proof. cbn [contains]. by intros [? ?]%orb_false_iff. Qed.

Lemma drop_prefix_app p s : Mpd.drop_prefix p (p +:+ s) = Some s.
Proof.
  induction p as [|a p IH]; [by destruct s|].
  simpl. by rewrite Ascii.eqb_refl.
Qed.

Lemma span_unquoted_app ns rest :
  contains (String Mpd.dquote "") ns = false →
  Mpd.span_unquoted (ns +:+ String Mpd.dquote rest) =
    (String.length ns, String Mpd.dquote rest).
Proof.
  induction ns as [|c ns IH]; intros Hq.
  - reflexivity.
  - apply contains_cons in Hq as [Hc Hq]. simpl.
    destruct (Ascii.eqb_spec c Mpd.dquote) as [->|Hne].
    + cbn in Hc. by destruct ns.
    + by rewrite (IH Hq).
Qed.

(** The namespace declaration with value [ns], as text. *)
Lemma match_xmlns_declaration ns post :
  ns ≠ "" →
  contains (String Mpd.dquote "") ns = false →
  Mpd.match_xmlns ("xmlns=" +:+ String Mpd.dquote (ns +:+ String Mpd.dquote post))
    = Some post.
Proof.
  intros Hns Hq. unfold Mpd.match_xmlns.
  change ("xmlns=" +:+ String Mpd.dquote (ns +:+ String Mpd.dquote post))
    with (("xmlns=" +:+ String Mpd.dquote "") +:+ (ns +:+ String Mpd.dquote post)).
  rewrite drop_prefix_app, (span_unquoted_app _ _ Hq).
  by destruct ns.
Qed.

Lemma append_cons c s t : String c s +:+ t = String c (s +:+ t).
Proof. reflexivity. Qed.

Lemma append_nil t : "" +:+ t = t.
Proof. reflexivity. Qed.

Ltac drop_prefix_step H :=
  rewrite ?append_cons, ?append_nil in H; cbn [Mpd.drop_prefix] in H;
  match type of H with
  | context [Ascii.eqb ?a ?b] =>
      destruct (Ascii.eqb_spec a b) as [Heq|?];
      [try discriminate Heq; try subst | done]
  end.

(** No match of the pattern starts inside a text that does not contain
    xmlns=, even when a declaration follows it. *)
Lemma match_xmlns_before c pre rest :
  contains "xmlns=" (String c pre) = false →
  Mpd.match_xmlns (String c pre +:+ "xmlns=" +:+ rest) = None.
Proof.
  intros [Hp _]%contains_cons. unfold Mpd.match_xmlns.
  destruct (Mpd.drop_prefix _ _) as [body|] eqn:Hdrop; [|done]. exfalso.
  drop_prefix_step Hdrop.
  destruct pre as [|c2 p]; drop_prefix_step Hdrop.
  destruct p as [|c3 p]; drop_prefix_step Hdrop.
  destruct p as [|c4 p]; drop_prefix_step Hdrop.
  destruct p as [|c5 p]; drop_prefix_step Hdrop.
  destruct p as [|c6 p]; drop_prefix_step Hdrop.
  simpl in Hp. by destruct p.
Qed.

Lemma match_xmlns_absent s :
  contains "xmlns=" s = false → Mpd.match_xmlns s = None.
Proof.
  intros Hc. unfold Mpd.match_xmlns.
  destruct (Mpd.drop_prefix _ _) as [body|] eqn:Hdrop; [|done]. exfalso.
  destruct s as [|c1 s]; [done|]. apply contains_cons in Hc as [Hp _].
  drop_prefix_step Hdrop.
  destruct s as [|c2 s]; [done|]. drop_prefix_step Hdrop.
  destruct s as [|c3 s]; [done|]. drop_prefix_step Hdrop.
  destruct s as [|c4 s]; [done|]. drop_prefix_step Hdrop.
  destruct s as [|c5 s]; [done|]. drop_prefix_step Hdrop.
  destruct s as [|c6 s]; [done|]. drop_prefix_step Hdrop.
  simpl in Hp. by destruct s.
Qed.

Lemma sub_xmlns_unfold s :
  Mpd.sub_xmlns s =
    match Mpd.match_xmlns s with
    | Some rest => rest
    | None => match s with "" => "" | String c s' => String c (Mpd.sub_xmlns s') end
    end.
Proof. by destruct s. Qed.

(** X7: the substitution that precedes the XML parser deletes the first
    namespace declaration and nothing else: for a text without xmlns=
    followed by a declaration with a non-empty value, the result is the
    text before and the text after the declaration, untouched even if it
    holds further declarations; a text without xmlns= is not changed. *)
Theorem sub_xmlns_first_declaration :
  (∀ pre ns post,
     contains "xmlns=" pre = false →
     ns ≠ "" →
     contains (String Mpd.dquote "") ns = false →
     Mpd.sub_xmlns
       (pre +:+ "xmlns=" +:+ String Mpd.dquote (ns +:+ String Mpd.dquote post))
       = pre +:+ post) ∧
  (∀ text, contains "xmlns=" text = false → Mpd.sub_xmlns text = text).
Proof.
  split.
  - intros pre ns post Hpre Hns Hq. induction pre as [|c pre IH].
    + rewrite append_nil, sub_xmlns_unfold.
      by rewrite (match_xmlns_declaration ns post Hns Hq).
    + rewrite sub_xmlns_unfold, (match_xmlns_before c pre _ Hpre).
      apply contains_cons in Hpre as [_ Hpre].
      rewrite !append_cons. f_equal. by apply IH.
  - intros text. induction text as [|c text IH]; intros Hc; [done|].
    rewrite sub_xmlns_unfold, (match_xmlns_absent _ Hc).
    apply contains_cons in Hc as [_ Hc]. f_equal. by apply IH.
Qed.

End parser_strings.

(** ** [get_track_download]: failures and the files of others *)

Section hoare_rules.
Import Hoare.
Context {W : Type}.


Lemma triple_ret {A} (a : A) (Q : result A → W → Prop) :
  triple (Q (inr a)) (retM a) Q.
Proof. by intros w Hw. Qed.

Lemma triple_lift {A} (r : result A) (Q : result A → W → Prop) :
  triple (Q r) (lift r) Q.
Proof. by intros w Hw. Qed.

Lemma triple_bind {A B} (P : W → Prop) (m : M W A) (k : A → M W B)
    (R : A → W → Prop) (Q : result B → W → Prop) :
  triple P m (λ r w, match r with inl e => Q (inl e) w | inr a => R a w end) →
  (∀ a, triple (R a) (k a) Q) →
  triple P (bindM m k) Q.
Proof.
  intros Hm Hk w HP. specialize (Hm w HP). unfold bindM.
  destruct (m w) as [[e|a] w']; cbn in *; [done|]. by apply Hk.
Qed.


Lemma triple_and {A} (P : W → Prop) (m : M W A) (Q1 Q2 : result A → W → Prop) :
  triple P m Q1 → triple P m Q2 → triple P m (λ r w, Q1 r w ∧ Q2 r w).
Proof. intros H1 H2 w Hw. split; [by apply H1 | by apply H2]. Qed.



End hoare_rules.

Section assembler_frame.
Context `{CodecTable} `{Assembler.Tools}.
Import Assembler Hoare DiskSpec.















End assembler_frame.

(** ** Examples for the further properties *)

Lemma default_session_stays_available_witness :
  Resolver.name
    (Resolver.default
       (Resolver.get_track_info (H:=Example.codecs) (H0:=Example.region_locked_backend)
          (Resolver.init Example.tv_only_settings) "42" Resolver.LOSSLESS
          Example.open_codecs_only ["DOLBY_ATMOS"] Example.fresh_world).2)
    ∈ Resolver.available_sessions (Resolver.init Example.tv_only_settings).
Proof.
  apply (@default_session_stays_available Example.codecs Example.region_locked_backend
           (Resolver.init Example.tv_only_settings) "42" Resolver.LOSSLESS
           Example.open_codecs_only ["DOLBY_ATMOS"] Example.fresh_world).
  vm_compute. repeat constructor.
Defined.

Lemma hires_lossless_requested_iff_witness :
  (Resolver.resolve (Resolver.init Example.default_settings) Resolver.TV Resolver.HIFI
     Example.open_codecs_only ["HIRES_LOSSLESS"]).1.2 = "HI_RES_LOSSLESS".
Proof.
  apply (hires_lossless_requested_iff (Resolver.init Example.default_settings) Resolver.TV
           Resolver.HIFI Example.open_codecs_only ["HIRES_LOSSLESS"]).
  split; [reflexivity|]. split; [repeat constructor|]. split; [discriminate|].
  vm_compute. repeat constructor.
Defined.

Lemma unknown_audio_quality_raises_witness :
  Resolver.stream_and_build (H:=Example.codecs) (H0:=Cases.unlisted_quality_backend)
    (Resolver.init Example.default_settings) "42" Example.all_codecs "HI_RES"
    Example.fresh_world =
    (inl (KeyError "HI_RES_MAX"),
     {| Resolver.default := Resolver.TV;
        Resolver.requests := [(Resolver.TV, "42", "HI_RES")];
        Resolver.printed := [] |}).
Proof.
  eapply (@unknown_audio_quality_raises Example.codecs Cases.unlisted_quality_backend
           (Resolver.init Example.default_settings) "42" Example.all_codecs "HI_RES"
           Example.fresh_world
           {| Resolver.manifestMimeType := "application/vnd.tidal.bts";
              Resolver.manifest := "scenario-c";
              Resolver.audioQuality := "HI_RES_MAX"; Resolver.audioMode := "STEREO" |}).
  - reflexivity.
  - reflexivity.
  - reflexivity.
  - reflexivity.
  - cbn. intros Hin. repeat (apply elem_of_cons in Hin as [Hin|Hin]; [discriminate|]).
    by apply elem_of_nil in Hin.
Defined.

Lemma parse_root_errors_witness :
  ValueError "Only supports audio MPDs!" = ValueError "Only supports audio MPDs!" ∨
  ValueError "Only supports audio MPDs!" = ValueError "invalid literal for int() with base 10" ∨
  ValueError "Only supports audio MPDs!" = TypeError ∨
  ValueError "Only supports audio MPDs!" = AttributeError ∨
  ∃ adaptation_set rep codecs,
    (adaptation_set, rep) ∈ Mpd.representations Example.video_root ∧
    get rep "codecs" = Some codecs ∧
    CodecEnum_getitem (CodecTable:=Example.codecs) (ManifestSpec.dash_codec_name codecs) = None ∧
    ValueError "Only supports audio MPDs!" = KeyError (ManifestSpec.dash_codec_name codecs).
Proof.
  apply (@parse_root_errors Example.codecs Example.video_root). reflexivity.
Defined.

Lemma parse_root_renditions_witness :
  Forall2 (λ ar t,
    ∃ seg_template media_urls,
      find ar.2 "SegmentTemplate" = Some seg_template ∧
      Mpd.urls t = get seg_template "initialization" :: (Some <$> media_urls) ∧
      (find seg_template "SegmentTimeline" = None → media_urls = []))
    (Mpd.representations Example.scenario_d_root)
    [{| Mpd.codec := Example.cFLAC; Mpd.sample_rate := 44100; Mpd.bitrate := 1411000;
        Mpd.urls := [Some "https://x/init.mp4"; Some "https://x/1.mp4";
                     Some "https://x/2.mp4"; Some "https://x/3.mp4"] |}].
Proof.
  apply (@parse_root_renditions Example.codecs Example.scenario_d_root). reflexivity.
Defined.

Lemma sub_xmlns_first_declaration_witness :
  Mpd.sub_xmlns
    ("<MPD " +:+ "xmlns=" +:+
       String Mpd.dquote ("urn:mpeg:dash:schema:mpd:2011" +:+ String Mpd.dquote " xmlns=1>"))
    = "<MPD " +:+ " xmlns=1>" ∧
  Mpd.sub_xmlns "<MPD>" = "<MPD>".
Proof.
  split.
  - apply (proj1 sub_xmlns_first_declaration "<MPD " "urn:mpeg:dash:schema:mpd:2011"
             " xmlns=1>"); [reflexivity | discriminate | reflexivity].
  - apply (proj2 sub_xmlns_first_declaration "<MPD>"). reflexivity.
Defined.


(** ** Cover artwork *)

Section artwork.
Import Artwork ArtworkSpec.

Lemma replace_dash cover_id : replace cover_id "-" "/" = slashes cover_id.
Proof.
  unfold replace. induction cover_id as [|c s IH]; [done|].
  cbn [replace_go slashes]. rewrite <- IH.
  destruct (Ascii.eqb_spec c "-") as [->|Hne].
  - by destruct s.
  - cbn [String.prefix]. destruct (ascii_dec "-" c) as [<-|_]; [done|]. done.
Qed.

Lemma best_size_served size :
  min_key supported_sizes (λ x, Z.abs (x - size)) = inr (served_size size).
Proof.
  unfold min_key, supported_sizes. cbn [min_from ret]. f_equal.
  repeat (match goal with
          | |- context [(Z.abs (?x - size) <? Z.abs (?y - size))%Z] =>
              lazymatch x with context [size] => fail | _ => idtac end;
              lazymatch y with context [size] => fail | _ => idtac end;
              destruct (Z.ltb_spec (Z.abs (x - size)) (Z.abs (y - size)))
          end; cbv iota);
  unfold served_size;
  repeat (match goal with
          | |- context [(size <=? ?b)%Z] => destruct (Z.leb_spec size b); [lia|]
          end);
  repeat (match goal with
          | |- context [(size <=? ?b)%Z] => destruct (Z.leb_spec size b); [|lia]
          end); try reflexivity; lia.
Qed.

(** X10: the artwork URL is the image host, the cover id with its dashes
    turned into slashes, and an image name that depends on the requested
    size through a fixed table: the nearest supported size, the smaller
    one on a tie (120 is served as 80, 860 as 640), and [origin.jpg]
    when that size exceeds [max_size]. *)
Theorem artwork_url_by_size cover_id size max_size :
  _generate_artwork_url cover_id size max_size =
    inr ("https://resources.tidal.com/images/" +:+ slashes cover_id +:+ "/" +:+
         (if (served_size size <=? max_size)%Z
          then str (served_size size) +:+ "x" +:+ str (served_size size) +:+ ".jpg"
          else "origin.jpg")).
Proof.
  unfold _generate_artwork_url. rewrite best_size_served. cbn [Py.bind ret].
  by rewrite replace_dash.
Qed.

Lemma append_inj_l p a b : p +:+ a = p +:+ b → a = b.
Proof.
  induction p as [|c p IH]; [done|]. rewrite !append_cons. intros [= Heq]. by apply IH.
Qed.

Lemma sized_name_not_origin size :
  str (served_size size) +:+ "x" +:+ str (served_size size) +:+ ".jpg" ≠ "origin.jpg".
Proof.
  unfold served_size.
  repeat match goal with
         | |- context [(size <=? ?b)%Z] => destruct (size <=? b)%Z
         end; by vm_compute.
Qed.

(** X11: with the default [max_size] of 1280 (track and album covers) the
    uncompressed [origin.jpg] is chosen exactly for requested sizes above
    1280; with [max_size=1080] (playlist covers) exactly for sizes above
    1180, so that a playlist cover requested at 1100 is the 1080 image and
    one requested at 1200 is the uncompressed one. *)
Theorem artwork_origin_iff cover_id size :
  (_generate_artwork_url cover_id size 1280 =
     inr ("https://resources.tidal.com/images/" +:+ slashes cover_id +:+ "/origin.jpg")
   ↔ (1280 < size)%Z) ∧
  (_generate_artwork_url cover_id size 1080 =
     inr ("https://resources.tidal.com/images/" +:+ slashes cover_id +:+ "/origin.jpg")
   ↔ (1180 < size)%Z).
Proof.
  rewrite !artwork_url_by_size.
  change "/origin.jpg" with ("/" +:+ "origin.jpg").
  split; split.
  - intros [= Heq]. do 3 apply append_inj_l in Heq.
    destruct (Z.leb_spec (served_size size) 1280) as [Hle|Hgt].
    + by apply sized_name_not_origin in Heq.
    + revert Hgt. unfold served_size.
      repeat match goal with
             | |- context [(size <=? ?b)%Z] => destruct (Z.leb_spec size b)
             end; lia.
  - intros Hsize. assert (served_size size = 1281%Z) as ->; [|done].
    unfold served_size.
    repeat match goal with
           | |- context [(size <=? ?b)%Z] => destruct (Z.leb_spec size b); [lia|]
           end. done.
  - intros [= Heq]. do 3 apply append_inj_l in Heq.
    destruct (Z.leb_spec (served_size size) 1080) as [Hle|Hgt].
    + by apply sized_name_not_origin in Heq.
    + revert Hgt. unfold served_size.
      repeat match goal with
             | |- context [(size <=? ?b)%Z] => destruct (Z.leb_spec size b)
             end; lia.
  - intros Hsize.
    assert ((served_size size <=? 1080)%Z = false) as ->; [|done].
    apply Z.leb_gt. unfold served_size.
    repeat match goal with
           | |- context [(size <=? ?b)%Z] => destruct (Z.leb_spec size b); [lia|]
           end; lia.
Qed.

(** X12: for a track that is in the cached [data], [get_track_cover]
    does not depend on the API client; it raises [KeyError] when the
    record has no [album], answers with the default PNG when the album has
    no cover id or an empty one, and otherwise with a JPEG whose URL is
    the one of the size table for [max_size] 1280. *)
Theorem track_cover_from_cache get_track track_id resolution data track_data :
  data !! track_id = Some track_data →
  get_track_cover get_track track_id resolution data =
    match album track_data with
    | None => inl (KeyError "album")
    | Some album =>
        match cover album with
        | Some (String c id) =>
            inr {| url := "https://resources.tidal.com/images/" +:+
                          slashes (String c id) +:+ "/" +:+
                          (if (served_size resolution <=? 1280)%Z
                           then str (served_size resolution) +:+ "x" +:+
                                str (served_size resolution) +:+ ".jpg"
                           else "origin.jpg");
                   file_type := jpg |}
        | _ =>
            inr {| url := "https://tidal.com/browse/assets/images/defaultImages/defaultTrackImage.png";
                   file_type := png |}
        end
    end.
Proof.
  intros Hdata. unfold get_track_cover. rewrite Hdata. cbn [Py.bind ret].
  destruct (album track_data) as [a|]; [|done]. cbn [or_raise Py.bind].
  destruct (cover a) as [[|c id]|]; cbn [truthy]; [done| |done].
  cbn [default]. by rewrite artwork_url_by_size.
Qed.

End artwork.

Lemma track_cover_from_cache_witness :
  Artwork.get_track_cover (λ _, inl (RequestException "offline")) "42" 1400
    {[ "42" := {| Artwork.album := Some {| Artwork.cover := Some "ab-cd" |} |} ]}
  = inr {| Artwork.url := "https://resources.tidal.com/images/ab/cd/origin.jpg";
           Artwork.file_type := Artwork.jpg |}.
Proof.
  apply (track_cover_from_cache (λ _, inl (RequestException "offline")) "42" 1400
           {[ "42" := {| Artwork.album := Some {| Artwork.cover := Some "ab-cd" |} |} ]}
           {| Artwork.album := Some {| Artwork.cover := Some "ab-cd" |} |}).
  reflexivity.
Defined.

(** ** [get_preview_stream_url] *)

Section preview_facts.
Context `{CodecTable} `{Resolver.Backend} `{Assembler.Tools}.
Import Resolver Assembler Preview PreviewSpec.

Ltac no_new :=
  exists []; rewrite app_nil_r; cbn [length]; rewrite ?Nat.add_0_r;
  repeat split; first [done | lia | constructor].

Lemma download_segments_spec urls indices acc s r paths s' :
  download_segments urls indices acc s = ((r, paths), s') →
  ∃ new,
    paths = acc ++ new ∧ world s' = world s ∧ previews s' = previews s ∧
    warnings (disk s') = warnings (disk s) ∧
    (length new ≤ length indices)%nat ∧
    next_temp (disk s') = (next_temp (disk s) + length new)%nat ∧
    Forall (λ l : location, (next_temp (disk s) ≤ l.1)%nat) new ∧
    (∀ l, l ∉ new → files (disk s') !! l = files (disk s) !! l).
Proof.
  revert acc s. induction indices as [|i indices IH]; intros acc s Hrun.
  - injection Hrun as <- <- <-. no_new.
  - cbn [download_segments] in Hrun. unfold bindM, lift, on_disk in Hrun.
    destruct (urls !! Z.to_nat i) as [url|]; cbn [or_raise] in Hrun.
    2: { injection Hrun as <- <- <-. no_new. }
    unfold download_to_temp, bindM, lift, create_temp_filename, write_file, retM in Hrun.
    destruct url as [u|]; cbn [or_raise] in Hrun.
    2: { injection Hrun as <- <- <-. destruct s. no_new. }
    destruct (http_get u) as [e|body]; cbn in Hrun.
    { injection Hrun as <- <- <-. destruct s. no_new. }
    apply IH in Hrun as (new & -> & Hw & Hp & Hwarn & Hlen & Hnext & Hall & Hfiles).
    cbn [world disk previews files next_temp warnings] in *.
    exists ((next_temp (disk s), "mp4") :: new).
    rewrite <- app_assoc. split; [done|]. split; [done|]. split; [done|]. split; [done|].
    split; [cbn; lia|]. split; [cbn; lia|]. split.
    + constructor; [cbn; lia|]. eapply Forall_impl; [exact Hall|]. cbn. lia.
    + intros l [Hne Hl]%not_elem_of_cons. rewrite (Hfiles l Hl).
      by apply lookup_insert_ne.
Qed.

Lemma write_segments_spec track_id paths s r s' :
  forM paths (λ p, let* data := on_disk (read_file p) in write_preview track_id data) s
    = (r, s') →
  world s' = world s ∧ disk s' = disk s ∧
  ∀ t, t ≠ track_id → previews s' !! t = previews s !! t.
Proof.
  revert s r s'. induction paths as [|p paths IH]; intros s r s' Hrun.
  - by injection Hrun as <- <-.
  - cbn [forM] in Hrun. unfold bindM at 1 in Hrun. unfold bindM at 1 in Hrun.
    unfold on_disk at 1, read_file at 1 in Hrun.
    destruct (files (disk s) !! p) as [data|]; cbn [or_raise] in Hrun.
    2: { injection Hrun as <- <-. by destruct s. }
    unfold write_preview at 1 in Hrun. cbn [world disk previews] in Hrun.
    unfold bindM at 1 in Hrun.
    match type of Hrun with
    | context [forM paths ?f ?s1] => destruct (forM paths f s1) as [r1 s1'] eqn:Hrest
    end.
    apply IH in Hrest as (Hw & Hd & Hp). cbn [world disk previews] in *.
    assert (s' = s1') as ->.
    { by destruct r1; injection Hrun as <- <-. }
    split; [done|]. split; [done|]. intros t Ht. rewrite (Hp t Ht).
    by apply lookup_insert_ne.
Qed.

(** The inner [try ... finally] leaves the temporary directory as it
    found it: every segment file that it created is gone afterwards,
    whether the downloads and the writing went through or not. *)
Lemma build_preview_spec track_id urls num_media s r s' :
  build_preview track_id urls num_media s = (r, s') →
  world s' = world s ∧
  warnings (disk s') = warnings (disk s) ∧
  (next_temp (disk s) ≤ next_temp (disk s')
     ≤ next_temp (disk s) + length (range 0 (1 + num_media)))%nat ∧
  (∀ t, t ≠ track_id → previews s' !! t = previews s !! t) ∧
  (∀ p, r = inr p → p = preview_file track_id) ∧
  (fresh (disk s) → ∀ l, files (disk s') !! l = files (disk s) !! l).
Proof.
  unfold build_preview. intros Hrun.
  destruct (download_segments urls _ [] s) as [[outcome paths] s1] eqn:Hloop.
  apply download_segments_spec in Hloop
    as (new & -> & Hw1 & Hp1 & Hwarn1 & Hlen1 & Hnext1 & Hall1 & Hfiles1).
  cbn [app] in Hrun.
  assert (∃ outcome2 s2,
            world s2 = world s1 ∧ disk s2 = disk s1 ∧
            (∀ t, t ≠ track_id → previews s2 !! t = previews s1 !! t) ∧
            (∀ p, outcome2 = inr p → p = preview_file track_id) ∧
            match on_disk (forM new silentremove) s2 with
            | (inl e, s3) => (inl e, s3)
            | (inr _, s3) => (outcome2, s3)
            end = (r, s')) as (outcome2 & s2 & Hw2 & Hd2 & Hp2 & Hout & Hclean).
  { destruct outcome as [e|[]].
    - exists (inl e), s1. split; [done|]. split; [done|]. split; [done|].
      split; [done|]. exact Hrun.
    - unfold bindM at 1 in Hrun. unfold open_preview at 1 in Hrun.
      unfold bindM at 1 in Hrun.
      match type of Hrun with
      | context [forM new ?f ?s1'] => destruct (forM new f s1') as [r2 s2] eqn:Hwrite
      end.
      apply write_segments_spec in Hwrite as (Hw2 & Hd2 & Hp2).
      cbn [world disk previews] in *.
      assert (∀ t, t ≠ track_id → previews s2 !! t = previews s1 !! t) as Hp2'.
      { intros t Ht. rewrite (Hp2 t Ht). by apply lookup_insert_ne. }
      destruct r2 as [e|us].
      + exists (inl e), s2. split; [done|]. split; [done|]. split; [done|].
        split; [done|]. exact Hrun.
      + exists (inr (preview_file track_id)), s2. unfold retM in Hrun.
        split; [done|]. split; [done|]. split; [done|].
        split; [by intros p [= <-]|]. exact Hrun. }
  clear Hrun. unfold on_disk in Hclean.
  destruct (remove_all new (disk s2)) as (d3 & Hremove & Hnext3 & Hwarn3 & Hgone & Hkept).
  rewrite Hremove in Hclean. injection Hclean as <- <-.
  cbn [world disk previews]. rewrite Hd2 in *.
  split; [congruence|]. split; [congruence|]. split; [lia|].
  split; [intros t Ht; rewrite (Hp2 t Ht); by rewrite Hp1|]. split; [done|].
  intros Hfresh l. destruct (decide (l ∈ new)) as [Hin|Hout'].
  - rewrite (Hgone l Hin). symmetry. apply Hfresh.
    by apply (proj1 (Forall_forall _ _) Hall1).
  - rewrite (Hkept l Hout'). by apply Hfiles1.
Qed.

Lemma attempt_none track_id s : attempt track_id s None s.
Proof. unfold attempt. repeat split; try done; lia. Qed.

Lemma return_if_usable_spec p s :
  ∃ result s',
    return_if_usable p s = (inr result, s') ∧
    world s' = world s ∧ next_temp (disk s') = next_temp (disk s) ∧
    warnings (disk s') = warnings (disk s) ∧
    ((result = Some p ∧ s' = s ∧ ∃ c, content p s = Some c ∧ c ≠ "") ∨
     (result = None ∧
      match p with
      | temp_file l => files (disk s') = delete l (files (disk s)) ∧ previews s' = previews s
      | preview_file t => disk s' = disk s ∧ previews s' = delete t (previews s)
      end)).
Proof.
  unfold return_if_usable, bindM, exists_and_not_empty.
  destruct (content p s) as [c|] eqn:Hc.
  - destruct (String.eqb_spec c "") as [->|Hne]; cbn [negb].
    + destruct p as [l|t]; cbn; eexists _, _; (split; [reflexivity|]); cbn; eauto 10.
    + exists (Some p), s. repeat split; try done. left. eauto.
  - destruct p as [l|t]; cbn; eexists _, _; (split; [reflexivity|]); cbn; eauto 10.
Qed.

Lemma range_length a b : length (range a b) = Z.to_nat (b - a).
Proof. unfold range. apply length_seqZ. Qed.

Lemma dash_preview_attempt track_id stream_data s r s' :
  or_none (dash_preview track_id stream_data) s = (r, s') →
  ∃ result, r = inr result ∧ attempt track_id s result s'.
Proof.
  unfold or_none, dash_preview, bindM at 1, lift at 1.
  destruct (b64decode _) as [e|manifest].
  { intros [= <- <-]. exists None. split; [done | apply attempt_none]. }
  unfold bindM at 1, lift at 1.
  destruct (parse_mpd manifest) as [e|[|audio_track tracks]].
  { intros [= <- <-]. exists None. split; [done | apply attempt_none]. }
  { intros [= <- <-]. exists None. split; [done | apply attempt_none]. }
  case_bool_decide.
  { intros [= <- <-]. exists None. split; [done | apply attempt_none]. }
  set (num_media := Z.min 10 _).
  destruct (num_media =? 0)%Z.
  { intros [= <- <-]. exists None. split; [done | apply attempt_none]. }
  unfold bindM.
  destruct (build_preview track_id _ num_media s) as [[e|p] s1] eqn:Hbuild;
    apply build_preview_spec in Hbuild as (Hw & Hwarn & Hnext & Hp & Hpath & Hfiles);
    rewrite range_length in Hnext.
  - intros [= <- <-]. exists None. split; [done|]. unfold attempt.
    split; [done|]. split; [done|]. split; [lia|]. split; [done|]. split; [done|].
    intros Hfresh l _. by apply Hfiles.
  - rewrite (Hpath p eq_refl).
    destruct (return_if_usable_spec (preview_file track_id) s1)
      as (result & s2 & -> & Hw2 & Hnext2 & Hwarn2 & Hcases).
    intros [= <- <-]. exists result. split; [done|]. unfold attempt.
    split; [congruence|]. split; [congruence|]. split; [lia|].
    destruct Hcases as [(-> & -> & c & Hc & Hne)|(-> & Hd2 & Hp2)].
    + split; [done|]. split.
      * intros p' [= <-]. split; [by exists c | by left].
      * intros Hfresh l _. by apply Hfiles.
    + split; [|split; [done|]].
      * intros t Ht. rewrite Hp2, lookup_delete_ne by done. by apply Hp.
      * intros Hfresh l _. rewrite Hd2. by apply Hfiles.
Qed.

Lemma json_preview_attempt track_id stream_data s r s' :
  or_none (json_preview stream_data) s = (r, s') →
  ∃ result, r = inr result ∧ attempt track_id s result s'.
Proof.
  unfold or_none, json_preview, bindM at 1, lift at 1.
  destruct (b64decode _) as [e|raw].
  { intros [= <- <-]. exists None. split; [done | apply attempt_none]. }
  unfold bindM at 1, lift at 1.
  destruct (json_loads raw) as [e|manifest].
  { intros [= <- <-]. exists None. split; [done | apply attempt_none]. }
  destruct (option.default [] (json_urls manifest)) as [|url urls].
  { intros [= <- <-]. exists None. split; [done | apply attempt_none]. }
  unfold bindM, on_disk.
  rewrite (surjective_pairing (download_to_temp (Some url) "m4a" (disk s))).
  unfold download_to_temp, bindM, lift, create_temp_filename, write_file, retM.
  cbn [or_raise]. destruct (http_get url) as [e|body]; cbn [fst snd].
  { intros [= <- <-]. exists None. split; [done|]. destruct s. apply attempt_none. }
  match goal with
  | |- context [return_if_usable ?p ?s1] =>
      destruct (return_if_usable_spec p s1)
        as (result & s2 & -> & Hw2 & Hnext2 & Hwarn2 & Hcases)
  end.
  cbn [world disk previews files next_temp warnings] in *.
  intros [= <- <-]. exists result. split; [done|]. unfold attempt.
  split; [done|]. split; [done|]. split; [lia|].
  destruct Hcases as [(-> & -> & c & Hc & Hne)|(-> & Hd2 & Hp2)];
    cbn [world disk previews files next_temp warnings] in *.
  - split; [done|]. split.
    + intros p' [= <-]. split; [by exists c|]. right. by eexists.
    + intros Hfresh l Hl. apply lookup_insert_ne. by intros <-.
  - split; [by rewrite Hp2|]. split; [done|].
    intros Hfresh l _. rewrite Hd2.
    destruct (decide (l = (next_temp (disk s), "m4a"))) as [->|Hne].
    + rewrite lookup_delete_eq. symmetry. by apply Hfresh.
    + by rewrite lookup_delete_ne, lookup_insert_ne.
Qed.

Lemma or_none_run {A} (body : M Env (option A)) s :
  or_none body s =
    match body s with
    | (inl _, s') => (inr None, s')
    | (inr a, s') => (inr a, s')
    end.
Proof. reflexivity. Qed.

Lemma get_preview_stream_url_attempt track_id s :
  ∃ result,
    (get_preview_stream_url track_id s).1 = inr result ∧
    attempt track_id
      {| world := {| default := default (world s);
                     requests := requests (world s) ++ [(default (world s), track_id, "LOW")];
                     printed := printed (world s) |};
         disk := disk s; previews := previews s |}
      result (get_preview_stream_url track_id s).2.
Proof.
  destruct (get_preview_stream_url track_id s) as [r s'] eqn:Hrun. cbn [fst snd].
  unfold get_preview_stream_url in Hrun. rewrite or_none_run in Hrun.
  unfold bindM at 1, on_world, get_stream_url in Hrun. cbn beta iota in Hrun.
  destruct (session_get_stream_url (default (world s)) track_id "LOW") as [e|stream_data].
  { injection Hrun as <- <-. exists None. split; [done | apply attempt_none]. }
  destruct (bool_decide (manifestMimeType stream_data = "application/dash+xml")).
  - match type of Hrun with
    | context [or_none (dash_preview track_id stream_data) ?s0] =>
        destruct (or_none (dash_preview track_id stream_data) s0) as [r1 s1] eqn:Hrun1
    end.
    apply dash_preview_attempt in Hrun1 as (result & -> & Hattempt).
    injection Hrun as <- <-. by exists result.
  - match type of Hrun with
    | context [or_none (json_preview stream_data) ?s0] =>
        destruct (or_none (json_preview stream_data) s0) as [r1 s1] eqn:Hrun1
    end.
    apply (json_preview_attempt track_id) in Hrun1 as (result & -> & Hattempt).
    injection Hrun as <- <-. by exists result.
Qed.


(** X14: a path that [get_preview_stream_url] returns names a file that
    exists and is not empty when the call returns; it is either the
    preview file of this track or an m4a temporary file drawn during the
    call. *)
Theorem preview_result_is_usable track_id s p :
  (get_preview_stream_url track_id s).1 = inr (Some p) →
  (∃ c, content p (get_preview_stream_url track_id s).2 = Some c ∧ c ≠ "") ∧
  (p = preview_file track_id ∨
   ∃ n, p = temp_file (n, "m4a") ∧ (next_temp (disk s) ≤ n)%nat).
Proof.
  intros Hp.
  destruct (get_preview_stream_url_attempt track_id s)
    as (result & Hrun & _ & _ & _ & _ & Hresult & _).
  apply Hresult. congruence.
Qed.

(** X15: one call of [get_preview_stream_url] never raises, asks the
    backend once, for the LOW stream of the track and from the session
    that is the default, leaves the default session and the printed
    messages alone, prints no warning and touches the preview file of no
    other track. *)
Theorem preview_single_low_request track_id s :
  ∃ result,
    (get_preview_stream_url track_id s).1 = inr result ∧
    world (get_preview_stream_url track_id s).2 =
      {| default := default (world s);
         requests := requests (world s) ++ [(default (world s), track_id, "LOW")];
         printed := printed (world s) |} ∧
    warnings (disk (get_preview_stream_url track_id s).2) = warnings (disk s) ∧
    ∀ t, t ≠ track_id →
      previews (get_preview_stream_url track_id s).2 !! t = previews s !! t.
Proof.
  destruct (get_preview_stream_url_attempt track_id s)
    as (result & Hrun & Hw & Hwarn & _ & Hp & _).
  by exists result.
Qed.

End preview_facts.


Lemma preview_result_is_usable_witness :
  (∃ c,
     Preview.content (Preview.temp_file (0%nat, "m4a"))
       (Preview.get_preview_stream_url (H:=Example.codecs)
          (H0:=Example.scenario_c_backend) (H1:=Example.working_tools)
          "42" PreviewCases.start).2 = Some c ∧ c ≠ "") ∧
  (Preview.temp_file (0%nat, "m4a") = Preview.preview_file "42" ∨
   ∃ n, Preview.temp_file (0%nat, "m4a") = Preview.temp_file (n, "m4a") ∧
        (Assembler.next_temp (Preview.disk PreviewCases.start) ≤ n)%nat).
Proof.
  apply (@preview_result_is_usable Example.codecs Example.scenario_c_backend
           Example.working_tools "42" PreviewCases.start (Preview.temp_file (0%nat, "m4a"))).
  reflexivity.
Defined.

(** ** [parse_mpd]: the media template *)

Section media_template.
Context `{CodecTable}.

Lemma str_inj n m : str n = str m → n = m.
Proof.
  unfold str. intros Heq. apply DecimalZ.to_int_inj.
  assert (∀ z, Z.to_int z ≠ Decimal.Pos Decimal.Nil ∧ Z.to_int z ≠ Decimal.Neg Decimal.Nil)
    as Hnonnil.
  { intros [|p|p]; cbn; split; try discriminate; intros [= Hp];
      by apply DecimalPos.Unsigned.to_uint_nonnil in Hp. }
  destruct (Hnonnil n) as [Hn1 Hn2]. destruct (Hnonnil m) as [Hm1 Hm2].
  pose proof (NilZero.isi _ Hn1 Hn2) as Hn. pose proof (NilZero.isi _ Hm1 Hm2) as Hm.
  rewrite Heq in Hn. congruence.
Qed.

Lemma append_length a b : String.length (a +:+ b) = (String.length a + String.length b)%nat.
Proof. induction a as [|c a IH]; [done|]. rewrite append_cons. cbn. by rewrite IH. Qed.

Lemma append_inj_r a b post : a +:+ post = b +:+ post → a = b.
Proof.
  intros Heq.
  assert (String.length a = String.length b) as Hlen.
  { apply (f_equal String.length) in Heq. rewrite !append_length in Heq. lia. }
  revert b Heq Hlen. induction a as [|c a IH]; intros [|c' b] Heq Hlen; try done.
  rewrite !append_cons in Heq. injection Heq as -> Heq. f_equal. apply IH; [done|].
  cbn in Hlen. lia.
Qed.

(** No occurrence of [old] in [s]: nothing is replaced. *)
Lemma replace_go_absent old new s :
  contains old s = false → replace_go old new 0 s = s.
Proof.
  induction s as [|c s IH]; [done|]. intros [Hp Hc]%contains_cons.
  cbn [replace_go]. rewrite Hp. f_equal. by apply IH.
Qed.

(** After a match, the rest of the matched text is skipped. *)
Lemma replace_go_skip old new t s :
  replace_go old new (String.length t) (t +:+ s) = replace_go old new 0 s.
Proof.
  induction t as [|c t IH]; [done|]. rewrite append_cons. cbn [String.length replace_go].
  exact IH.
Qed.

Lemma prefix_append p s : String.prefix p (p +:+ s) = true.
Proof.
  induction p as [|c p IH]; [by destruct s|]. rewrite append_cons. cbn [String.prefix].
  by destruct (ascii_dec c c).
Qed.

Lemma prefix_first c old c' s' :
  String.prefix (String c old) (String c' s') = true → c = c'.
Proof. cbn [String.prefix]. by destruct (ascii_dec c c'). Qed.

(** The leftmost occurrence of [old], when its first character does not
    occur before it. *)
Lemma replace_go_first c old new pre post :
  contains (String c "") pre = false →
  replace_go (String c old) new 0 (pre +:+ String c old +:+ post) =
    pre +:+ new +:+ replace_go (String c old) new 0 post.
Proof.
  intros Hpre. induction pre as [|c' pre IH].
  - rewrite !append_nil, append_cons. cbn [replace_go].
    rewrite <- append_cons, prefix_append.
    replace (String.length (String c old) - 1)%nat with (String.length old)
      by (cbn [String.length]; lia).
    by rewrite replace_go_skip.
  - apply contains_cons in Hpre as [Hc Hpre]. rewrite !(append_cons c' pre).
    cbn [replace_go].
    destruct (String.prefix (String c old) (String c' (pre +:+ String c old +:+ post)))
      eqn:Hp.
    + apply prefix_first in Hp as <-. cbn [String.prefix] in Hc.
      destruct (ascii_dec c c); [by destruct pre | done].
    + f_equal. by apply IH.
Qed.

(** X16: a media template with one [$Number$] placeholder (no dollar sign
    before it, no second placeholder after it) gives, for segment number
    [n], the template with the placeholder replaced by the decimal numeral
    of [n], and different numbers give different URLs; a template without
    the placeholder gives every segment the same URL, the template
    itself. *)
Theorem media_url_numbering seg_template :
  (∀ pre post,
     get seg_template "media" = Some (pre +:+ "$Number$" +:+ post) →
     contains "$" pre = false →
     contains "$Number$" post = false →
     (∀ n, Mpd.media_url seg_template n = inr (Some (pre +:+ str n +:+ post))) ∧
     (∀ n m, Mpd.media_url seg_template n = Mpd.media_url seg_template m → n = m)) ∧
  (∀ media,
     get seg_template "media" = Some media →
     contains "$Number$" media = false →
     ∀ n, Mpd.media_url seg_template n = inr (Some media)).
Proof.
  split.
  - intros pre post Hmedia Hpre Hpost.
    assert (∀ n, Mpd.media_url seg_template n = inr (Some (pre +:+ str n +:+ post))) as Hurl.
    { intros n. unfold Mpd.media_url. rewrite Hmedia. cbn [or_raise Py.bind ret].
      unfold replace. rewrite (replace_go_first "$" "Number$" (str n) pre post Hpre).
      by rewrite (replace_go_absent _ _ _ Hpost). }
    split; [done|]. intros n m. rewrite !Hurl. intros [= Heq].
    apply append_inj_l, append_inj_r in Heq. by apply str_inj.
  - intros media Hmedia Habsent n. unfold Mpd.media_url. rewrite Hmedia.
    cbn [or_raise Py.bind ret]. unfold replace. by rewrite replace_go_absent.
Qed.

End media_template.

Lemma media_url_numbering_witness :
  (∀ n, Mpd.media_url Example.scenario_d_template n
        = inr (Some ("https://x/" +:+ str n +:+ ".mp4"))) ∧
  (∀ n m, Mpd.media_url Example.scenario_d_template n
          = Mpd.media_url Example.scenario_d_template m → n = m).
Proof.
  apply (proj1 (media_url_numbering Example.scenario_d_template) "https://x/" ".mp4");
    reflexivity.
Defined.

(** ** [get_track_credits] *)

Section credits.
Import Credits CreditsSpec.

Lemma filter_none {A} (P : A → Prop) `{∀ x, Decision (P x)} l :
  Forall (λ x, ¬ P x) l → filter P l = [].
Proof.
  induction 1 as [|x l Hx _ IH]; [done|]. by rewrite filter_cons, decide_False.
Qed.

Lemma elem_of_first_keys {A} (key : A → option string) k l :
  k ∈ first_keys key l ↔ ∃ a, a ∈ l ∧ key a = k.
Proof.
  induction l as [|c l IH]; cbn [first_keys].
  - split; [by intros ?%elem_of_nil | by intros (? & ?%elem_of_nil & _)].
  - rewrite elem_of_cons, list_elem_of_filter, IH. split.
    + intros [->|(_ & c' & Hin & <-)]; [exists c | exists c']; split; try done;
        by constructor.
    + intros (c' & [->|Hin]%elem_of_cons & <-); [by left|].
      destruct (decide (key c' = key c)); [by left | right; eauto].
Qed.

Lemma NoDup_first_keys {A} (key : A → option string) l : NoDup (first_keys key l).
Proof.
  induction l as [|c l IH]; cbn [first_keys]; constructor.
  - rewrite list_elem_of_filter. by intros [? _].
  - by apply NoDup_filter.
Qed.

Lemma first_keys_snoc {A} (key : A → option string) l c :
  first_keys key (l ++ [c]) =
    if decide (key c ∈ first_keys key l) then first_keys key l
    else first_keys key l ++ [key c].
Proof.
  induction l as [|c0 l IH]; cbn [app first_keys].
  - rewrite decide_False by apply not_elem_of_nil. done.
  - rewrite IH. destruct (decide (key c ∈ first_keys key l)) as [Hin|Hout].
    + rewrite decide_True; [done|].
      destruct (decide (key c = key c0)) as [->|Hne]; [by left|].
      right. by apply list_elem_of_filter.
    + rewrite filter_app, filter_cons, filter_nil.
      destruct (decide (key c = key c0)) as [Heq|Hne].
      * rewrite (decide_False (P := key c ≠ key c0)) by (by intros ?).
        rewrite (decide_True (P := key c ∈ _)) by (rewrite Heq; by left).
        by rewrite app_nil_r.
      * rewrite (decide_True (P := key c ≠ key c0)) by done.
        rewrite (decide_False (P := key c ∈ _)); [done|].
        intros [?|(_ & ?)%list_elem_of_filter]%elem_of_cons; done.
Qed.

Lemma names_of_snoc k items c :
  names_of k (items ++ [c]) =
    names_of k items ++ (if decide (role c = k) then [name c] else []).
Proof.
  unfold names_of. rewrite filter_app, fmap_app, filter_cons, filter_nil.
  by destruct (decide (role c = k)).
Qed.

Lemma dict_get_table {V} (f : option string → V) ks k :
  dict_get ((λ k', (k', f k')) <$> ks) k = if decide (k ∈ ks) then Some (f k) else None.
Proof.
  induction ks as [|k0 ks IH]; cbn [fmap list_fmap dict_get].
  - by rewrite decide_False by apply not_elem_of_nil.
  - destruct (decide (k = k0)) as [->|Hne].
    + by rewrite decide_True by (by left).
    + rewrite IH. destruct (decide (k ∈ ks)) as [Hin|Hout].
      * by rewrite decide_True by (by right).
      * rewrite decide_False; [done|]. by intros [?|?]%elem_of_cons.
Qed.

Lemma dict_set_table_present {V} (f : option string → V) ks k v :
  NoDup ks → k ∈ ks →
  dict_set ((λ k', (k', f k')) <$> ks) k v =
    (λ k', (k', if decide (k = k') then v else f k')) <$> ks.
Proof.
  induction 1 as [|k0 ks Hnotin Hnodup IH]; [by intros ?%elem_of_nil|].
  intros Hin. cbn [fmap list_fmap dict_set].
  destruct (decide (k = k0)) as [->|Hne].
  - f_equal. apply list_fmap_ext. intros i k' Hk'.
    rewrite decide_False; [done|]. intros <-. apply Hnotin.
    by apply list_elem_of_lookup_2 in Hk'.
  - f_equal. apply IH. by apply elem_of_cons in Hin as [?|?].
Qed.

Lemma dict_set_table_absent {V} (f : option string → V) ks k v :
  k ∉ ks →
  dict_set ((λ k', (k', f k')) <$> ks) k v = ((λ k', (k', f k')) <$> ks) ++ [(k, v)].
Proof.
  induction ks as [|k0 ks IH]; [done|]. intros [Hne Hout]%not_elem_of_cons.
  cbn [fmap list_fmap dict_set app]. rewrite decide_False by done. f_equal. by apply IH.
Qed.

Lemma dict_set_last {V} (d : list (option string * V)) k v v' :
  k ∉ d.*1 → dict_set (d ++ [(k, v)]) k v' = d ++ [(k, v')].
Proof.
  induction d as [|[k0 v0] d IH]; cbn [fmap list_fmap dict_set app fst].
  - by rewrite decide_True.
  - intros [Hne Hout]%not_elem_of_cons. rewrite decide_False by done. f_equal.
    by apply IH.
Qed.

Lemma dict_get_last {V} (d : list (option string * V)) k v :
  k ∉ d.*1 → dict_get (d ++ [(k, v)]) k = Some v.
Proof.
  induction d as [|[k0 v0] d IH]; cbn [fmap list_fmap dict_get app fst].
  - by rewrite decide_True.
  - intros [Hne Hout]%not_elem_of_cons. rewrite decide_False by done. by apply IH.
Qed.

(** One round of the loop over the API items takes the table of the
    items seen so far to the table of the items with the new one. *)
Lemma add_contributor_table seen c :
  add_contributor ((λ k, (k, names_of k seen)) <$> roles_in_order seen) c =
    inr ((λ k, (k, names_of k (seen ++ [c]))) <$> roles_in_order (seen ++ [c])).
Proof.
  unfold add_contributor, roles_in_order. rewrite dict_get_table, first_keys_snoc.
  fold (roles_in_order seen).
  destruct (decide (role c ∈ roles_in_order seen)) as [Hin|Hout].
  - rewrite dict_get_table, decide_True by done. cbn [or_raise Py.bind ret]. f_equal.
    rewrite dict_set_table_present by (done || apply NoDup_first_keys).
    apply list_fmap_ext. intros i k Hk. rewrite names_of_snoc.
    destruct (decide (role c = k)) as [<-|Hne]; [done|]. by rewrite app_nil_r.
  - rewrite dict_set_table_absent by done.
    assert (role c ∉ ((λ k, (k, names_of k seen)) <$> roles_in_order seen).*1) as Hkeys.
    { rewrite <- list_fmap_compose. by rewrite list_fmap_id. }
    rewrite dict_get_last by done. cbn [or_raise Py.bind ret app]. f_equal.
    rewrite dict_set_last by done. rewrite fmap_app. cbn [fmap list_fmap]. f_equal.
    + apply list_fmap_ext. intros i k Hk. rewrite names_of_snoc.
      rewrite decide_False; [by rewrite app_nil_r|].
      intros <-. apply Hout. by apply list_elem_of_lookup_2 in Hk.
    + rewrite names_of_snoc, decide_True by done. f_equal. f_equal.
      unfold names_of. 
      assert (filter (λ c0, role c0 = role c) seen = []) as ->; [|done].
      apply filter_none, Forall_forall. intros c' Hc' Heq. apply Hout.
      apply elem_of_first_keys. eauto.
Qed.

Lemma add_contributors_table seen items :
  foldM add_contributor ((λ k, (k, names_of k seen)) <$> roles_in_order seen) items =
    inr ((λ k, (k, names_of k (seen ++ items))) <$> roles_in_order (seen ++ items)).
Proof.
  revert seen. induction items as [|c items IH]; intros seen.
  - by rewrite app_nil_r.
  - cbn [foldM]. rewrite add_contributor_table. cbn [Py.bind].
    rewrite IH. by rewrite <- app_assoc.
Qed.

Lemma last_names_of_snoc k groups g :
  last_names_of k (groups ++ [g]) =
    if decide (type g = k) then option.default [] (contributors g)
    else last_names_of k groups.
Proof.
  unfold last_names_of. rewrite filter_app, filter_cons, filter_nil.
  destruct (decide (type g = k)); [by rewrite last_snoc | by rewrite app_nil_r].
Qed.

(** One round of the loop over the cached entries. *)
Lemma add_group_table seen g names :
  contributors g = Some names →
  add_group ((λ k, (k, last_names_of k seen)) <$> types_in_order seen) g =
    inr ((λ k, (k, last_names_of k (seen ++ [g]))) <$> types_in_order (seen ++ [g])).
Proof.
  intros Hnames. unfold add_group, types_in_order. rewrite Hnames, first_keys_snoc.
  cbn [or_raise Py.bind ret]. f_equal.
  destruct (decide (type g ∈ first_keys type seen)) as [Hin|Hout].
  - rewrite dict_set_table_present by (done || apply NoDup_first_keys).
    apply list_fmap_ext. intros i k Hk. rewrite last_names_of_snoc, Hnames.
    by destruct (decide (type g = k)).
  - rewrite dict_set_table_absent by done. rewrite fmap_app. cbn [fmap list_fmap]. f_equal.
    + apply list_fmap_ext. intros i k Hk. rewrite last_names_of_snoc.
      rewrite decide_False; [done|]. intros <-. apply Hout.
      by apply list_elem_of_lookup_2 in Hk.
    + rewrite last_names_of_snoc, decide_True by done. by rewrite Hnames.
Qed.

Lemma add_groups_table seen groups :
  Forall (λ g, is_Some (contributors g)) groups →
  foldM add_group ((λ k, (k, last_names_of k seen)) <$> types_in_order seen) groups =
    inr ((λ k, (k, last_names_of k (seen ++ groups))) <$> types_in_order (seen ++ groups)).
Proof.
  intros Hall. revert seen. induction Hall as [|g groups [names Hg] _ IH]; intros seen.
  - by rewrite app_nil_r.
  - cbn [foldM]. rewrite (add_group_table seen g names Hg). cbn [Py.bind].
    rewrite IH. by rewrite <- app_assoc.
Qed.

Lemma add_contributors_from_empty items :
  foldM add_contributor [] items =
    inr ((λ k, (k, names_of k items)) <$> roles_in_order items).
Proof. exact (add_contributors_table [] items). Qed.

Lemma add_groups_from_empty groups :
  Forall (λ g, is_Some (contributors g)) groups →
  foldM add_group [] groups =
    inr ((λ k, (k, last_names_of k groups)) <$> types_in_order groups).
Proof. exact (add_groups_table [] groups). Qed.

Lemma sanitise_table sanitise_name (label : option string → string)
    (value : option string → list (option string)) ks :
  (∀ k, k ∈ ks → sanitise_name k = inr (label k)) →
  mapM (λ kv : option string * list (option string),
          let! k := sanitise_name kv.1 in
          ret {| sanitised_type := k; names := kv.2 |}) ((λ k, (k, value k)) <$> ks) =
    inr ((λ k, {| sanitised_type := label k; names := value k |}) <$> ks).
Proof.
  induction ks as [|k ks IH]; intros Hlabel; [done|].
  cbn [fmap list_fmap mapM fst snd]. rewrite (Hlabel k) by (by left).
  cbn [Py.bind ret]. rewrite IH; [done|]. intros k' Hk'. apply Hlabel. by right.
Qed.

(** X17: for a track that is not in the cached data, [get_track_credits]
    groups the contributors that the API returns by role: one entry per
    role, the roles in the order in which they first appear, each with the
    names credited with it in the order of the answer; an empty answer
    gives [None].  ([label] is what [sanitise_name] makes of a role.) *)
Theorem track_credits_grouped_by_role sanitise_name get_track_contributors track_id data
    page contributors label :
  data !! track_id = None →
  get_track_contributors track_id = inr page →
  items page = Some contributors →
  (∀ k, k ∈ roles_in_order contributors → sanitise_name k = inr (label k)) →
  get_track_credits sanitise_name get_track_contributors track_id data =
    inr (if contributors is [] then None
         else Some ((λ k, {| sanitised_type := label k;
                             names := names_of k contributors |})
                    <$> roles_in_order contributors)).
Proof.
  intros Hdata Hpage Hitems Hlabel. unfold get_track_credits.
  rewrite Hdata, Hpage. cbn [Py.bind]. rewrite Hitems. cbn [or_raise Py.bind].
  destruct contributors as [|c contributors]; [done|].
  change (0 <? length (c :: contributors))%nat with true. cbv iota.
  rewrite (add_contributors_from_empty (c :: contributors)). cbn [Py.bind].
  rewrite length_fmap. change (0 <? length (roles_in_order (c :: contributors)))%nat with true.
  cbv iota. by rewrite (sanitise_table sanitise_name label _ _ Hlabel).
Qed.

(** X18: for a track in the cached data, [get_track_credits] does not ask
    the API; it returns one entry per type, the types in the order in
    which they first appear, and when a type appears more than once the
    names of its last entry replace those of the earlier ones instead of
    being added to them. *)
Theorem track_credits_from_cache sanitise_name get_track_contributors track_id data
    groups label :
  data !! track_id = Some groups →
  Forall (λ g, is_Some (contributors g)) groups →
  (∀ k, k ∈ types_in_order groups → sanitise_name k = inr (label k)) →
  get_track_credits sanitise_name get_track_contributors track_id data =
    inr (if groups is [] then None
         else Some ((λ k, {| sanitised_type := label k;
                             names := last_names_of k groups |})
                    <$> types_in_order groups)).
Proof.
  intros Hdata Hall Hlabel. unfold get_track_credits. rewrite Hdata.
  rewrite (add_groups_from_empty groups Hall). cbn [Py.bind].
  destruct groups as [|g groups]; [done|].
  rewrite length_fmap. change (0 <? length (types_in_order (g :: groups)))%nat with true.
  cbv iota. by rewrite (sanitise_table sanitise_name label _ _ Hlabel).
Qed.

End credits.

Lemma track_credits_grouped_by_role_witness :
  Credits.get_track_credits (λ k, inr (CreditsCases.plain k))
    (λ _, inr {| Credits.items := Some CreditsCases.three_credits |}) "42" ∅
  = inr (Some [{| Credits.sanitised_type := "Producer";
                  Credits.names := [Some "Ann"; Some "Cy"] |};
               {| Credits.sanitised_type := "Mixer"; Credits.names := [Some "Bob"] |}]).
Proof.
  apply (track_credits_grouped_by_role (λ k, inr (CreditsCases.plain k))
           (λ _, inr {| Credits.items := Some CreditsCases.three_credits |}) "42" ∅
           {| Credits.items := Some CreditsCases.three_credits |}
           CreditsCases.three_credits CreditsCases.plain); reflexivity || done.
Defined.

Lemma track_credits_from_cache_witness :
  Credits.get_track_credits (λ k, inr (CreditsCases.plain k))
    (λ _, inl (RequestException "offline")) "42" {[ "42" := CreditsCases.three_groups ]}
  = inr (Some [{| Credits.sanitised_type := "Producer"; Credits.names := [Some "Cy"] |};
               {| Credits.sanitised_type := "Mixer"; Credits.names := [Some "Bob"] |}]).
Proof.
  apply (track_credits_from_cache (λ k, inr (CreditsCases.plain k))
           (λ _, inl (RequestException "offline")) "42"
           {[ "42" := CreditsCases.three_groups ]}
           CreditsCases.three_groups CreditsCases.plain).
  - reflexivity.
  - repeat constructor; by eexists.
  - done.
Defined.

(** ** The pattern matcher *)

Section matcher.
Import Re ReSpec.

Lemma append_assoc a b c : (a +:+ b) +:+ c = a +:+ b +:+ c.
Proof. induction a as [|x a IH]; [done|]. rewrite !append_cons. by rewrite IH. Qed.

Lemma drop_prefix_inv p s rest : Mpd.drop_prefix p s = Some rest → s = p +:+ rest.
Proof.
  revert s. induction p as [|a p IH]; intros s.
  - destruct s; by intros [= <-].
  - destruct s as [|b s]; [done|]. cbn [Mpd.drop_prefix].
    destruct (Ascii.eqb_spec a b) as [<-|]; [|done].
    intros Hrest%IH. rewrite append_cons. by f_equal.
Qed.

(** Greedy repetition: when the text of the class ends where the class
    stops and the continuation accepts there, that is the match. *)
Lemma star_greedy {X} f m rest (k : string → string → option X) x :
  every f m = true → stops f rest = true → k m rest = Some x →
  star f (m +:+ rest) k = Some x.
Proof.
  revert k. induction m as [|c m IH]; intros k Hall Hend Hk.
  - rewrite append_nil. destruct rest as [|c rest]; [done|]. cbn [star].
    apply negb_true_iff in Hend. by rewrite Hend.
  - apply andb_true_iff in Hall as [Hc Hall]. rewrite append_cons. cbn [star].
    rewrite Hc. by rewrite (IH (λ m r, k (String c m) r) Hall Hend Hk).
Qed.

Lemma star_sound {X} f s (k : string → string → option X) x :
  star f s k = Some x →
  ∃ m rest, s = m +:+ rest ∧ every f m = true ∧ k m rest = Some x.
Proof.
  revert k. induction s as [|c s IH]; intros k; cbn [star].
  - intros Hk. by exists "", "".
  - destruct (f c) eqn:Hc; [|intros Hk; by exists "", (String c s)].
    destruct (star f s _) as [x'|] eqn:Hstar; [|intros Hk; by exists "", (String c s)].
    intros [= ->]. apply IH in Hstar as (m & rest & -> & Hall & Hk).
    exists (String c m), rest. rewrite append_cons. split; [done|]. split; [|done].
    cbn [every]. by rewrite Hc.
Qed.

(** The matcher only finds what the pattern describes. *)
Lemma run_sound {X} r s g (k : string → string → groups → option X) x :
  run r s g k = Some x →
  ∃ m rest g', s = m +:+ rest ∧ matches r m g g' ∧ k m rest g' = Some x.
Proof.
  revert s g k. induction r as [p|f|r1 IH1 r2 IH2|r1 IH1 r2 IH2|r IH|f|name r IH];
    intros s g k; cbn [run].
  - destruct (Mpd.drop_prefix p s) as [rest|] eqn:Hp; [|done].
    intros Hk. exists p, rest, g. split; [by apply drop_prefix_inv|].
    split; [constructor | done].
  - destruct s as [|c rest]; [done|]. destruct (f c) eqn:Hc; [|done].
    intros Hk. exists (String c ""), rest, g. split; [done|]. split; [by constructor|done].
  - intros (m1 & s1 & g1 & -> & Hm1 & Hrest)%IH1.
    apply IH2 in Hrest as (m2 & s2 & g2 & -> & Hm2 & Hk).
    exists (m1 +:+ m2), s2, g2. rewrite append_assoc. split; [done|].
    split; [by econstructor | done].
  - destruct (run r1 s g k) as [x'|] eqn:H1.
    + intros [= ->]. apply IH1 in H1 as (m & rest & g' & -> & Hm & Hk).
      exists m, rest, g'. split; [done|]. split; [by apply matches_alt_l | done].
    + intros (m & rest & g' & -> & Hm & Hk)%IH2.
      exists m, rest, g'. split; [done|]. split; [by apply matches_alt_r | done].
  - destruct (run r s g k) as [x'|] eqn:H1.
    + intros [= ->]. apply IH in H1 as (m & rest & g' & -> & Hm & Hk).
      exists m, rest, g'. split; [done|]. split; [by apply matches_opt | done].
    + intros Hk. exists "", s, g. split; [done|]. split; [apply matches_opt_none | done].
  - destruct s as [|c s]; [done|]. destruct (f c) eqn:Hc; [|done].
    intros (m & rest & -> & Hall & Hk)%star_sound.
    exists (String c m), rest, g. rewrite append_cons. split; [done|].
    split; [by constructor | done].
  - intros (m & rest & g' & -> & Hm & Hk)%IH.
    exists m, rest, ((name, m) :: g'). split; [done|]. split; [by constructor | done].
Qed.

Lemma search_here r s g :
  run r s [] (λ _ _ g, Some g) = Some g → search r s = Some g.
Proof. intros Hrun. destruct s; cbn [search]; by rewrite Hrun. Qed.

Lemma search_sound r s g :
  search r s = Some g → ∃ pre m rest, s = pre +:+ m +:+ rest ∧ matches r m [] g.
Proof.
  induction s as [|c s IH]; cbn [search].
  - destruct (run r "" [] _) as [g'|] eqn:Hrun; [|done]. intros [= ->].
    apply run_sound in Hrun as (m & rest & g' & Hs & Hm & [= ->]).
    by exists "", m, rest.
  - destruct (run r (String c s) [] _) as [g'|] eqn:Hrun.
    + intros [= ->]. apply run_sound in Hrun as (m & rest & g' & Hs & Hm & [= ->]).
      by exists "", m, rest.
    + intros (pre & m & rest & -> & Hm)%IH. by exists (String c pre), m, rest.
Qed.

Lemma matches_seq_inv r1 r2 m g g' :
  matches (Seq r1 r2) m g g' →
  ∃ m1 m2 g1, m = m1 +:+ m2 ∧ matches r1 m1 g g1 ∧ matches r2 m2 g1 g'.
Proof. inversion 1; subst. eauto 10. Qed.

Lemma matches_lit_inv p m g g' : matches (Lit p) m g g' → m = p ∧ g' = g.
Proof. by inversion 1. Qed.

Lemma matches_opt_inv r m g g' :
  matches (Opt r) m g g' → matches r m g g' ∨ (m = "" ∧ g' = g).
Proof. inversion 1; subst; eauto. Qed.

Lemma matches_alt_inv r1 r2 m g g' :
  matches (Alt r1 r2) m g g' → matches r1 m g g' ∨ matches r2 m g g'.
Proof. inversion 1; subst; eauto. Qed.

Lemma matches_group_inv name r m g g' :
  matches (Group name r) m g g' → ∃ g1, matches r m g g1 ∧ g' = (name, m) :: g1.
Proof. inversion 1; subst; eauto. Qed.

Lemma matches_plus_inv f m g g' :
  matches (Plus f) m g g' →
  ∃ c m', m = String c m' ∧ f c = true ∧ every f m' = true ∧ g' = g.
Proof. inversion 1; subst; eauto 10. Qed.

End matcher.

(** ** [custom_url_parse] *)

Section links.
Import Re ReSpec Url UrlSpec.

Lemma run_link scheme host browse t c id rest :
  scheme ∈ ["http"; "https"] → host ∈ [""; "www."; "listen."] →
  browse ∈ [""; "browse/"] →
  id_char c = true → every id_char id = true → stops id_char rest = true →
  run link_pattern
    (scheme +:+ "://" +:+ host +:+ "tidal.com/" +:+ browse +:+ type_name t +:+ "/" +:+
     String c id +:+ rest) [] (λ _ _ g, Some g)
  = Some [("media_id", String c id); ("media_type", type_name t)].
Proof.
  intros Hscheme Hhost Hbrowse Hc Hid Hrest.
  repeat (apply elem_of_cons in Hscheme as [->|Hscheme]); [| |by apply elem_of_nil in Hscheme];
  (repeat (apply elem_of_cons in Hhost as [->|Hhost]); [| | |by apply elem_of_nil in Hhost]);
  (repeat (apply elem_of_cons in Hbrowse as [->|Hbrowse]);
   [| |by apply elem_of_nil in Hbrowse]);
  destruct t; cbn [type_name];
  repeat (rewrite append_cons || rewrite append_nil);
  cbn -[id_char star]; rewrite Hc;
  (erewrite (star_greedy id_char id rest _ _ Hid Hrest); [reflexivity|reflexivity]).
Qed.

(** X19: a link of one of the documented shapes is read back as its media
    type and id: scheme http or https, host tidal.com with or without
    [www.] or [listen.], with or without [browse/], one of the four media
    types, and an id of letters, digits and dashes that ends at the end of
    the link or at a character outside that class (a query string, a
    slash). *)
Theorem custom_url_parse_round_trip scheme host browse t id rest :
  scheme ∈ ["http"; "https"] → host ∈ [""; "www."; "listen."] →
  browse ∈ [""; "browse/"] →
  id ≠ "" → every id_char id = true → stops id_char rest = true →
  custom_url_parse
    (scheme +:+ "://" +:+ host +:+ "tidal.com/" +:+ browse +:+ type_name t +:+ "/" +:+
     id +:+ rest)
  = inr {| media_type := t; media_id := id |}.
Proof.
  intros Hscheme Hhost Hbrowse Hne Hid Hrest. destruct id as [|c id]; [done|].
  apply andb_true_iff in Hid as [Hc Hid]. unfold custom_url_parse.
  rewrite (search_here _ _ _ (run_link scheme host browse t c id rest
                                Hscheme Hhost Hbrowse Hc Hid Hrest)).
  by destruct t.
Qed.

End links.

Lemma custom_url_parse_round_trip_witness :
  Url.custom_url_parse "https://listen.tidal.com/track/232917499?u=1"
  = inr {| Url.media_type := Url.track; Url.media_id := "232917499" |}.
Proof.
  apply (custom_url_parse_round_trip "https" "listen." "" Url.track "232917499" "?u=1").
  - repeat constructor.
  - repeat constructor.
  - repeat constructor.
  - discriminate.
  - reflexivity.
  - reflexivity.
Defined.

(** ** [custom_url_parse]: what is accepted *)

Section accepted_links.
Import Re ReSpec Url UrlSpec.

Lemma link_pattern_inv m g :
  matches link_pattern m [] g →
  ∃ ms mh mb t c id,
    (ms = "s" ∨ ms = "") ∧ (mh = "www." ∨ mh = "listen." ∨ mh = "") ∧
    (mb = "browse/" ∨ mb = "") ∧
    id_char c = true ∧ every id_char id = true ∧
    m = "http" +:+ ms +:+ "://" +:+ mh +:+ "tidal.com/" +:+ mb +:+ type_name t +:+ "/"
        +:+ String c id ∧
    g = [("media_id", String c id); ("media_type", type_name t)].
Proof.
  unfold link_pattern.
  intros (m1 & r1 & g1 & -> & [-> ->]%matches_lit_inv & H)%matches_seq_inv.
  apply matches_seq_inv in H as (ms & r2 & g2 & -> & Hs & H).
  apply matches_seq_inv in H as (m3 & r3 & g3 & -> & [-> ->]%matches_lit_inv & H).
  apply matches_seq_inv in H as (mh & r4 & g4 & -> & Hh & H).
  apply matches_seq_inv in H as (m5 & r5 & g5 & -> & [-> ->]%matches_lit_inv & H).
  apply matches_seq_inv in H as (mb & r6 & g6 & -> & Hb & H).
  apply matches_seq_inv in H as (mt & r7 & g7 & -> & Ht & H).
  apply matches_seq_inv in H as (m8 & mi & g8 & -> & [-> ->]%matches_lit_inv & H).
  apply matches_group_inv in H as (g9 & (c & id & -> & Hc & Hid & ->)%matches_plus_inv & ->).
  apply matches_group_inv in Ht as (g10 & Ht & ->).
  assert ((ms = "s" ∨ ms = "") ∧ g2 = []) as [Hms ->].
  { apply matches_opt_inv in Hs as [[-> ->]%matches_lit_inv|[-> ->]]; auto. }
  assert ((mh = "www." ∨ mh = "listen." ∨ mh = "") ∧ g4 = []) as [Hmh ->].
  { apply matches_opt_inv in Hh as [Hh|[-> ->]]; [|auto].
    apply matches_alt_inv in Hh as [[-> ->]%matches_lit_inv|[-> ->]%matches_lit_inv]; auto. }
  assert ((mb = "browse/" ∨ mb = "") ∧ g6 = []) as [Hmb ->].
  { apply matches_opt_inv in Hb as [[-> ->]%matches_lit_inv|[-> ->]]; auto. }
  assert (∃ t, mt = type_name t ∧ g10 = []) as (t & -> & ->).
  { apply matches_alt_inv in Ht as [[-> ->]%matches_lit_inv|Ht]; [by exists track|].
    apply matches_alt_inv in Ht as [[-> ->]%matches_lit_inv|Ht]; [by exists album|].
    apply matches_alt_inv in Ht as [[-> ->]%matches_lit_inv|[-> ->]%matches_lit_inv];
      [by exists playlist | by exists artist]. }
  by exists ms, mh, mb, t, c, id.
Qed.

(** X20: [custom_url_parse] has two outcomes only.  It returns a media
    type and an id exactly as they stand in the link, after some text, a
    scheme http or https, an optional www. or listen., tidal.com/, an
    optional browse/ and the name of the type; the id is not empty and
    made of letters, digits and dashes.  Otherwise it raises [InvalidInput]
    with the link in the message; the dictionary lookup of the media type
    never fails. *)
Theorem custom_url_parse_accepts link :
  match custom_url_parse link with
  | inr found =>
      ∃ before scheme host browse rest,
        link = before +:+ scheme +:+ "://" +:+ host +:+ "tidal.com/" +:+ browse +:+
               type_name (media_type found) +:+ "/" +:+ media_id found +:+ rest ∧
        scheme ∈ ["http"; "https"] ∧ host ∈ [""; "www."; "listen."] ∧
        browse ∈ [""; "browse/"] ∧
        media_id found ≠ "" ∧ every id_char (media_id found) = true
  | inl e => e = InvalidInput ("Unsupported URL: " +:+ link)
  end.
Proof.
  unfold custom_url_parse. destruct (search link_pattern link) as [g|] eqn:Hsearch; [|done].
  apply search_sound in Hsearch as (before & m & rest & -> & Hm).
  apply link_pattern_inv in Hm
    as (ms & mh & mb & t & c & id & Hms & Hmh & Hmb & Hc & Hid & -> & ->).
  assert (group [("media_id", String c id); ("media_type", type_name t)] "media_type"
          = Some (type_name t)) as -> by reflexivity.
  assert (getitem media_types (type_name t) = Some t) as -> by (by destruct t).
  assert (group [("media_id", String c id); ("media_type", type_name t)] "media_id"
          = Some (String c id)) as -> by reflexivity.
  cbn [media_type media_id].
  exists before, ("http" +:+ ms), mh, mb, rest. split; [by rewrite !append_assoc|].
  split; [destruct Hms as [-> | ->]; repeat constructor|].
  split; [destruct Hmh as [-> | [-> | ->]]; repeat constructor|].
  split; [destruct Hmb as [-> | ->]; repeat constructor|].
  split; [done|]. cbn [every]. by rewrite Hc, Hid.
Qed.

End accepted_links.

(** ** [get_album_info]: the pages of an album *)

Section album_pages.
Import Credits Album.

Lemma seqZ_seq (m : nat) : seqZ 0 (Z.of_nat m) = Z.of_nat <$> seq 0 m.
Proof. unfold seqZ. rewrite Nat2Z.id. apply list_fmap_ext. intros i k _. lia. Qed.

Lemma range_step_pages limit q :
  (0 < limit)%Z → (0 ≤ q)%Z →
  range_step limit ((q + 1) * limit) limit =
    (λ k : nat, Z.of_nat (S k) * limit)%Z <$> seq 0 (Z.to_nat q).
Proof.
  intros Hlimit Hq. unfold range_step.
  replace (((q + 1) * limit - limit + limit - 1) / limit)%Z with (Z.of_nat (Z.to_nat q)).
  2: { rewrite Z2Nat.id by done.
       replace ((q + 1) * limit - limit + limit - 1)%Z with (q * limit + (limit - 1))%Z by lia.
       rewrite Z.div_add_l by lia. rewrite Z.div_small by lia. lia. }
  rewrite seqZ_seq, <- list_fmap_compose. apply list_fmap_ext. intros i k _. cbn. lia.
Qed.

Section paged.
Import AlbumSpec.
(** The entries [all] of the album, served in pages. *)
Variable album_id : string.
Variable all : list Entry.

Lemma fetch_pages limit j m :
  (0 < limit)%Z →
  foldM (λ tracks_data offset,
           let! track_items := serve all album_id (Some offset) limit in
           let! old := or_raise (KeyError "items") (items tracks_data) in
           let! new := or_raise TypeError (items track_items) in
           ret {| totalNumberOfItems := totalNumberOfItems tracks_data;
                  items := Some (old ++ new) |})
        {| totalNumberOfItems := Some (Z.of_nat (length all));
           items := Some (take (S j * Z.to_nat limit) all) |}
        ((λ k : nat, Z.of_nat (S k) * limit)%Z <$> seq j m)
  = inr {| totalNumberOfItems := Some (Z.of_nat (length all));
           items := Some (take (S (j + m) * Z.to_nat limit) all) |}.
Proof.
  intros Hlimit. revert j. induction m as [|m IH]; intros j.
  - cbn [seq fmap list_fmap foldM ret]. by rewrite Nat.add_0_r.
  - cbn [seq fmap list_fmap foldM]. unfold serve at 1.
    cbn [Py.bind items totalNumberOfItems or_raise ret default from_option Datatypes.id].
    replace (Z.to_nat (Z.of_nat (S j) * limit)) with (S j * Z.to_nat limit)%nat by lia.
    rewrite take_take_drop.
    replace (S j * Z.to_nat limit + Z.to_nat limit)%nat with (S (S j) * Z.to_nat limit)%nat
      by lia.
    rewrite (IH (S j)). by replace (S j + m)%nat with (j + S m)%nat by lia.
Qed.

(** X21: when the API serves an album in pages, the first request and
    the loop over the offsets collect every entry of the album exactly
    once and in order, whatever the number of entries and the page size:
    no page is skipped and none is added twice. *)
Theorem fetch_tracks_data_complete limit :
  (0 < limit)%Z →
  fetch_tracks_data (serve all) album_id limit =
    inr {| totalNumberOfItems := Some (Z.of_nat (length all)); items := Some all |}.
Proof.
  intros Hlimit. unfold fetch_tracks_data. unfold serve at 1.
  cbn [Py.bind totalNumberOfItems or_raise default from_option Datatypes.id].
  rewrite range_step_pages by (done || apply Z.div_pos; lia).
  change (Z.to_nat 0) with 0%nat. rewrite drop_0.
  replace (take (Z.to_nat limit) all) with (take (1 * Z.to_nat limit) all)
    by (f_equal; lia).
  rewrite (fetch_pages limit 0 _ Hlimit). do 3 f_equal. apply take_ge.
  pose proof (Z.mul_succ_div_gt (Z.of_nat (length all)) limit Hlimit) as Hgt.
  nia.
Qed.

Lemma fill_cache_ok entries cache :
  Forall (λ e, is_Some (item e)) entries →
  ∃ cache', fill_cache entries cache = (inr (with_credits <$> entries), cache').
Proof.
  intros Hall. revert cache. induction Hall as [|e entries [i Hi] _ IH]; intros cache.
  - by exists cache.
  - cbn [fill_cache]. rewrite Hi. cbv zeta.
    match goal with
    | |- context [fill_cache entries ?c] => destruct (IH c) as (cache' & ->)
    end.
    exists cache'. cbn [Py.bind ret fmap list_fmap]. unfold with_credits at 2.
    by rewrite Hi.
Qed.

Lemma track_ids_listed entries :
  Forall (λ e, entry_type e = Some "track" → ∃ i n, item e = Some i ∧ id i = Some n)
         entries →
  track_ids (with_credits <$> entries) = inr (listed entries).
Proof.
  unfold track_ids, listed.
  induction 1 as [|e entries He _ IH]; [done|].
  destruct e as [ty it cr].
  cbn [fmap list_fmap List.filter omap list_omap with_credits entry_type item credits] in *.
  case_bool_decide as Ht; cbv iota; [|exact IH].
  destruct (He Ht) as (i & n & -> & Hn).
  cbn [mapM fmap option_fmap option_map or_raise Py.bind id item mbind option_bind].
  rewrite Hn. cbn [or_raise Py.bind ret fmap option_fmap option_map].
  unfold with_credits at 1.
  cbn [item fmap option_fmap option_map or_raise Py.bind id]. rewrite Hn.
  cbn [or_raise Py.bind ret]. by rewrite IH.
Qed.

(** X22: for an album served in pages, whose entries all have an item
    and whose track entries have an id, the [try] block returns the ids
    of all entries of type track, as text and in album order, leaving the
    video clips out, whichever exceptions count as a [TidalError]. *)
Theorem album_tracks_listed is_TidalError :
  Forall (λ e, is_Some (item e)) all →
  Forall (λ e, entry_type e = Some "track" → ∃ i n, item e = Some i ∧ id i = Some n) all →
  ∃ cache,
    album_tracks (serve all) is_TidalError album_id = inr (listed all, cache).
Proof.
  intros Hitems Hids. unfold album_tracks.
  rewrite fetch_tracks_data_complete by done. cbn [items].
  destruct (fill_cache_ok all [] Hitems) as (cache & ->).
  rewrite (track_ids_listed all Hids). by exists cache.
Qed.

End paged.

End album_pages.

(** ** [get_album_info]: the release year *)

Section release_year.
Import Album.











End release_year.

Lemma fetch_tracks_data_complete_witness :
  Album.fetch_tracks_data (AlbumSpec.serve AlbumSpec.three_entries) "77" 2 =
    inr {| Album.totalNumberOfItems := Some 3%Z;
           Album.items := Some AlbumSpec.three_entries |}.
Proof.
  apply (fetch_tracks_data_complete "77" AlbumSpec.three_entries 2). reflexivity.
Defined.

Lemma album_tracks_listed_witness :
  ∃ cache,
    Album.album_tracks (AlbumSpec.serve AlbumSpec.three_entries) (λ _, false) "77"
    = inr (["11"; "13"], cache).
Proof.
  apply (album_tracks_listed "77" AlbumSpec.three_entries (λ _, false)).
  - repeat constructor; by eexists.
  - repeat constructor; intros _; eexists _, _; (split; reflexivity).
Defined.
